(** * GLFM, Android platform layer: a shallow embedding of
    [src/glfm_platform_android.c] and the properties of its lifecycle,
    surface, input and geometry handling.

    The C file keeps one global [GLFMPlatformData] and talks to three
    outside parties: EGL, the Java side reached through JNI, and the
    embedding application's callbacks.  The embedding threads the platform
    data through a state monad.  Every answer of an outside party is read
    from a tape of the environment, and every call that leaves the file
    (callbacks, EGL calls that create or destroy something, sensor
    subscriptions) is appended to a log, so that ordering properties are
    properties of the log.  A callback is its log entry; of the calls an
    embedder can make from inside a callback only [glfmSwapBuffers] from
    the render callback is followed, since [_glfmDrawFrame] and the main
    loop depend on it. *)

From Stdlib Require Import ZArith List Bool Lia.
From Stdlib Require SpecFloat.

Import ListNotations.

Open Scope Z_scope.

(** ** Constants of the file and of the platform headers *)

Definition MAX_SIMULTANEOUS_TOUCHES : Z := 5.

Definition SENSOR_UPDATE_INTERVAL_MICROS : Z := 10000.

Definition RESIZE_EVENT_MAX_WAIT_FRAMES : Z := 5.

Definition GLFM_NUM_SENSORS : nat := 4.

(* EGL/egl.h *)
Definition EGL_NO_DISPLAY : Z := 0.

Definition EGL_NO_SURFACE : Z := 0.

Definition EGL_NO_CONTEXT : Z := 0.

Definition EGL_BAD_CONTEXT : Z := 0x3006.

Definition EGL_BAD_SURFACE : Z := 0x300D.

Definition EGL_CONTEXT_LOST : Z := 0x300E.

(* android_native_app_glue.h *)
Definition APP_CMD_INPUT_CHANGED : Z := 0.

Definition APP_CMD_INIT_WINDOW : Z := 1.

Definition APP_CMD_TERM_WINDOW : Z := 2.

Definition APP_CMD_WINDOW_RESIZED : Z := 3.

Definition APP_CMD_WINDOW_REDRAW_NEEDED : Z := 4.

Definition APP_CMD_CONTENT_RECT_CHANGED : Z := 5.

Definition APP_CMD_GAINED_FOCUS : Z := 6.

Definition APP_CMD_LOST_FOCUS : Z := 7.

Definition APP_CMD_CONFIG_CHANGED : Z := 8.

Definition APP_CMD_LOW_MEMORY : Z := 9.

Definition APP_CMD_START : Z := 10.

Definition APP_CMD_RESUME : Z := 11.

Definition APP_CMD_SAVE_STATE : Z := 12.

Definition APP_CMD_PAUSE : Z := 13.

Definition APP_CMD_STOP : Z := 14.

Definition APP_CMD_DESTROY : Z := 15.

(* android/input.h *)
Definition AINPUT_EVENT_TYPE_KEY : Z := 1.

Definition AINPUT_EVENT_TYPE_MOTION : Z := 2.

Definition AKEY_EVENT_ACTION_DOWN : Z := 0.

Definition AKEY_EVENT_ACTION_UP : Z := 1.

Definition AKEY_EVENT_ACTION_MULTIPLE : Z := 2.

Definition AMOTION_EVENT_ACTION_MASK : Z := 0xff.

Definition AMOTION_EVENT_ACTION_POINTER_INDEX_MASK : Z := 0xff00.

Definition AMOTION_EVENT_ACTION_POINTER_INDEX_SHIFT : Z := 8.

Definition AMOTION_EVENT_ACTION_DOWN : Z := 0.

Definition AMOTION_EVENT_ACTION_UP : Z := 1.

Definition AMOTION_EVENT_ACTION_MOVE : Z := 2.

Definition AMOTION_EVENT_ACTION_CANCEL : Z := 3.

Definition AMOTION_EVENT_ACTION_OUTSIDE : Z := 4.

Definition AMOTION_EVENT_ACTION_POINTER_DOWN : Z := 5.

Definition AMOTION_EVENT_ACTION_POINTER_UP : Z := 6.

(* android/keycodes.h *)
Definition AKEYCODE_BACK : Z := 4.

Definition AKEYCODE_0 : Z := 7.

Definition AKEYCODE_9 : Z := 16.

Definition AKEYCODE_DPAD_UP : Z := 19.

Definition AKEYCODE_DPAD_DOWN : Z := 20.

Definition AKEYCODE_DPAD_LEFT : Z := 21.

Definition AKEYCODE_DPAD_RIGHT : Z := 22.

Definition AKEYCODE_DPAD_CENTER : Z := 23.

Definition AKEYCODE_A : Z := 29.

Definition AKEYCODE_Z : Z := 54.

Definition AKEYCODE_TAB : Z := 61.

Definition AKEYCODE_SPACE : Z := 62.

Definition AKEYCODE_ENTER : Z := 66.

Definition AKEYCODE_MENU : Z := 82.

(** ** Data model *)

(** [ARect] of android/rect.h: four [int32_t] in this order. *)
Record ARect : Type := mkRect { left : Z; top : Z; right : Z; bottom : Z }.

Definition ARectsEqual (r1 r2 : ARect) : bool :=
  (left r1 =? left r2) && (top r1 =? top r2) &&
  (right r1 =? right r2) && (bottom r1 =? bottom r2).

Inductive GLFMRenderingAPI : Type :=
| GLFMRenderingAPIOpenGLES2
| GLFMRenderingAPIOpenGLES3
| GLFMRenderingAPIOpenGLES31
| GLFMRenderingAPIOpenGLES32.

(** The enumerators in declaration order; the code compares them with [>=]. *)
Definition api_rank (a : GLFMRenderingAPI) : Z :=
  match a with
  | GLFMRenderingAPIOpenGLES2 => 0
  | GLFMRenderingAPIOpenGLES3 => 1
  | GLFMRenderingAPIOpenGLES31 => 2
  | GLFMRenderingAPIOpenGLES32 => 3
  end.

Inductive GLFMColorFormat : Type := GLFMColorFormatRGBA8888 | GLFMColorFormatRGB565.

Inductive GLFMDepthFormat : Type := GLFMDepthFormatNone | GLFMDepthFormat16 | GLFMDepthFormat24.

Inductive GLFMStencilFormat : Type := GLFMStencilFormatNone | GLFMStencilFormat8.

Inductive GLFMMultisample : Type := GLFMMultisampleNone | GLFMMultisample4X.

Inductive GLFMSwapBehavior : Type :=
| GLFMSwapBehaviorPlatformDefault
| GLFMSwapBehaviorBufferDestroyed
| GLFMSwapBehaviorBufferPreserved.

Inductive GLFMUserInterfaceChrome : Type :=
| GLFMUserInterfaceChromeNavigation
| GLFMUserInterfaceChromeNavigationAndStatusBar
| GLFMUserInterfaceChromeFullscreen.

Inductive GLFMInterfaceOrientation : Type :=
| GLFMInterfaceOrientationUnknown
| GLFMInterfaceOrientationPortrait
| GLFMInterfaceOrientationPortraitUpsideDown
| GLFMInterfaceOrientationLandscapeLeft
| GLFMInterfaceOrientationLandscapeRight.

Definition orientation_eqb (a b : GLFMInterfaceOrientation) : bool :=
  match a, b with
  | GLFMInterfaceOrientationUnknown, GLFMInterfaceOrientationUnknown
  | GLFMInterfaceOrientationPortrait, GLFMInterfaceOrientationPortrait
  | GLFMInterfaceOrientationPortraitUpsideDown, GLFMInterfaceOrientationPortraitUpsideDown
  | GLFMInterfaceOrientationLandscapeLeft, GLFMInterfaceOrientationLandscapeLeft
  | GLFMInterfaceOrientationLandscapeRight, GLFMInterfaceOrientationLandscapeRight => true
  | _, _ => false
  end.

Inductive GLFMTouchPhase : Type :=
| GLFMTouchPhaseHover
| GLFMTouchPhaseBegan
| GLFMTouchPhaseMoved
| GLFMTouchPhaseEnded
| GLFMTouchPhaseCancelled.

Inductive GLFMKeyAction : Type :=
| GLFMKeyActionPressed
| GLFMKeyActionRepeated
| GLFMKeyActionReleased.

(** [GLFMKey]: the named enumerators the file uses, all nonzero in glfm.h,
    and [GLFMKeyCode c] for the cast [(GLFMKey)c] of a computed code. *)
Inductive GLFMKey : Type :=
| GLFMKeyLeft | GLFMKeyRight | GLFMKeyUp | GLFMKeyDown
| GLFMKeyEnter | GLFMKeyTab | GLFMKeySpace
| GLFMKeyNavBack | GLFMKeyNavMenu
| GLFMKeyCode (c : Z).

Definition key_is_zero (k : GLFMKey) : bool :=
  match k with GLFMKeyCode c => c =? 0 | _ => false end.

(** [GLFMDisplay]: for every callback slot whether a function is stored in
    it (the pointer is not NULL), and the declared configuration.  The
    display is allocated by [android_main] before the first command is
    dispatched and never freed, so the platform data always has one. *)
Record GLFMDisplay : Type := mkDisplay {
  surfaceCreatedFunc : bool;
  surfaceDestroyedFunc : bool;
  surfaceResizedFunc : bool;
  surfaceRefreshFunc : bool;
  renderFunc : bool;
  focusFunc : bool;
  lowMemoryFunc : bool;
  orientationChangedFunc : bool;
  keyboardVisibilityChangedFunc : bool;
  keyFunc : bool;
  charFunc : bool;
  touchFunc : bool;
  sensorFuncs : list bool;
  preferredAPI : GLFMRenderingAPI;
  colorFormat : GLFMColorFormat;
  depthFormat : GLFMDepthFormat;
  stencilFormat : GLFMStencilFormat;
  multisample : GLFMMultisample;
  swapBehavior : GLFMSwapBehavior;
  uiChrome : GLFMUserInterfaceChrome
}.

(** The two rectangles of [struct android_app] the file reads and writes. *)
Record android_app : Type := mkApp {
  contentRect : ARect;
  pendingContentRect : ARect
}.

(** A [double]: an IEEE 754 binary64 value, with operations that round to
    nearest, ties to even. *)
Definition double : Type := SpecFloat.spec_float.

(** The conversion of an [int] to [double]; it is exact. *)
Definition double_of_int (n : Z) : double := SpecFloat.binary_normalize 53 1024 n 0 false.

Definition double_mul : double -> double -> double := SpecFloat.SFmul 53 1024.

Definition double_div : double -> double -> double := SpecFloat.SFdiv 53 1024.

(** The cast [(int)x]: the value of [x] with its fraction dropped.  C
    leaves the cast undefined for a value that is not a number or that no
    [int] holds; here the first gives 0 and the second the whole number. *)
Definition int_of_double (x : double) : Z :=
  match x with
  | SpecFloat.S754_finite negative m e =>
      let magnitude := Z.shiftl (Z.pos m) e in
      if negative then - magnitude else magnitude
  | _ => 0
  end.

(** [GLFMPlatformData].  Left out: [lastSwapTime] (clock), [jniEnv],
    [eglConfig] (opaque handle), [sensorEvent] (floating-point samples).
    [scale] is the double [android_main] stores.  EGL handles are integers,
    zero for the [EGL_NO_*] values. *)
Record GLFMPlatformData : Type := mkPlatformData {
  app : android_app;
  multitouchEnabled : bool;
  keyboardFrame : ARect;
  keyboardVisible : bool;
  animating : bool;
  hasInited : bool;
  refreshRequested : bool;
  swapCalled : bool;
  eglDisplay : Z;
  eglSurface : Z;
  eglContext : Z;
  eglContextCurrent : bool;
  width : Z;
  height : Z;
  scale : double;
  resizeEventWaitFrames : Z;
  display : GLFMDisplay;
  renderingAPI : GLFMRenderingAPI;
  sensorEventQueue : bool;
  sensorEventValid : list bool;
  deviceSensorEnabled : list bool;
  orientation : GLFMInterfaceOrientation
}.

(** Field assignments [platformData->f = v]. *)
Definition set_app (v : android_app) (pd : GLFMPlatformData) : GLFMPlatformData :=
  {| app := v; multitouchEnabled := multitouchEnabled pd;
     keyboardFrame := keyboardFrame pd; keyboardVisible := keyboardVisible pd;
     animating := animating pd; hasInited := hasInited pd;
     refreshRequested := refreshRequested pd; swapCalled := swapCalled pd;
     eglDisplay := eglDisplay pd; eglSurface := eglSurface pd; eglContext := eglContext pd;
     eglContextCurrent := eglContextCurrent pd; width := width pd; height := height pd;
     scale := scale pd;
     resizeEventWaitFrames := resizeEventWaitFrames pd; display := display pd;
     renderingAPI := renderingAPI pd; sensorEventQueue := sensorEventQueue pd;
     sensorEventValid := sensorEventValid pd;
     deviceSensorEnabled := deviceSensorEnabled pd; orientation := orientation pd |}.

Definition set_multitouchEnabled (v : bool) (pd : GLFMPlatformData) : GLFMPlatformData :=
  {| app := app pd; multitouchEnabled := v; keyboardFrame := keyboardFrame pd;
     keyboardVisible := keyboardVisible pd; animating := animating pd;
     hasInited := hasInited pd; refreshRequested := refreshRequested pd;
     swapCalled := swapCalled pd; eglDisplay := eglDisplay pd; eglSurface := eglSurface pd;
     eglContext := eglContext pd; eglContextCurrent := eglContextCurrent pd;
     width := width pd; height := height pd; scale := scale pd;
     resizeEventWaitFrames := resizeEventWaitFrames pd; display := display pd;
     renderingAPI := renderingAPI pd; sensorEventQueue := sensorEventQueue pd;
     sensorEventValid := sensorEventValid pd;
     deviceSensorEnabled := deviceSensorEnabled pd; orientation := orientation pd |}.

Definition set_keyboardFrame (v : ARect) (pd : GLFMPlatformData) : GLFMPlatformData :=
  {| app := app pd; multitouchEnabled := multitouchEnabled pd; keyboardFrame := v;
     keyboardVisible := keyboardVisible pd; animating := animating pd;
     hasInited := hasInited pd; refreshRequested := refreshRequested pd;
     swapCalled := swapCalled pd; eglDisplay := eglDisplay pd; eglSurface := eglSurface pd;
     eglContext := eglContext pd; eglContextCurrent := eglContextCurrent pd;
     width := width pd; height := height pd; scale := scale pd;
     resizeEventWaitFrames := resizeEventWaitFrames pd; display := display pd;
     renderingAPI := renderingAPI pd; sensorEventQueue := sensorEventQueue pd;
     sensorEventValid := sensorEventValid pd;
     deviceSensorEnabled := deviceSensorEnabled pd; orientation := orientation pd |}.

Definition set_keyboardVisible (v : bool) (pd : GLFMPlatformData) : GLFMPlatformData :=
  {| app := app pd; multitouchEnabled := multitouchEnabled pd;
     keyboardFrame := keyboardFrame pd; keyboardVisible := v; animating := animating pd;
     hasInited := hasInited pd; refreshRequested := refreshRequested pd;
     swapCalled := swapCalled pd; eglDisplay := eglDisplay pd; eglSurface := eglSurface pd;
     eglContext := eglContext pd; eglContextCurrent := eglContextCurrent pd;
     width := width pd; height := height pd; scale := scale pd;
     resizeEventWaitFrames := resizeEventWaitFrames pd; display := display pd;
     renderingAPI := renderingAPI pd; sensorEventQueue := sensorEventQueue pd;
     sensorEventValid := sensorEventValid pd;
     deviceSensorEnabled := deviceSensorEnabled pd; orientation := orientation pd |}.

Definition set_animating (v : bool) (pd : GLFMPlatformData) : GLFMPlatformData :=
  {| app := app pd; multitouchEnabled := multitouchEnabled pd;
     keyboardFrame := keyboardFrame pd; keyboardVisible := keyboardVisible pd;
     animating := v; hasInited := hasInited pd; refreshRequested := refreshRequested pd;
     swapCalled := swapCalled pd; eglDisplay := eglDisplay pd; eglSurface := eglSurface pd;
     eglContext := eglContext pd; eglContextCurrent := eglContextCurrent pd;
     width := width pd; height := height pd; scale := scale pd;
     resizeEventWaitFrames := resizeEventWaitFrames pd; display := display pd;
     renderingAPI := renderingAPI pd; sensorEventQueue := sensorEventQueue pd;
     sensorEventValid := sensorEventValid pd;
     deviceSensorEnabled := deviceSensorEnabled pd; orientation := orientation pd |}.

Definition set_hasInited (v : bool) (pd : GLFMPlatformData) : GLFMPlatformData :=
  {| app := app pd; multitouchEnabled := multitouchEnabled pd;
     keyboardFrame := keyboardFrame pd; keyboardVisible := keyboardVisible pd;
     animating := animating pd; hasInited := v; refreshRequested := refreshRequested pd;
     swapCalled := swapCalled pd; eglDisplay := eglDisplay pd; eglSurface := eglSurface pd;
     eglContext := eglContext pd; eglContextCurrent := eglContextCurrent pd;
     width := width pd; height := height pd; scale := scale pd;
     resizeEventWaitFrames := resizeEventWaitFrames pd; display := display pd;
     renderingAPI := renderingAPI pd; sensorEventQueue := sensorEventQueue pd;
     sensorEventValid := sensorEventValid pd;
     deviceSensorEnabled := deviceSensorEnabled pd; orientation := orientation pd |}.

Definition set_refreshRequested (v : bool) (pd : GLFMPlatformData) : GLFMPlatformData :=
  {| app := app pd; multitouchEnabled := multitouchEnabled pd;
     keyboardFrame := keyboardFrame pd; keyboardVisible := keyboardVisible pd;
     animating := animating pd; hasInited := hasInited pd; refreshRequested := v;
     swapCalled := swapCalled pd; eglDisplay := eglDisplay pd; eglSurface := eglSurface pd;
     eglContext := eglContext pd; eglContextCurrent := eglContextCurrent pd;
     width := width pd; height := height pd; scale := scale pd;
     resizeEventWaitFrames := resizeEventWaitFrames pd; display := display pd;
     renderingAPI := renderingAPI pd; sensorEventQueue := sensorEventQueue pd;
     sensorEventValid := sensorEventValid pd;
     deviceSensorEnabled := deviceSensorEnabled pd; orientation := orientation pd |}.

Definition set_swapCalled (v : bool) (pd : GLFMPlatformData) : GLFMPlatformData :=
  {| app := app pd; multitouchEnabled := multitouchEnabled pd;
     keyboardFrame := keyboardFrame pd; keyboardVisible := keyboardVisible pd;
     animating := animating pd; hasInited := hasInited pd;
     refreshRequested := refreshRequested pd; swapCalled := v; eglDisplay := eglDisplay pd;
     eglSurface := eglSurface pd; eglContext := eglContext pd;
     eglContextCurrent := eglContextCurrent pd; width := width pd; height := height pd;
     scale := scale pd;
     resizeEventWaitFrames := resizeEventWaitFrames pd; display := display pd;
     renderingAPI := renderingAPI pd; sensorEventQueue := sensorEventQueue pd;
     sensorEventValid := sensorEventValid pd;
     deviceSensorEnabled := deviceSensorEnabled pd; orientation := orientation pd |}.

Definition set_eglDisplay (v : Z) (pd : GLFMPlatformData) : GLFMPlatformData :=
  {| app := app pd; multitouchEnabled := multitouchEnabled pd;
     keyboardFrame := keyboardFrame pd; keyboardVisible := keyboardVisible pd;
     animating := animating pd; hasInited := hasInited pd;
     refreshRequested := refreshRequested pd; swapCalled := swapCalled pd; eglDisplay := v;
     eglSurface := eglSurface pd; eglContext := eglContext pd;
     eglContextCurrent := eglContextCurrent pd; width := width pd; height := height pd;
     scale := scale pd;
     resizeEventWaitFrames := resizeEventWaitFrames pd; display := display pd;
     renderingAPI := renderingAPI pd; sensorEventQueue := sensorEventQueue pd;
     sensorEventValid := sensorEventValid pd;
     deviceSensorEnabled := deviceSensorEnabled pd; orientation := orientation pd |}.

Definition set_eglSurface (v : Z) (pd : GLFMPlatformData) : GLFMPlatformData :=
  {| app := app pd; multitouchEnabled := multitouchEnabled pd;
     keyboardFrame := keyboardFrame pd; keyboardVisible := keyboardVisible pd;
     animating := animating pd; hasInited := hasInited pd;
     refreshRequested := refreshRequested pd; swapCalled := swapCalled pd;
     eglDisplay := eglDisplay pd; eglSurface := v; eglContext := eglContext pd;
     eglContextCurrent := eglContextCurrent pd; width := width pd; height := height pd;
     scale := scale pd;
     resizeEventWaitFrames := resizeEventWaitFrames pd; display := display pd;
     renderingAPI := renderingAPI pd; sensorEventQueue := sensorEventQueue pd;
     sensorEventValid := sensorEventValid pd;
     deviceSensorEnabled := deviceSensorEnabled pd; orientation := orientation pd |}.

Definition set_eglContext (v : Z) (pd : GLFMPlatformData) : GLFMPlatformData :=
  {| app := app pd; multitouchEnabled := multitouchEnabled pd;
     keyboardFrame := keyboardFrame pd; keyboardVisible := keyboardVisible pd;
     animating := animating pd; hasInited := hasInited pd;
     refreshRequested := refreshRequested pd; swapCalled := swapCalled pd;
     eglDisplay := eglDisplay pd; eglSurface := eglSurface pd; eglContext := v;
     eglContextCurrent := eglContextCurrent pd; width := width pd; height := height pd;
     scale := scale pd;
     resizeEventWaitFrames := resizeEventWaitFrames pd; display := display pd;
     renderingAPI := renderingAPI pd; sensorEventQueue := sensorEventQueue pd;
     sensorEventValid := sensorEventValid pd;
     deviceSensorEnabled := deviceSensorEnabled pd; orientation := orientation pd |}.

Definition set_eglContextCurrent (v : bool) (pd : GLFMPlatformData) : GLFMPlatformData :=
  {| app := app pd; multitouchEnabled := multitouchEnabled pd;
     keyboardFrame := keyboardFrame pd; keyboardVisible := keyboardVisible pd;
     animating := animating pd; hasInited := hasInited pd;
     refreshRequested := refreshRequested pd; swapCalled := swapCalled pd;
     eglDisplay := eglDisplay pd; eglSurface := eglSurface pd; eglContext := eglContext pd;
     eglContextCurrent := v; width := width pd; height := height pd;
     scale := scale pd;
     resizeEventWaitFrames := resizeEventWaitFrames pd; display := display pd;
     renderingAPI := renderingAPI pd; sensorEventQueue := sensorEventQueue pd;
     sensorEventValid := sensorEventValid pd;
     deviceSensorEnabled := deviceSensorEnabled pd; orientation := orientation pd |}.

Definition set_width (v : Z) (pd : GLFMPlatformData) : GLFMPlatformData :=
  {| app := app pd; multitouchEnabled := multitouchEnabled pd;
     keyboardFrame := keyboardFrame pd; keyboardVisible := keyboardVisible pd;
     animating := animating pd; hasInited := hasInited pd;
     refreshRequested := refreshRequested pd; swapCalled := swapCalled pd;
     eglDisplay := eglDisplay pd; eglSurface := eglSurface pd; eglContext := eglContext pd;
     eglContextCurrent := eglContextCurrent pd; width := v; height := height pd;
     scale := scale pd;
     resizeEventWaitFrames := resizeEventWaitFrames pd; display := display pd;
     renderingAPI := renderingAPI pd; sensorEventQueue := sensorEventQueue pd;
     sensorEventValid := sensorEventValid pd;
     deviceSensorEnabled := deviceSensorEnabled pd; orientation := orientation pd |}.

Definition set_height (v : Z) (pd : GLFMPlatformData) : GLFMPlatformData :=
  {| app := app pd; multitouchEnabled := multitouchEnabled pd;
     keyboardFrame := keyboardFrame pd; keyboardVisible := keyboardVisible pd;
     animating := animating pd; hasInited := hasInited pd;
     refreshRequested := refreshRequested pd; swapCalled := swapCalled pd;
     eglDisplay := eglDisplay pd; eglSurface := eglSurface pd; eglContext := eglContext pd;
     eglContextCurrent := eglContextCurrent pd; width := width pd; height := v;
     scale := scale pd;
     resizeEventWaitFrames := resizeEventWaitFrames pd; display := display pd;
     renderingAPI := renderingAPI pd; sensorEventQueue := sensorEventQueue pd;
     sensorEventValid := sensorEventValid pd;
     deviceSensorEnabled := deviceSensorEnabled pd; orientation := orientation pd |}.

Definition set_resizeEventWaitFrames (v : Z) (pd : GLFMPlatformData) : GLFMPlatformData :=
  {| app := app pd; multitouchEnabled := multitouchEnabled pd;
     keyboardFrame := keyboardFrame pd; keyboardVisible := keyboardVisible pd;
     animating := animating pd; hasInited := hasInited pd;
     refreshRequested := refreshRequested pd; swapCalled := swapCalled pd;
     eglDisplay := eglDisplay pd; eglSurface := eglSurface pd; eglContext := eglContext pd;
     eglContextCurrent := eglContextCurrent pd; width := width pd; height := height pd;
     scale := scale pd; resizeEventWaitFrames := v;
     display := display pd; renderingAPI := renderingAPI pd;
     sensorEventQueue := sensorEventQueue pd; sensorEventValid := sensorEventValid pd;
     deviceSensorEnabled := deviceSensorEnabled pd; orientation := orientation pd |}.

Definition set_renderingAPI (v : GLFMRenderingAPI) (pd : GLFMPlatformData) : GLFMPlatformData :=
  {| app := app pd; multitouchEnabled := multitouchEnabled pd;
     keyboardFrame := keyboardFrame pd; keyboardVisible := keyboardVisible pd;
     animating := animating pd; hasInited := hasInited pd;
     refreshRequested := refreshRequested pd; swapCalled := swapCalled pd;
     eglDisplay := eglDisplay pd; eglSurface := eglSurface pd; eglContext := eglContext pd;
     eglContextCurrent := eglContextCurrent pd; width := width pd; height := height pd;
     scale := scale pd;
     resizeEventWaitFrames := resizeEventWaitFrames pd; display := display pd;
     renderingAPI := v; sensorEventQueue := sensorEventQueue pd;
     sensorEventValid := sensorEventValid pd;
     deviceSensorEnabled := deviceSensorEnabled pd; orientation := orientation pd |}.

Definition set_sensorEventQueue (v : bool) (pd : GLFMPlatformData) : GLFMPlatformData :=
  {| app := app pd; multitouchEnabled := multitouchEnabled pd;
     keyboardFrame := keyboardFrame pd; keyboardVisible := keyboardVisible pd;
     animating := animating pd; hasInited := hasInited pd;
     refreshRequested := refreshRequested pd; swapCalled := swapCalled pd;
     eglDisplay := eglDisplay pd; eglSurface := eglSurface pd; eglContext := eglContext pd;
     eglContextCurrent := eglContextCurrent pd; width := width pd; height := height pd;
     scale := scale pd;
     resizeEventWaitFrames := resizeEventWaitFrames pd; display := display pd;
     renderingAPI := renderingAPI pd; sensorEventQueue := v;
     sensorEventValid := sensorEventValid pd;
     deviceSensorEnabled := deviceSensorEnabled pd; orientation := orientation pd |}.

Definition set_sensorEventValid (v : list bool) (pd : GLFMPlatformData) : GLFMPlatformData :=
  {| app := app pd; multitouchEnabled := multitouchEnabled pd;
     keyboardFrame := keyboardFrame pd; keyboardVisible := keyboardVisible pd;
     animating := animating pd; hasInited := hasInited pd;
     refreshRequested := refreshRequested pd; swapCalled := swapCalled pd;
     eglDisplay := eglDisplay pd; eglSurface := eglSurface pd; eglContext := eglContext pd;
     eglContextCurrent := eglContextCurrent pd; width := width pd; height := height pd;
     scale := scale pd;
     resizeEventWaitFrames := resizeEventWaitFrames pd; display := display pd;
     renderingAPI := renderingAPI pd; sensorEventQueue := sensorEventQueue pd;
     sensorEventValid := v; deviceSensorEnabled := deviceSensorEnabled pd;
     orientation := orientation pd |}.

Definition set_deviceSensorEnabled (v : list bool) (pd : GLFMPlatformData) : GLFMPlatformData :=
  {| app := app pd; multitouchEnabled := multitouchEnabled pd;
     keyboardFrame := keyboardFrame pd; keyboardVisible := keyboardVisible pd;
     animating := animating pd; hasInited := hasInited pd;
     refreshRequested := refreshRequested pd; swapCalled := swapCalled pd;
     eglDisplay := eglDisplay pd; eglSurface := eglSurface pd; eglContext := eglContext pd;
     eglContextCurrent := eglContextCurrent pd; width := width pd; height := height pd;
     scale := scale pd;
     resizeEventWaitFrames := resizeEventWaitFrames pd; display := display pd;
     renderingAPI := renderingAPI pd; sensorEventQueue := sensorEventQueue pd;
     sensorEventValid := sensorEventValid pd; deviceSensorEnabled := v;
     orientation := orientation pd |}.

Definition set_orientation (v : GLFMInterfaceOrientation) (pd : GLFMPlatformData) : GLFMPlatformData :=
  {| app := app pd; multitouchEnabled := multitouchEnabled pd;
     keyboardFrame := keyboardFrame pd; keyboardVisible := keyboardVisible pd;
     animating := animating pd; hasInited := hasInited pd;
     refreshRequested := refreshRequested pd; swapCalled := swapCalled pd;
     eglDisplay := eglDisplay pd; eglSurface := eglSurface pd; eglContext := eglContext pd;
     eglContextCurrent := eglContextCurrent pd; width := width pd; height := height pd;
     scale := scale pd;
     resizeEventWaitFrames := resizeEventWaitFrames pd; display := display pd;
     renderingAPI := renderingAPI pd; sensorEventQueue := sensorEventQueue pd;
     sensorEventValid := sensorEventValid pd;
     deviceSensorEnabled := deviceSensorEnabled pd; orientation := v |}.

(** ** The outside world: log and environment *)

(** Everything the file does to the outside: the embedder's callbacks, the
    EGL calls with an effect, sensor subscriptions and bridge calls. *)
Inductive Event : Type :=
| CbSurfaceCreated (w h : Z)
| CbSurfaceDestroyed
| CbSurfaceResized (w h : Z)
| CbSurfaceRefresh
| CbRender
| CbFocus (focused : bool)
| CbLowMemory
| CbOrientationChanged (o : GLFMInterfaceOrientation)
| CbKeyboardVisibilityChanged (visible : bool) (x y w h : Z)
| CbKey (key : GLFMKey) (action : GLFMKeyAction)
| CbChar (utf8 : list Z)
| CbTouch (touchNumber : Z) (phase : GLFMTouchPhase) (x y : Z)
| Egl_Initialize (dpy : Z)
| Egl_CreateContext (major minor result : Z)
| Egl_DestroyContext (ctx : Z)
| Egl_BindContext (surface ctx : Z) (ok : bool)
| Egl_UnbindContext
| Egl_CreateWindowSurface (result : Z)
| Egl_DestroySurface (surface : Z)
| Egl_Terminate
| Egl_SwapBuffers (ok : bool)
| Glfm_reportSurfaceError
| Sensor_createEventQueue (ok : bool)
| Sensor_enable (i : nat) (ok : bool)
| Sensor_setEventRate (i : nat) (delay : Z)
| Sensor_disable (i : nat) (ok : bool)
| Jni_setFullScreen (chrome : GLFMUserInterfaceChrome)
| Jni_resetContentRect
| Jni_moveTaskToBack.

(** The calls whose answer the file depends on.  Each has a tape of
    answers, read front to back; a tape that has run out answers 0. *)
Inductive ExtCall : Type :=
| X_eglGetDisplay            (* the display handle *)
| X_eglChooseConfig          (* numConfigs *)
| X_eglCreateWindowSurface   (* the surface handle *)
| X_eglCreateContext         (* the context handle *)
| X_eglQueryContextMajor     (* the version, negative when the query fails *)
| X_eglQueryContextMinor
| X_eglMakeCurrent           (* EGLBoolean of a bind *)
| X_eglGetError
| X_eglQuerySurfaceWidth
| X_eglQuerySurfaceHeight
| X_eglSwapBuffers           (* EGLBoolean *)
| X_renderCallsSwap          (* nonzero: the render callback calls glfmSwapBuffers *)
| X_getRotation              (* Display.getRotation, negative when the chain fails *)
| X_visibleDisplayFrame      (* nonzero: success, followed by left, right, top, bottom *)
| X_getUnicodeChar           (* jint, 0 on failure *)
| X_keyFunc                  (* the key callback's return value *)
| X_moveTaskToBack           (* the jboolean of the call *)
| X_ExceptionCheck           (* [_glfmHandleBackButton]: nonzero, an exception is pending *)
| X_getDefaultSensor         (* nonzero: the device has the sensor *)
| X_createEventQueue         (* nonzero: a queue *)
| X_enableSensor             (* return code, 0 is success *)
| X_disableSensor
| X_getMinDelay.

Definition ExtCall_eqb (a b : ExtCall) : bool :=
  match a, b with
  | X_eglGetDisplay, X_eglGetDisplay
  | X_eglChooseConfig, X_eglChooseConfig
  | X_eglCreateWindowSurface, X_eglCreateWindowSurface
  | X_eglCreateContext, X_eglCreateContext
  | X_eglQueryContextMajor, X_eglQueryContextMajor
  | X_eglQueryContextMinor, X_eglQueryContextMinor
  | X_eglMakeCurrent, X_eglMakeCurrent
  | X_eglGetError, X_eglGetError
  | X_eglQuerySurfaceWidth, X_eglQuerySurfaceWidth
  | X_eglQuerySurfaceHeight, X_eglQuerySurfaceHeight
  | X_eglSwapBuffers, X_eglSwapBuffers
  | X_renderCallsSwap, X_renderCallsSwap
  | X_getRotation, X_getRotation
  | X_visibleDisplayFrame, X_visibleDisplayFrame
  | X_getUnicodeChar, X_getUnicodeChar
  | X_keyFunc, X_keyFunc
  | X_moveTaskToBack, X_moveTaskToBack
  | X_ExceptionCheck, X_ExceptionCheck
  | X_getDefaultSensor, X_getDefaultSensor
  | X_createEventQueue, X_createEventQueue
  | X_enableSensor, X_enableSensor
  | X_disableSensor, X_disableSensor
  | X_getMinDelay, X_getMinDelay => true
  | _, _ => false
  end.

Definition Env : Type := ExtCall -> list Z.

Record Sys : Type := mkSys {
  plat : GLFMPlatformData;
  env : Env;
  log : list Event
}.

(** ** The state monad of the platform code *)

Definition M (A : Type) : Type := Sys -> A * Sys.

Definition ret {A} (a : A) : M A := fun s => (a, s).

Definition bind {A B} (m : M A) (k : A -> M B) : M B :=
  fun s => let (a, s') := m s in k a s'.

Declare Scope glfm_scope.

Delimit Scope glfm_scope with glfm.

Notation "x <- m ;; k" := (bind m (fun x => k))
  (at level 61, m at next level, right associativity) : glfm_scope.

Notation "m ;; k" := (bind m (fun _ => k))
  (at level 61, right associativity) : glfm_scope.

Open Scope glfm_scope.

Definition get : M GLFMPlatformData := fun s => (plat s, s).

Definition modify (f : GLFMPlatformData -> GLFMPlatformData) : M unit :=
  fun s => (tt, mkSys (f (plat s)) (env s) (log s)).

Definition emit (e : Event) : M unit :=
  fun s => (tt, mkSys (plat s) (env s) (log s ++ [e])).

Definition ask (c : ExtCall) : M Z :=
  fun s => (hd 0 (env s c),
            mkSys (plat s)
                  (fun c' => if ExtCall_eqb c c' then tl (env s c) else env s c')
                  (log s)).

Definition when (b : bool) (m : M unit) : M unit := if b then m else ret tt.

Definition exec {A} (m : M A) (s : Sys) : Sys := snd (m s).

Definition eval {A} (m : M A) (s : Sys) : A := fst (m s).

(** ** EGL: context and surface *)

Definition eglCreateContext (major minor : Z) : M bool :=
  h <- ask X_eglCreateContext ;;
  emit (Egl_CreateContext major minor h) ;;
  modify (set_eglContext h) ;;
  ret (negb (h =? EGL_NO_CONTEXT)).

(** [eglQueryContext] leaves its out-parameter alone when it fails. *)
Definition eglQueryContext (attr : ExtCall) (cur : Z) : M Z :=
  v <- ask attr ;;
  ret (if v <? 0 then cur else v).

Definition _glfmEGLContextInit : M bool :=
  pd <- get ;;
  created <-
    (if eglContext pd =? EGL_NO_CONTEXT then
       let api := api_rank (preferredAPI (display pd)) in
       (* OpenGL ES 3.2 *)
       r32 <- (if api_rank GLFMRenderingAPIOpenGLES32 <=? api
               then c <- eglCreateContext 3 2 ;; ret (c, (3, 2))
               else ret (false, (0, 0))) ;;
       (* OpenGL ES 3.1 *)
       r31 <- (if negb (fst r32) && (api_rank GLFMRenderingAPIOpenGLES31 <=? api)
               then c <- eglCreateContext 3 1 ;; ret (c, (3, 1))
               else ret r32) ;;
       (* OpenGL ES 3.0 *)
       r30 <- (if negb (fst r31) && (api_rank GLFMRenderingAPIOpenGLES3 <=? api)
               then c <- eglCreateContext 3 0 ;; ret (c, (3, 0))
               else ret r31) ;;
       (* OpenGL ES 2.0 *)
       r20 <- (if negb (fst r30)
               then c <- eglCreateContext 2 0 ;; ret (c, (2, 0))
               else ret r30) ;;
       let '(created, (major0, minor0)) := r20 in
       when created
         (majorVersion <- eglQueryContext X_eglQueryContextMajor major0 ;;
          minorVersion <- (if 3 <=? majorVersion
                           then eglQueryContext X_eglQueryContextMinor minor0
                           else ret minor0) ;;
          modify (set_renderingAPI
            (if (majorVersion =? 3) && (minorVersion =? 2) then GLFMRenderingAPIOpenGLES32
             else if (majorVersion =? 3) && (minorVersion =? 1) then GLFMRenderingAPIOpenGLES31
             else if majorVersion =? 3 then GLFMRenderingAPIOpenGLES3
             else GLFMRenderingAPIOpenGLES2))) ;;
       ret created
     else ret false) ;;
  pd <- get ;;
  ok <- ask X_eglMakeCurrent ;;
  emit (Egl_BindContext (eglSurface pd) (eglContext pd) (negb (ok =? 0))) ;;
  if ok =? 0 then
    modify (set_eglContextCurrent false) ;;
    ret false
  else
    modify (set_eglContextCurrent true) ;;
    when (created && surfaceCreatedFunc (display pd))
      (emit (CbSurfaceCreated (width pd) (height pd))) ;;
    ret true.

Definition _glfmEGLContextDisable : M unit :=
  pd <- get ;;
  when (negb (eglDisplay pd =? EGL_NO_DISPLAY)) (emit Egl_UnbindContext) ;;
  modify (set_eglContextCurrent false).

(** The swap behaviour is set with [eglSurfaceAttrib], whose result the
    code does not look at. *)
Definition _glfmEGLSurfaceInit : M unit :=
  pd <- get ;;
  when (eglSurface pd =? EGL_NO_SURFACE)
    (h <- ask X_eglCreateWindowSurface ;;
     emit (Egl_CreateWindowSurface h) ;;
     modify (set_eglSurface h)).

(** The configuration search of [_glfmEGLInit]: [while (true)] with the
    multisample count relaxed first, then the depth precision.  [fuel]
    bounds the number of rounds; [config_search_fuel] below shows that the
    bound used by [_glfmEGLInit] is never reached. *)
Fixpoint eglChooseConfig_loop (fuel : nat) (samples depthBits : Z) : M bool :=
  match fuel with
  | O => ret false
  | S fuel' =>
      numConfigs <- ask X_eglChooseConfig ;;
      if negb (numConfigs =? 0) then
        (* Found! *)
        ret true
      else if 0 <? samples then
        (* Try 2x multisampling or no multisampling *)
        eglChooseConfig_loop fuel' (samples - 2) depthBits
      else if 8 <? depthBits then
        (* Try 16-bit depth or 8-bit depth *)
        eglChooseConfig_loop fuel' samples (depthBits - 8)
      else
        (* Failure *)
        emit Glfm_reportSurfaceError ;;
        emit Egl_Terminate ;;
        modify (set_eglDisplay EGL_NO_DISPLAY) ;;
        ret false
  end.

Definition initial_depthBits (d : GLFMDisplay) : Z :=
  let depthBits :=
    match depthFormat d with
    | GLFMDepthFormatNone => 0
    | GLFMDepthFormat16 => 16
    | GLFMDepthFormat24 => 24
    end in
  match stencilFormat d with
  | GLFMStencilFormatNone => depthBits
  | GLFMStencilFormat8 =>
      (* Many implementations only allow 24-bit depth with 8-bit stencil. *)
      if 0 <? depthBits then 24 else depthBits
  end.

Definition initial_samples (d : GLFMDisplay) : Z :=
  match multisample d with GLFMMultisample4X => 4 | GLFMMultisampleNone => 0 end.

(** [eglQuerySurface] into a field: a failed query (a negative answer)
    leaves the field as it was. *)
Definition eglQuerySurface_into (attr : ExtCall) (cur : Z) : M Z :=
  v <- ask attr ;;
  ret (if v <? 0 then cur else v).

Definition _glfmEGLInit : M bool :=
  pd <- get ;;
  if negb (eglDisplay pd =? EGL_NO_DISPLAY) then
    _glfmEGLSurfaceInit ;;
    _glfmEGLContextInit
  else
    dpy <- ask X_eglGetDisplay ;;
    modify (set_eglDisplay dpy) ;;
    emit (Egl_Initialize dpy) ;;
    found <- eglChooseConfig_loop 6 (initial_samples (display pd))
                                    (initial_depthBits (display pd)) ;;
    if found then
      _glfmEGLSurfaceInit ;;
      pd <- get ;;
      w <- eglQuerySurface_into X_eglQuerySurfaceWidth (width pd) ;;
      modify (set_width w) ;;
      h <- eglQuerySurface_into X_eglQuerySurfaceHeight (height pd) ;;
      modify (set_height h) ;;
      _glfmEGLContextInit
    else
      ret false.

Definition _glfmEGLSurfaceDestroy : M unit :=
  pd <- get ;;
  when (negb (eglSurface pd =? EGL_NO_SURFACE))
    (emit (Egl_DestroySurface (eglSurface pd)) ;;
     modify (set_eglSurface EGL_NO_SURFACE)) ;;
  _glfmEGLContextDisable.

Definition _glfmEGLDestroy : M unit :=
  pd <- get ;;
  when (negb (eglDisplay pd =? EGL_NO_DISPLAY))
    (emit Egl_UnbindContext ;;
     when (negb (eglContext pd =? EGL_NO_CONTEXT))
       (emit (Egl_DestroyContext (eglContext pd)) ;;
        when (surfaceDestroyedFunc (display pd)) (emit CbSurfaceDestroyed)) ;;
     when (negb (eglSurface pd =? EGL_NO_SURFACE))
       (emit (Egl_DestroySurface (eglSurface pd))) ;;
     emit Egl_Terminate) ;;
  modify (set_eglDisplay EGL_NO_DISPLAY) ;;
  modify (set_eglContext EGL_NO_CONTEXT) ;;
  modify (set_eglSurface EGL_NO_SURFACE) ;;
  modify (set_eglContextCurrent false).

Definition _glfmEGLCheckError : M unit :=
  err <- ask X_eglGetError ;;
  if err =? EGL_BAD_SURFACE then
    _glfmEGLSurfaceDestroy ;;
    _glfmEGLSurfaceInit
  else if (err =? EGL_CONTEXT_LOST) || (err =? EGL_BAD_CONTEXT) then
    pd <- get ;;
    when (negb (eglContext pd =? EGL_NO_CONTEXT))
      (modify (set_eglContext EGL_NO_CONTEXT) ;;
       modify (set_eglContextCurrent false) ;;
       when (surfaceDestroyedFunc (display pd)) (emit CbSurfaceDestroyed)) ;;
    _ <- _glfmEGLContextInit ;;
    ret tt
  else
    _glfmEGLDestroy ;;
    _ <- _glfmEGLInit ;;
    ret tt.

Definition glfmSwapBuffers : M unit :=
  result <- ask X_eglSwapBuffers ;;
  emit (Egl_SwapBuffers (negb (result =? 0))) ;;
  modify (set_swapCalled true) ;;
  when (result =? 0) _glfmEGLCheckError.

(** ** Geometry: orientation and resize *)

Definition glfmGetInterfaceOrientation : M GLFMInterfaceOrientation :=
  rotation <- ask X_getRotation ;;
  ret (if rotation <? 0 then GLFMInterfaceOrientationUnknown
       else if rotation =? 0 then GLFMInterfaceOrientationPortrait
       else if rotation =? 1 then GLFMInterfaceOrientationLandscapeRight
       else if rotation =? 2 then GLFMInterfaceOrientationPortraitUpsideDown
       else if rotation =? 3 then GLFMInterfaceOrientationLandscapeLeft
       else GLFMInterfaceOrientationUnknown).

Definition _glfmReportOrientationChangeIfNeeded : M unit :=
  o <- glfmGetInterfaceOrientation ;;
  pd <- get ;;
  when (negb (orientation_eqb (orientation pd) o))
    (modify (set_orientation o) ;;
     modify (set_refreshRequested true) ;;
     when (orientationChangedFunc (display pd)) (emit (CbOrientationChanged o))).

Definition _glfmUpdateSurfaceSizeIfNeeded (force : bool) : M unit :=
  w <- ask X_eglQuerySurfaceWidth ;;
  h <- ask X_eglQuerySurfaceHeight ;;
  pd <- get ;;
  when (negb (w =? width pd) || negb (h =? height pd))
    (if force || (resizeEventWaitFrames pd <=? 0) then
       modify (set_resizeEventWaitFrames RESIZE_EVENT_MAX_WAIT_FRAMES) ;;
       modify (set_refreshRequested true) ;;
       modify (set_width w) ;;
       modify (set_height h) ;;
       _glfmReportOrientationChangeIfNeeded ;;
       when (surfaceResizedFunc (display pd)) (emit (CbSurfaceResized w h))
     else
       (* Prefer to wait until after content rect changed, if possible *)
       modify (set_resizeEventWaitFrames (resizeEventWaitFrames pd - 1))).

(** ** Drawing one frame *)

(** The render callback; the embedder may call [glfmSwapBuffers] from it. *)
Definition call_renderFunc : M unit :=
  emit CbRender ;;
  swaps <- ask X_renderCallsSwap ;;
  when (negb (swaps =? 0)) glfmSwapBuffers.

Definition _glfmDrawFrame : M unit :=
  pd <- get ;;
  if negb (eglContextCurrent pd) then
    (* Probably a bad config (Happens on Android 2.3 emulator) *)
    ret tt
  else
    (* Check for resize (or rotate) *)
    _glfmUpdateSurfaceSizeIfNeeded false ;;
    (* Tick and draw *)
    pd <- get ;;
    when (refreshRequested pd)
      (modify (set_refreshRequested false) ;;
       when (surfaceRefreshFunc (display pd)) (emit CbSurfaceRefresh)) ;;
    pd <- get ;;
    when (renderFunc (display pd)) call_renderFunc.

(** ** Keyboard visibility *)

(** The local [const int minimumKeyboardSize = (int)(100 * platformData->scale)]
    of [_glfmUpdateKeyboardVisibility]. *)
Definition minimumKeyboardSize (pd : GLFMPlatformData) : Z :=
  int_of_double (double_mul (double_of_int 100) (scale pd)).

(** [int] arithmetic: the result reduced to 32 bits, two's complement. *)
Definition int32 (x : Z) : Z := (x + 2 ^ 31) mod 2 ^ 32 - 2 ^ 31.

(** The visible display frame comes from the Java side; when any step of
    that chain fails the function returns [defaultRect]. *)
Definition _glfmGetWindowVisibleDisplayFrame (defaultRect : ARect) : M ARect :=
  ok <- ask X_visibleDisplayFrame ;;
  if ok =? 0 then ret defaultRect
  else
    l <- ask X_visibleDisplayFrame ;;
    r <- ask X_visibleDisplayFrame ;;
    t <- ask X_visibleDisplayFrame ;;
    b <- ask X_visibleDisplayFrame ;;
    ret (mkRect l t r b).

(** [nonVisibleRect[4]]: left, right, top and bottom band. *)
Definition nonVisibleRect (windowRect visibleRect : ARect) : list ARect :=
  [ mkRect (left windowRect) (top windowRect) (left visibleRect) (bottom windowRect);
    mkRect (right visibleRect) (top windowRect) (right windowRect) (bottom windowRect);
    mkRect (left windowRect) (top windowRect) (right windowRect) (top visibleRect);
    mkRect (left windowRect) (bottom visibleRect) (right windowRect) (bottom windowRect) ].

Definition rect_w (r : ARect) : Z := int32 (right r - left r).

Definition rect_h (r : ARect) : Z := int32 (bottom r - top r).

Definition rect_area (r : ARect) : Z := int32 (rect_w r * rect_h r).

(** The loop [for (int i = 0; i < 4; i++)] over the bands from index [i]
    on, carrying [largestIndex] and [largestArea]. *)
Fixpoint largest_band (minimumKeyboardSize : Z) (rects : list ARect) (i : nat)
         (largest : nat * Z) : nat * Z :=
  match rects with
  | [] => largest
  | r :: rest =>
      let w := rect_w r in
      let h := rect_h r in
      let area := rect_area r in
      largest_band minimumKeyboardSize rest (S i)
        (if (minimumKeyboardSize <=? w) && (minimumKeyboardSize <=? h) && (snd largest <? area)
         then (i, area) else largest)
  end.

Definition zeroRect : ARect := mkRect 0 0 0 0.

(** What [_glfmUpdateKeyboardVisibility] computes before it compares with
    the stored values: [keyboardVisible] and [keyboardFrame]. *)
Definition keyboard_heuristic (minimumKeyboardSize : Z) (windowRect visibleRect : ARect)
  : bool * ARect :=
  let rects := nonVisibleRect windowRect visibleRect in
  let '(largestIndex, largestArea) := largest_band minimumKeyboardSize rects 0 (0%nat, -1) in
  let keyboardVisible := 0 <? largestArea in
  (keyboardVisible, if keyboardVisible then nth largestIndex rects zeroRect else zeroRect).

Definition _glfmUpdateKeyboardVisibility : M unit :=
  pd <- get ;;
  let windowRect := contentRect (app pd) in
  visibleRect <- _glfmGetWindowVisibleDisplayFrame windowRect ;;
  let '(visible, frame) :=
    keyboard_heuristic (minimumKeyboardSize pd) windowRect visibleRect in
  (* Send update notification *)
  when (negb (Bool.eqb (keyboardVisible pd) visible) ||
        negb (ARectsEqual (keyboardFrame pd) frame))
    (modify (set_keyboardVisible visible) ;;
     modify (set_keyboardFrame frame) ;;
     modify (set_refreshRequested true) ;;
     when (keyboardVisibilityChangedFunc (display pd))
       (emit (CbKeyboardVisibilityChanged visible (left frame) (top frame)
                (int32 (right frame - left frame)) (int32 (bottom frame - top frame))))).

(** ** Sensors *)

Fixpoint list_set {A} (i : nat) (v : A) (l : list A) : list A :=
  match l, i with
  | [], _ => []
  | _ :: t, O => v :: t
  | x :: t, S j => x :: list_set j v t
  end.

(** The body of the loop of [_glfmSetAllRequestedSensorsEnabled] for sensor [i]. *)
Definition set_sensor_enabled (enabledGlobally : bool) (i : nat) : M unit :=
  deviceSensor <- ask X_getDefaultSensor ;;
  pd <- get ;;
  let isNeededEnabled := nth i (sensorFuncs (display pd)) false in
  let shouldEnable := enabledGlobally && isNeededEnabled in
  let isEnabled := nth i (deviceSensorEnabled pd) false in
  when (negb shouldEnable)
    (modify (fun pd => set_sensorEventValid (list_set i false (sensorEventValid pd)) pd)) ;;
  if Bool.eqb isEnabled shouldEnable || (deviceSensor =? 0) then ret tt
  else
    haveQueue <-
      (if sensorEventQueue pd then ret true
       else q <- ask X_createEventQueue ;;
            emit (Sensor_createEventQueue (negb (q =? 0))) ;;
            modify (set_sensorEventQueue (negb (q =? 0))) ;;
            ret (negb (q =? 0))) ;;
    if negb haveQueue then ret tt
    else if shouldEnable && negb isEnabled then
      r <- ask X_enableSensor ;;
      emit (Sensor_enable i (r =? 0)) ;;
      when (r =? 0)
        (minDelay <- ask X_getMinDelay ;;
         when (0 <? minDelay)
           (emit (Sensor_setEventRate i
                    (if SENSOR_UPDATE_INTERVAL_MICROS <? minDelay
                     then minDelay else SENSOR_UPDATE_INTERVAL_MICROS))) ;;
         modify (fun pd => set_deviceSensorEnabled
                             (list_set i true (deviceSensorEnabled pd)) pd))
    else if negb shouldEnable && isEnabled then
      r <- ask X_disableSensor ;;
      emit (Sensor_disable i (r =? 0)) ;;
      when (r =? 0)
        (modify (fun pd => set_deviceSensorEnabled
                             (list_set i false (deviceSensorEnabled pd)) pd))
    else ret tt.

Fixpoint for_each (l : list nat) (body : nat -> M unit) : M unit :=
  match l with
  | [] => ret tt
  | i :: rest => body i ;; for_each rest body
  end.

Definition _glfmSetAllRequestedSensorsEnabled (enabledGlobally : bool) : M unit :=
  for_each (seq 0 GLFM_NUM_SENSORS) (set_sensor_enabled enabledGlobally).

(** ** App command callback *)

Definition _glfmSetAnimating (animating' : bool) : M unit :=
  pd <- get ;;
  when (negb (Bool.eqb (animating pd) animating'))
    (modify (set_animating animating') ;;
     modify (set_refreshRequested true) ;;
     (if negb (hasInited pd) && animating' then
        modify (set_hasInited true)
      else
        when (focusFunc (display pd)) (emit (CbFocus animating'))) ;;
     _glfmSetAllRequestedSensorsEnabled animating').

(** [_glfmSetFullScreen] and [_glfmResetContentRect] only call into the
    Java side. *)
Definition _glfmSetFullScreen (uiChrome' : GLFMUserInterfaceChrome) : M unit :=
  emit (Jni_setFullScreen uiChrome').

Definition _glfmResetContentRect : M unit := emit Jni_resetContentRect.

Definition _glfmOnAppCmd (cmd : Z) : M unit :=
  if cmd =? APP_CMD_SAVE_STATE then ret tt
  else if cmd =? APP_CMD_INIT_WINDOW then
    success <- _glfmEGLInit ;;
    when (negb success) _glfmEGLCheckError ;;
    modify (set_refreshRequested true) ;;
    _glfmDrawFrame
  else if cmd =? APP_CMD_WINDOW_RESIZED then ret tt
  else if cmd =? APP_CMD_TERM_WINDOW then
    _glfmEGLSurfaceDestroy ;;
    _glfmSetAnimating false
  else if cmd =? APP_CMD_WINDOW_REDRAW_NEEDED then
    modify (set_refreshRequested true)
  else if cmd =? APP_CMD_GAINED_FOCUS then
    _glfmSetAnimating true
  else if cmd =? APP_CMD_LOST_FOCUS then
    pd <- get ;;
    when (animating pd)
      (modify (set_refreshRequested true) ;;
       _glfmDrawFrame ;;
       _glfmSetAnimating false)
  else if cmd =? APP_CMD_CONTENT_RECT_CHANGED then
    modify (set_refreshRequested true) ;;
    modify (fun pd => set_app (mkApp (pendingContentRect (app pd))
                                     (pendingContentRect (app pd))) pd) ;;
    _glfmResetContentRect ;;
    _glfmUpdateSurfaceSizeIfNeeded true ;;
    _glfmReportOrientationChangeIfNeeded ;;
    _glfmUpdateKeyboardVisibility
  else if cmd =? APP_CMD_LOW_MEMORY then
    pd <- get ;;
    when (lowMemoryFunc (display pd)) (emit CbLowMemory)
  else if cmd =? APP_CMD_START then
    pd <- get ;;
    _glfmSetFullScreen (uiChrome (display pd))
  else if cmd =? APP_CMD_RESUME then ret tt
  else if cmd =? APP_CMD_PAUSE then ret tt
  else if cmd =? APP_CMD_STOP then ret tt
  else if cmd =? APP_CMD_DESTROY then
    _glfmEGLDestroy
  else
    (* Do nothing *)
    ret tt.

(** The event thread's side of the content-rect rendezvous: it stores the
    pending rectangle, then posts the command. *)
Definition _glfmSetContentRect (rect : ARect) : M unit :=
  modify (fun pd => set_app (mkApp (contentRect (app pd)) rect) pd).

(** ** Key and touch input callback *)

(** A [char] is kept as the value of its byte. *)
Definition to_char (x : Z) : Z := x mod 256.

(** The [static char utf8[5]] of [_glfmUnicodeToUTF8], as far as the call
    writes it: the bytes and the terminating NUL. *)
Definition _glfmUnicodeToUTF8 (unicode : Z) : list Z :=
  if unicode <? 0x80 then
    [ to_char (Z.land unicode 0x7f); 0 ]
  else if unicode <? 0x800 then
    [ to_char (Z.lor 0xc0 (Z.shiftr unicode 6));
      to_char (Z.lor 0x80 (Z.land unicode 0x3f)); 0 ]
  else if unicode <? 0x10000 then
    [ to_char (Z.lor 0xe0 (Z.shiftr unicode 12));
      to_char (Z.lor 0x80 (Z.land (Z.shiftr unicode 6) 0x3f));
      to_char (Z.lor 0x80 (Z.land unicode 0x3f)); 0 ]
  else if unicode <? 0x110000 then
    [ to_char (Z.lor 0xf0 (Z.shiftr unicode 18));
      to_char (Z.lor 0x80 (Z.land (Z.shiftr unicode 12) 0x3f));
      to_char (Z.lor 0x80 (Z.land (Z.shiftr unicode 6) 0x3f));
      to_char (Z.lor 0x80 (Z.land unicode 0x3f)); 0 ]
  else
    [ 0 ].

(** The string a [const char *] denotes: the bytes before the first NUL. *)
Fixpoint c_string (buf : list Z) : list Z :=
  match buf with
  | [] => []
  | b :: rest => if b =? 0 then [] else b :: c_string rest
  end.

(** The accessors of an [AInputEvent].  Coordinates are floats the code
    only passes on; they are kept as opaque numbers. *)
Record AInputEvent : Type := mkInputEvent {
  AInputEvent_getType : Z;
  AKeyEvent_getKeyCode : Z;
  AKeyEvent_getAction : Z;
  AKeyEvent_getRepeatCount : Z;
  AMotionEvent_getAction : Z;
  AMotionEvent_getPointerCount : nat;
  AMotionEvent_getPointerId : nat -> Z;
  AMotionEvent_getX : nat -> Z;
  AMotionEvent_getY : nat -> Z
}.

Definition uint32 (x : Z) : Z := x mod 2 ^ 32.

Definition _glfmGetUnicodeChar : M Z :=
  unicodeKey <- ask X_getUnicodeChar ;;
  ret (uint32 unicodeKey).

(** The macro [_glfmWasJavaExceptionThrown]: [ExceptionCheck], and the
    exception is cleared when there is one. *)
Definition _glfmWasJavaExceptionThrown : M bool :=
  thrown <- ask X_ExceptionCheck ;;
  ret (negb (thrown =? 0)).

Definition _glfmHandleBackButton : M bool :=
  pending <- ask X_ExceptionCheck ;;
  if negb (pending =? 0) then ret false
  else
    emit Jni_moveTaskToBack ;;
    handled <- ask X_moveTaskToBack ;;
    thrown <- _glfmWasJavaExceptionThrown ;;
    ret (negb thrown && negb (handled =? 0)).

(** The key callback returns a [bool]. *)
Definition call_keyFunc (key : GLFMKey) (action : GLFMKeyAction) : M Z :=
  emit (CbKey key action) ;;
  r <- ask X_keyFunc ;;
  ret (if r =? 0 then 0 else 1).

Definition key_of_keycode (aKeyCode : Z) : GLFMKey :=
  if aKeyCode =? AKEYCODE_DPAD_LEFT then GLFMKeyLeft
  else if aKeyCode =? AKEYCODE_DPAD_RIGHT then GLFMKeyRight
  else if aKeyCode =? AKEYCODE_DPAD_UP then GLFMKeyUp
  else if aKeyCode =? AKEYCODE_DPAD_DOWN then GLFMKeyDown
  else if (aKeyCode =? AKEYCODE_ENTER) || (aKeyCode =? AKEYCODE_DPAD_CENTER) then GLFMKeyEnter
  else if aKeyCode =? AKEYCODE_TAB then GLFMKeyTab
  else if aKeyCode =? AKEYCODE_SPACE then GLFMKeySpace
  else if aKeyCode =? AKEYCODE_BACK then GLFMKeyNavBack
  else if aKeyCode =? AKEYCODE_MENU then GLFMKeyNavMenu
  else if (AKEYCODE_0 <=? aKeyCode) && (aKeyCode <=? AKEYCODE_9)
  then GLFMKeyCode (aKeyCode - AKEYCODE_0 + 48)
  else if (AKEYCODE_A <=? aKeyCode) && (aKeyCode <=? AKEYCODE_Z)
  then GLFMKeyCode (aKeyCode - AKEYCODE_A + 65)
  else GLFMKeyCode 0.

(** [for (i = count; i > 0; i--)] with a body that updates [handled]. *)
Fixpoint repeat_handled (n : nat) (body : Z -> M Z) (handled : Z) : M Z :=
  match n with
  | O => ret handled
  | S n' => h <- body handled ;; repeat_handled n' body h
  end.

Fixpoint repeat_unit (n : nat) (body : M unit) : M unit :=
  match n with
  | O => ret tt
  | S n' => body ;; repeat_unit n' body
  end.

(** The first block of the key branch: the key callback. *)
Definition key_path (event : AInputEvent) : M Z :=
  pd <- get ;;
  if keyFunc (display pd) then
    let aKeyCode := AKeyEvent_getKeyCode event in
    let aAction := AKeyEvent_getAction event in
    if negb (aKeyCode =? 0) then
      let key := key_of_keycode aKeyCode in
      if negb (key_is_zero key) then
        if aAction =? AKEY_EVENT_ACTION_UP then
          handled <- call_keyFunc key GLFMKeyActionReleased ;;
          if (handled =? 0) && (aKeyCode =? AKEYCODE_BACK) then
            b <- _glfmHandleBackButton ;;
            ret (if b then 1 else 0)
          else ret handled
        else if aAction =? AKEY_EVENT_ACTION_DOWN then
          call_keyFunc key (if 0 <? AKeyEvent_getRepeatCount event
                            then GLFMKeyActionRepeated else GLFMKeyActionPressed)
        else if aAction =? AKEY_EVENT_ACTION_MULTIPLE then
          repeat_handled (Z.to_nat (AKeyEvent_getRepeatCount event))
            (fun handled =>
               h1 <- call_keyFunc key GLFMKeyActionPressed ;;
               h2 <- call_keyFunc key GLFMKeyActionReleased ;;
               ret (Z.lor (Z.lor handled h1) h2))
            0
        else ret 0
      else ret 0
    else ret 0
  else ret 0.

(** The second block of the key branch: the character callback. *)
Definition char_path (event : AInputEvent) : M unit :=
  pd <- get ;;
  when (charFunc (display pd))
    (let aAction := AKeyEvent_getAction event in
     when ((aAction =? AKEY_EVENT_ACTION_DOWN) || (aAction =? AKEY_EVENT_ACTION_MULTIPLE))
       (unicode <- _glfmGetUnicodeChar ;;
        when (32 <=? unicode)
          (let str := c_string (_glfmUnicodeToUTF8 unicode) in
           if aAction =? AKEY_EVENT_ACTION_DOWN then
             emit (CbChar str)
           else
             repeat_unit (Z.to_nat (AKeyEvent_getRepeatCount event)) (emit (CbChar str))))).

(** The [switch (maskedAction)]: the phase, or nothing for an action that
    is not valid. *)
Definition phase_of_action (maskedAction : Z) : option GLFMTouchPhase :=
  if (maskedAction =? AMOTION_EVENT_ACTION_DOWN) ||
     (maskedAction =? AMOTION_EVENT_ACTION_POINTER_DOWN) then Some GLFMTouchPhaseBegan
  else if (maskedAction =? AMOTION_EVENT_ACTION_UP) ||
          (maskedAction =? AMOTION_EVENT_ACTION_POINTER_UP) ||
          (maskedAction =? AMOTION_EVENT_ACTION_OUTSIDE) then Some GLFMTouchPhaseEnded
  else if maskedAction =? AMOTION_EVENT_ACTION_MOVE then Some GLFMTouchPhaseMoved
  else if maskedAction =? AMOTION_EVENT_ACTION_CANCEL then Some GLFMTouchPhaseCancelled
  else None.

(** One pointer of a motion event: the range check and the callback. *)
Definition touch_pointer (event : AInputEvent) (maxTouches : Z) (phase : GLFMTouchPhase)
           (index : nat) : M unit :=
  let touchNumber := AMotionEvent_getPointerId event index in
  when ((0 <=? touchNumber) && (touchNumber <? maxTouches))
    (emit (CbTouch touchNumber phase (AMotionEvent_getX event index)
                   (AMotionEvent_getY event index))).

Definition touch_path (event : AInputEvent) : M unit :=
  pd <- get ;;
  when (touchFunc (display pd))
    (let maxTouches := if multitouchEnabled pd then MAX_SIMULTANEOUS_TOUCHES else 1 in
     let action := AMotionEvent_getAction event in
     let maskedAction := Z.land (uint32 action) AMOTION_EVENT_ACTION_MASK in
     match phase_of_action maskedAction with
     | None => ret tt
     | Some GLFMTouchPhaseMoved =>
         for_each (seq 0 (AMotionEvent_getPointerCount event))
                  (touch_pointer event maxTouches GLFMTouchPhaseMoved)
     | Some phase =>
         let index :=
           Z.to_nat (Z.shiftr (Z.land (uint32 action) AMOTION_EVENT_ACTION_POINTER_INDEX_MASK)
                              AMOTION_EVENT_ACTION_POINTER_INDEX_SHIFT) in
         touch_pointer event maxTouches phase index
     end).

Definition _glfmOnInputEvent (event : AInputEvent) : M Z :=
  let eventType := AInputEvent_getType event in
  if eventType =? AINPUT_EVENT_TYPE_KEY then
    handled <- key_path event ;;
    char_path event ;;
    ret handled
  else if eventType =? AINPUT_EVENT_TYPE_MOTION then
    touch_path event ;;
    ret 1
  else ret 0.

Definition glfmSetMultitouchEnabled (multitouchEnabled' : bool) : M unit :=
  modify (set_multitouchEnabled multitouchEnabled').

(** ** Refresh rate *)

(** A [float] as far as the comparison with zero sees it: not a number,
    an infinity, or the finite value [m * 2^e]. *)
Inductive float_val : Type :=
| FNaN
| FInf (negative : bool)
| FFinite (m e : Z).

(** [x <= 0] on floats; false when [x] is not a number. *)
Definition float_le_zero (x : float_val) : bool :=
  match x with
  | FNaN => false
  | FInf negative => negative
  | FFinite m _ => m <=? 0
  end.


Definition float_60 : float_val := FFinite 60 0.

(** What the Java side answers to the calls of [_glfmGetRefreshRate]: for
    each object whether it was obtained (not null, no exception), the
    rate, and whether the last call threw. *)
Record RefreshQuery : Type := mkRefreshQuery {
  rq_window : bool;
  rq_windowManager : bool;
  rq_windowDisplay : bool;
  rq_refreshRate : float_val;
  rq_exceptionThrown : bool
}.

(** The function reads the JNI environment and the activity out of the
    platform data and writes nothing to it. *)
Definition _glfmGetRefreshRate (pd : GLFMPlatformData) (q : RefreshQuery) : float_val :=
  if negb (rq_window q) then float_60
  else if negb (rq_windowManager q) then float_60
  else if negb (rq_windowDisplay q) then float_60
  else if rq_exceptionThrown q || float_le_zero (rq_refreshRate q) then float_60
  else rq_refreshRate q.

(** ** Main loop *)

(** The drawing part of one round of the loop of [android_main].  The
    result is the refresh rate the pacing code asks for, when it does. *)
Definition main_loop_frame (q : RefreshQuery) : M (option float_val) :=
  pd <- get ;;
  if animating pd then
    modify (set_swapCalled false) ;;
    _glfmDrawFrame ;;
    pd <- get ;;
    if negb (swapCalled pd) then ret (Some (_glfmGetRefreshRate pd q))
    else ret None
  else ret None.

(** The branch [app->destroyRequested != 0]. *)
Definition main_loop_destroy : M unit :=
  pd <- get ;;
  when (sensorEventQueue pd)
    (_glfmSetAllRequestedSensorsEnabled false ;;
     modify (set_sensorEventQueue false)) ;;
  _glfmEGLDestroy ;;
  _glfmSetAnimating false.

(** What can happen to the platform layer, one step at a time. *)
Inductive Step : Type :=
| StepCmd (cmd : Z)
| StepContentRect (rect : ARect)
| StepInput (event : AInputEvent)
| StepFrame (q : RefreshQuery)
| StepSetMultitouch (enabled : bool)
| StepDestroyRequested.

Definition step (st : Step) : M unit :=
  match st with
  | StepCmd cmd => _glfmOnAppCmd cmd
  | StepContentRect rect =>
      _glfmSetContentRect rect ;; _glfmOnAppCmd APP_CMD_CONTENT_RECT_CHANGED
  | StepInput event => _ <- _glfmOnInputEvent event ;; ret tt
  | StepFrame q => _ <- main_loop_frame q ;; ret tt
  | StepSetMultitouch enabled => glfmSetMultitouchEnabled enabled
  | StepDestroyRequested => main_loop_destroy
  end.

Fixpoint run (steps : list Step) : M unit :=
  match steps with
  | [] => ret tt
  | st :: rest => step st ;; run rest
  end.

Definition process_commands (cmds : list Z) : M unit := run (map StepCmd cmds).

(** The display scale [android_main] computes from the density of the
    configuration: 1.0 for the values that stand for no density
    ([ACONFIGURATION_DENSITY_DEFAULT], [_NONE], [_ANY]) and for a density
    that is not positive, and [density / 160.0] otherwise. *)
Definition display_scale (density : Z) : double :=
  if (density =? 0) || (density =? 0xffff) || (density =? 0xfffe) || (density <=? 0)
  then double_of_int 1
  else double_div (double_of_int density) (double_of_int 160).

(** The scale at density 160: 1.0, a minimum keyboard size of 100 pixels. *)
Definition scale_mdpi : double := Eval vm_compute in display_scale 160.

(** The platform data as [android_main] leaves it on first entry, before
    the loop: zeroed by [calloc], then [refreshRequested], the scale, the
    resize counter and the orientation set.  The display is what
    [glfmMain] has registered. *)
Definition initial_platform (d : GLFMDisplay) (scale0 : double)
           (o : GLFMInterfaceOrientation) : GLFMPlatformData :=
  {| app := mkApp zeroRect zeroRect;
     multitouchEnabled := false;
     keyboardFrame := zeroRect;
     keyboardVisible := false;
     animating := false;
     hasInited := false;
     refreshRequested := true;
     swapCalled := false;
     eglDisplay := EGL_NO_DISPLAY;
     eglSurface := EGL_NO_SURFACE;
     eglContext := EGL_NO_CONTEXT;
     eglContextCurrent := false;
     width := 0;
     height := 0;
     scale := scale0;
     resizeEventWaitFrames := RESIZE_EVENT_MAX_WAIT_FRAMES;
     display := d;
     renderingAPI := GLFMRenderingAPIOpenGLES2;
     sensorEventQueue := false;
     sensorEventValid := [false; false; false; false];
     deviceSensorEnabled := [false; false; false; false];
     orientation := o |}.

Definition initial_sys (d : GLFMDisplay) (scale0 : double)
           (o : GLFMInterfaceOrientation) (e : Env) : Sys :=
  mkSys (initial_platform d scale0 o) e [].

(** A display with every callback registered. *)
Definition full_display : GLFMDisplay :=
  {| surfaceCreatedFunc := true; surfaceDestroyedFunc := true;
     surfaceResizedFunc := true; surfaceRefreshFunc := true;
     renderFunc := true; focusFunc := true; lowMemoryFunc := true;
     orientationChangedFunc := true; keyboardVisibilityChangedFunc := true;
     keyFunc := true; charFunc := true; touchFunc := true;
     sensorFuncs := [true; true; true; true];
     preferredAPI := GLFMRenderingAPIOpenGLES2;
     colorFormat := GLFMColorFormatRGBA8888;
     depthFormat := GLFMDepthFormatNone;
     stencilFormat := GLFMStencilFormatNone;
     multisample := GLFMMultisampleNone;
     swapBehavior := GLFMSwapBehaviorPlatformDefault;
     uiChrome := GLFMUserInterfaceChromeNavigation |}.

(** ** The sensor events of one looper wake-up

    The branch [eventIdentifier == LOOPER_ID_SENSOR_EVENT_QUEUE] of
    [android_main].  The raw events and the samples are records of floats;
    their conversion is a parameter, and so are the enumerators of
    [GLFMSensor], which glfm.h declares. *)

(* android/sensor.h *)
Definition ASENSOR_TYPE_ACCELEROMETER : Z := 1.

Definition ASENSOR_TYPE_MAGNETIC_FIELD : Z := 2.

Definition ASENSOR_TYPE_GYROSCOPE : Z := 4.

Definition ASENSOR_TYPE_ROTATION_VECTOR : Z := 11.

Module SensorQueue.

Section Batch.

Variable ASensorEvent : Type.

(** [event.type] *)
Variable event_type : ASensorEvent -> Z.

Variable GLFMSensorEvent : Type.

(** What the branch for sensor [i] stores into [sensorEvent[i]]. *)
Variable convert : nat -> ASensorEvent -> GLFMSensorEvent.

Variables GLFMSensorAccelerometer GLFMSensorMagnetometer GLFMSensorGyroscope
          GLFMSensorRotationMatrix : nat.

(** The [if]-chain on [event.type]: the sensor whose branch is taken. *)
Definition sensor_of_type (t : Z) : option nat :=
  if t =? ASENSOR_TYPE_ACCELEROMETER then Some GLFMSensorAccelerometer
  else if t =? ASENSOR_TYPE_MAGNETIC_FIELD then Some GLFMSensorMagnetometer
  else if t =? ASENSOR_TYPE_GYROSCOPE then Some GLFMSensorGyroscope
  else if t =? ASENSOR_TYPE_ROTATION_VECTOR then Some GLFMSensorRotationMatrix
  else None.

(** [sensorEvent], [sensorEventValid] and the local [sensorEventReceived]. *)
Record Slots : Type := mkSlots {
  sensorEvent : list GLFMSensorEvent;
  sensorEventValid : list bool;
  sensorEventReceived : list bool
}.

(** The body of the [while] loop for one event. *)
Definition store_event (event : ASensorEvent) (st : Slots) : Slots :=
  match sensor_of_type (event_type event) with
  | Some i =>
      {| sensorEvent := list_set i (convert i event) (sensorEvent st);
         sensorEventValid := list_set i true (sensorEventValid st);
         sensorEventReceived := list_set i true (sensorEventReceived st) |}
  | None => st
  end.

(** The [while] loop over the events [ASensorEventQueue_getEvents] hands
    out, one at a time. *)
Fixpoint get_events (events : list ASensorEvent) (st : Slots) : Slots :=
  match events with
  | [] => st
  | event :: rest => get_events rest (store_event event st)
  end.

(** The [for] loop that sends the callbacks: the sensor and the sample of
    each call, in the order made. *)
Definition send_callbacks (sensorFuncs : list bool) (zero : GLFMSensorEvent) (st : Slots)
  : list (nat * GLFMSensorEvent) :=
  flat_map (fun i =>
              if nth i sensorFuncs false && nth i (sensorEventReceived st) false
              then [(i, nth i (sensorEvent st) zero)] else [])
           (seq 0 GLFM_NUM_SENSORS).

(** The whole branch: [sensorEventReceived] starts cleared. *)
Definition sensor_wakeup (sensorFuncs : list bool) (zero : GLFMSensorEvent)
           (events : list ASensorEvent)
           (samples : list GLFMSensorEvent) (valid : list bool)
  : list (nat * GLFMSensorEvent) * (list GLFMSensorEvent * list bool) :=
  let st := get_events events (mkSlots samples valid (repeat false GLFM_NUM_SENSORS)) in
  (send_callbacks sensorFuncs zero st, (sensorEvent st, sensorEventValid st)).

(** The last event of the batch that belongs to sensor [i]. *)
Fixpoint latest (i : nat) (events : list ASensorEvent) (found : option ASensorEvent)
  : option ASensorEvent :=
  match events with
  | [] => found
  | event :: rest =>
      latest i rest
        (match sensor_of_type (event_type event) with
         | Some j => if Nat.eqb i j then Some event else found
         | None => found
         end)
  end.

End Batch.

End SensorQueue.

(** * Vocabulary of the statements *)

(** ** Frames

    Most properties below need to know what a piece of code leaves alone.
    [framed view keep P m] says that running [m] keeps [view] of the
    platform data, does not read the tapes selected by [keep], and appends
    to the log only events accepted by [P]. *)

Definition frame {V : Type} (view : GLFMPlatformData -> V) (keep : ExtCall -> bool)
           (P : Event -> bool) (s s' : Sys) : Prop :=
  view (plat s') = view (plat s) /\
  (forall c, keep c = true -> env s' c = env s c) /\
  exists l, log s' = log s ++ l /\ forallb P l = true.

Definition framed {V : Type} (view : GLFMPlatformData -> V) (keep : ExtCall -> bool)
           (P : Event -> bool) {A} (m : M A) : Prop :=
  forall s, frame view keep P s (exec m s).

(** The platform data without the fields the EGL code writes. *)
Definition non_egl_part (pd : GLFMPlatformData) : GLFMPlatformData :=
  set_eglDisplay 0 (set_eglSurface 0 (set_eglContext 0 (set_eglContextCurrent false
    (set_width 0 (set_height 0 (set_renderingAPI GLFMRenderingAPIOpenGLES2
      (set_swapCalled false pd))))))).

Definition is_egl_call (c : ExtCall) : bool :=
  match c with
  | X_eglGetDisplay | X_eglChooseConfig | X_eglCreateWindowSurface
  | X_eglCreateContext | X_eglQueryContextMajor | X_eglQueryContextMinor
  | X_eglMakeCurrent | X_eglGetError | X_eglQuerySurfaceWidth
  | X_eglQuerySurfaceHeight | X_eglSwapBuffers | X_renderCallsSwap => true
  | _ => false
  end.

Definition is_egl_event (e : Event) : bool :=
  match e with
  | CbSurfaceCreated _ _ | CbSurfaceDestroyed | CbRender
  | Egl_Initialize _ | Egl_CreateContext _ _ _ | Egl_DestroyContext _
  | Egl_BindContext _ _ _ | Egl_UnbindContext | Egl_CreateWindowSurface _
  | Egl_DestroySurface _ | Egl_Terminate | Egl_SwapBuffers _
  | Glfm_reportSurfaceError => true
  | _ => false
  end.

(** [view], [keep] and [P] do not see what the EGL code does. *)
Definition egl_transparent {V : Type} (view : GLFMPlatformData -> V)
           (keep : ExtCall -> bool) (P : Event -> bool) : Prop :=
  (forall pd pd', non_egl_part pd = non_egl_part pd' -> view pd = view pd') /\
  (forall c, is_egl_call c = true -> keep c = false) /\
  (forall e, is_egl_event e = true -> P e = true).

(** ** The animating flag *)

(** The part of the platform data that decides the focus callbacks. *)
Definition focus_view (pd : GLFMPlatformData) : bool * bool * GLFMDisplay :=
  (animating pd, hasInited pd, display pd).

Definition not_focus (e : Event) : bool :=
  match e with CbFocus _ => false | _ => true end.

Definition keep_none (c : ExtCall) : bool := false.

Definition focus_events (l : list Event) : list Event :=
  filter (fun e => negb (not_focus e)) l.

(** Everything except [_glfmSetAnimating] leaves the flag, [hasInited]
    and the focus callback alone. *)
Definition focus_neutral {A} (m : M A) : Prop := framed focus_view keep_none not_focus m.

(** What one step does to the flag and to the focus callback: the flag
    either stays, and no focus callback is made, or it changes, and the
    callback is made once with the new value unless [hasInited] was unset. *)
Definition focus_step (s s' : Sys) : Prop :=
  display (plat s') = display (plat s) /\
  hasInited (plat s') =
    (if Bool.eqb (animating (plat s')) (animating (plat s)) then hasInited (plat s)
     else hasInited (plat s) || animating (plat s')) /\
  exists l, log s' = log s ++ l /\
    focus_events l =
      if Bool.eqb (animating (plat s')) (animating (plat s)) then []
      else if negb (hasInited (plat s)) && animating (plat s') then []
      else if focusFunc (display (plat s)) then [CbFocus (animating (plat s'))]
      else [].

(** [hasInited] is set by the first change of the flag, which is a change
    to true; so an unset [hasInited] tells that the flag never changed. *)
Definition inited_inv (s : Sys) : Prop :=
  hasInited (plat s) = false -> animating (plat s) = false.

(** The value of the flag after each step of a run. *)
Fixpoint trajectory (steps : list Step) (s : Sys) : list bool :=
  match steps with
  | [] => []
  | st :: rest =>
      let s' := exec (step st) s in
      animating (plat s') :: trajectory rest s'
  end.

(** The values a flag takes each time it changes, starting from [cur]. *)
Fixpoint flag_changes (cur : bool) (l : list bool) : list bool :=
  match l with
  | [] => []
  | b :: rest =>
      if Bool.eqb b cur then flag_changes cur rest else b :: flag_changes b rest
  end.

(** The environment in which every tape is empty. *)
Definition env_empty : Env := fun _ => [].

(** ** Focus held *)

(** Whether focus is held after a sequence of commands: the last of the
    commands gained-focus, lost-focus and window-terminated decides. *)
Fixpoint focus_held (cur : bool) (cmds : list Z) : bool :=
  match cmds with
  | [] => cur
  | cmd :: rest =>
      focus_held
        (if cmd =? APP_CMD_GAINED_FOCUS then true
         else if (cmd =? APP_CMD_LOST_FOCUS) || (cmd =? APP_CMD_TERM_WINDOW) then false
         else cur)
        rest
  end.

(** The same over the steps of the main loop.  The branch taken when a
    destroy has been requested, which follows the destroy command in the
    same round of the loop, gives focus up; no other step has a say. *)
Definition focus_after_step (cur : bool) (st : Step) : bool :=
  match st with
  | StepCmd cmd => focus_held cur [cmd]
  | StepDestroyRequested => false
  | _ => cur
  end.

Definition focus_after (cur : bool) (steps : list Step) : bool :=
  fold_left focus_after_step steps cur.

(** One round of the loop for a command.  The native-app glue sets
    [destroyRequested] when it takes [APP_CMD_DESTROY] off the queue, so
    the round that processes this command goes on into the destroy
    branch. *)
Definition command_round (cmd : Z) : list Step :=
  if cmd =? APP_CMD_DESTROY then [StepCmd cmd; StepDestroyRequested] else [StepCmd cmd].

Definition command_rounds (cmds : list Z) : list Step := flat_map command_round cmds.

(** Focus held after the rounds of a sequence of commands: the last of the
    commands gained-focus, lost-focus, window-terminated and destroy
    decides. *)
Fixpoint focus_held_rounds (cur : bool) (cmds : list Z) : bool :=
  match cmds with
  | [] => cur
  | cmd :: rest =>
      focus_held_rounds
        (if cmd =? APP_CMD_GAINED_FOCUS then true
         else if (cmd =? APP_CMD_LOST_FOCUS) || (cmd =? APP_CMD_TERM_WINDOW) ||
                 (cmd =? APP_CMD_DESTROY) then false
         else cur)
        rest
  end.

(** Views and event filters used with [framed]. *)
Definition animating_view (pd : GLFMPlatformData) : bool := animating pd.

Definition any_event (e : Event) : bool := true.

(** ** Drawing and the context-current flag *)

(** The events a piece of code has appended to the log. *)
Definition events_since (s s' : Sys) : list Event := skipn (length (log s)) (log s').

(** A state in which a context is current: window-init has succeeded. *)
Definition env_window_ok : Env := fun c =>
  match c with
  | X_eglGetDisplay => [1]
  | X_eglChooseConfig => [1]
  | X_eglCreateWindowSurface => [7]
  | X_eglCreateContext => [5]
  | X_eglMakeCurrent => [1]
  | X_eglQuerySurfaceWidth => [1080; 1080; 1080]
  | X_eglQuerySurfaceHeight => [1920; 1920; 1920]
  | _ => []
  end.

Definition sys_window_ready : Sys :=
  exec (process_commands [APP_CMD_INIT_WINDOW])
       (initial_sys full_display scale_mdpi GLFMInterfaceOrientationPortrait env_window_ok).

(** ** Code that only appends to the log *)

Definition emits {A} (m : M A) (l : list Event) : Prop :=
  forall s, exec m s = mkSys (plat s) (env s) (log s ++ l).

(** ** Touch identifiers *)

(** What one pointer of a motion event contributes to the log. *)
Definition delivered_touch (event : AInputEvent) (maxTouches : Z) (phase : GLFMTouchPhase)
           (index : nat) : list Event :=
  let touchNumber := AMotionEvent_getPointerId event index in
  if (0 <=? touchNumber) && (touchNumber <? maxTouches)
  then [CbTouch touchNumber phase (AMotionEvent_getX event index)
                (AMotionEvent_getY event index)]
  else [].

Definition touch_bounded (event : AInputEvent) (maxTouches : Z) (e : Event) : Prop :=
  exists i phase,
    e = CbTouch (AMotionEvent_getPointerId event i) phase
                (AMotionEvent_getX event i) (AMotionEvent_getY event i) /\
    0 <= AMotionEvent_getPointerId event i < maxTouches.

(** A move with three pointers, identifiers 0, 3 and 7. *)
Definition motion_event_three_pointers : AInputEvent :=
  {| AInputEvent_getType := AINPUT_EVENT_TYPE_MOTION;
     AKeyEvent_getKeyCode := 0;
     AKeyEvent_getAction := 0;
     AKeyEvent_getRepeatCount := 0;
     AMotionEvent_getAction := AMOTION_EVENT_ACTION_MOVE;
     AMotionEvent_getPointerCount := 3;
     AMotionEvent_getPointerId := fun i => match i with O => 0 | S O => 3 | _ => 7 end;
     AMotionEvent_getX := fun i => Z.of_nat i * 10;
     AMotionEvent_getY := fun i => Z.of_nat i * 20 |}.

(** The state [android_main] sets up, nothing answered yet. *)
Definition sys_idle : Sys :=
  initial_sys full_display scale_mdpi GLFMInterfaceOrientationPortrait env_empty.

(** ** The character callback and UTF-8 *)

(** UTF-8 as the standard defines it, in arithmetic: the code point is cut
    into groups of six bits below a leading byte that tells the length. *)
Definition utf8_encode (c : Z) : list Z :=
  if c <? 0x80 then [c]
  else if c <? 0x800 then [0xC0 + c / 64; 0x80 + c mod 64]
  else if c <? 0x10000 then [0xE0 + c / 4096; 0x80 + (c / 64) mod 64; 0x80 + c mod 64]
  else [0xF0 + c / 262144; 0x80 + (c / 4096) mod 64; 0x80 + (c / 64) mod 64;
        0x80 + c mod 64].

Definition is_continuation (b : Z) : bool := (0x80 <=? b) && (b <? 0xC0).

(** The standard's decoder for one encoded code point. *)
Definition utf8_decode (bytes : list Z) : option Z :=
  match bytes with
  | [b0] =>
      if (0 <=? b0) && (b0 <? 0x80) then Some b0 else None
  | [b0; b1] =>
      if (0xC0 <=? b0) && (b0 <? 0xE0) && is_continuation b1
      then Some ((b0 - 0xC0) * 64 + (b1 - 0x80)) else None
  | [b0; b1; b2] =>
      if (0xE0 <=? b0) && (b0 <? 0xF0) && is_continuation b1 && is_continuation b2
      then Some ((b0 - 0xE0) * 4096 + (b1 - 0x80) * 64 + (b2 - 0x80)) else None
  | [b0; b1; b2; b3] =>
      if (0xF0 <=? b0) && (b0 <? 0xF8) && is_continuation b1 && is_continuation b2 &&
         is_continuation b3
      then Some ((b0 - 0xF0) * 262144 + (b1 - 0x80) * 4096 + (b2 - 0x80) * 64 + (b3 - 0x80))
      else None
  | _ => None
  end.

Definition not_char (e : Event) : bool :=
  match e with CbChar _ => false | _ => true end.

Definition char_events (l : list Event) : list Event :=
  filter (fun e => negb (not_char e)) l.

Definition keep_unicode (c : ExtCall) : bool :=
  match c with X_getUnicodeChar => true | _ => false end.

Definition whole_view (pd : GLFMPlatformData) : GLFMPlatformData := pd.

(** A key-down of the A key; the lookup below answers U+1F600. *)
Definition key_down_event : AInputEvent :=
  {| AInputEvent_getType := AINPUT_EVENT_TYPE_KEY;
     AKeyEvent_getKeyCode := AKEYCODE_A;
     AKeyEvent_getAction := AKEY_EVENT_ACTION_DOWN;
     AKeyEvent_getRepeatCount := 0;
     AMotionEvent_getAction := 0;
     AMotionEvent_getPointerCount := 0;
     AMotionEvent_getPointerId := fun _ => 0;
     AMotionEvent_getX := fun _ => 0;
     AMotionEvent_getY := fun _ => 0 |}.

Definition env_grinning_face : Env := fun c =>
  match c with X_getUnicodeChar => [0x1F600] | _ => [] end.

Definition sys_grinning_face : Sys :=
  initial_sys full_display scale_mdpi GLFMInterfaceOrientationPortrait env_grinning_face.

(** ** Keyboard bands *)

(** The test of the loop: the band is at least the minimum size in both
    directions. *)
Definition band_fits (minimumKeyboardSize : Z) (r : ARect) : Prop :=
  minimumKeyboardSize <= rect_w r /\ minimumKeyboardSize <= rect_h r.

Definition band_width (r : ARect) : Z := right r - left r.

Definition band_height (r : ARect) : Z := bottom r - top r.

Definition band_area (r : ARect) : Z := band_width r * band_height r.

(** A value an [int] holds. *)
Definition fits_int (x : Z) : Prop := - 2 ^ 31 <= x < 2 ^ 31.

(** The loop of the heuristic without overflow: the width, the height and
    the area of every band are values an [int] holds.  This is where the
    C arithmetic of the loop is defined. *)
Definition band_exact (r : ARect) : Prop :=
  fits_int (band_width r) /\ fits_int (band_height r) /\ fits_int (band_area r).

Definition bands_exact (windowRect visibleRect : ARect) : Prop :=
  forall r, In r (nonVisibleRect windowRect visibleRect) -> band_exact r.

(** Rectangles of a screen: coordinates from 0 to 46340, the largest
    number whose square an [int] holds. *)
Definition screen_rect (r : ARect) : Prop :=
  0 <= left r <= 46340 /\ 0 <= top r <= 46340 /\
  0 <= right r <= 46340 /\ 0 <= bottom r <= 46340.

Definition screen_rectb (r : ARect) : bool :=
  (0 <=? left r) && (left r <=? 46340) && (0 <=? top r) && (top r <=? 46340) &&
  (0 <=? right r) && (right r <=? 46340) && (0 <=? bottom r) && (bottom r <=? 46340).

Definition no_event (e : Event) : bool := false.

(** The keyboard callback as made for [visible] and [frame]. *)
Definition keyboard_callback (visible : bool) (frame : ARect) : Event :=
  CbKeyboardVisibilityChanged visible (left frame) (top frame)
    (int32 (right frame - left frame)) (int32 (bottom frame - top frame)).

(** Window (0,0,1000,2000) with the display frame (0,0,1000,1500) visible. *)
Definition env_keyboard_shown : Env := fun c =>
  match c with
  | X_visibleDisplayFrame => [1; 0; 1000; 0; 1500]
  | _ => []
  end.

Definition sys_keyboard_shown : Sys :=
  mkSys (set_app (mkApp (mkRect 0 0 1000 2000) (mkRect 0 0 1000 2000))
                 (initial_platform full_display scale_mdpi GLFMInterfaceOrientationPortrait))
        env_keyboard_shown [].

(** ** The refresh rate query *)


Definition query_ok (rate : float_val) : RefreshQuery :=
  {| rq_window := true; rq_windowManager := true; rq_windowDisplay := true;
     rq_refreshRate := rate; rq_exceptionThrown := false |}.


(** ** The resize callback and its wait counter *)

Definition not_resized (e : Event) : bool :=
  match e with CbSurfaceResized _ _ => false | _ => true end.

Definition resized_events (l : list Event) : list Event :=
  filter (fun e => negb (not_resized e)) l.






(** The state after the two size queries. *)
Definition after_size_queries (s : Sys) : Sys :=
  exec (h <- (w <- ask X_eglQuerySurfaceWidth ;; ask X_eglQuerySurfaceHeight) ;; ret h) s.








(** A rotation: the surface is 1080 x 1920 when the window appears and
    reports 1920 x 1080 from the first frame of the loop on. *)
Definition env_rotation : Env := fun c =>
  match c with
  | X_eglGetDisplay => [1]
  | X_eglChooseConfig => [1]
  | X_eglCreateWindowSurface => [7]
  | X_eglCreateContext => [5]
  | X_eglMakeCurrent => [1]
  | X_eglQuerySurfaceWidth => [1080; 1080; 1920; 1920; 1920; 1920; 1920; 1920; 1920]
  | X_eglQuerySurfaceHeight => [1920; 1920; 1080; 1080; 1080; 1080; 1080; 1080; 1080]
  | _ => []
  end.

Definition sys_before_rotation : Sys :=
  exec (process_commands [APP_CMD_INIT_WINDOW; APP_CMD_GAINED_FOCUS])
       (initial_sys full_display scale_mdpi GLFMInterfaceOrientationPortrait env_rotation).

Definition frame_60Hz : Step := StepFrame (query_ok (FFinite 60 0)).

(** A size that comes and goes: the surface is 1080 x 1920 when the window
    appears, reports 1920 x 1080 to the first five frames of the loop,
    1080 x 1920 again to the sixth, and 1000 x 1000 from the seventh on. *)
Definition env_size_restored : Env := fun c =>
  match c with
  | X_eglGetDisplay => [1]
  | X_eglChooseConfig => [1]
  | X_eglCreateWindowSurface => [7]
  | X_eglCreateContext => [5]
  | X_eglMakeCurrent => [1]
  | X_eglQuerySurfaceWidth => [1080; 1080; 1920; 1920; 1920; 1920; 1920; 1080; 1000; 1000]
  | X_eglQuerySurfaceHeight => [1920; 1920; 1080; 1080; 1080; 1080; 1080; 1920; 1000; 1000]
  | _ => []
  end.

(** Window-init, focus, and the five frames that see 1920 x 1080. *)
Definition steps_size_restored : list Step :=
  [StepCmd APP_CMD_INIT_WINDOW; StepCmd APP_CMD_GAINED_FOCUS;
   frame_60Hz; frame_60Hz; frame_60Hz; frame_60Hz; frame_60Hz].

(** ** Surface-created, render, surface-destroyed *)

Definition is_surface_created (e : Event) : bool :=
  match e with CbSurfaceCreated _ _ => true | _ => false end.

Definition is_surface_destroyed (e : Event) : bool :=
  match e with CbSurfaceDestroyed => true | _ => false end.

Definition no_view (pd : GLFMPlatformData) : unit := tt.

(** The monitor of the surface-created callback: [fresh] tells that a
    context has been created and not yet announced.  A callback without a
    fresh context is a violation. *)
Fixpoint created_monitor (fresh : bool) (l : list Event) : option bool :=
  match l with
  | [] => Some fresh
  | Egl_CreateContext _ _ h :: r => created_monitor (negb (h =? EGL_NO_CONTEXT)) r
  | CbSurfaceCreated _ _ :: r => if fresh then created_monitor false r else None
  | _ :: r => created_monitor fresh r
  end.

Definition created_safe (l : list Event) : Prop :=
  forall fresh, created_monitor fresh l <> None.

Definition quiet_created (e : Event) : bool := negb (is_surface_created e).

Definition safe_logs {A} (m : M A) : Prop :=
  forall s, exists l, log (exec m s) = log s ++ l /\ created_safe l.

(** What the creation attempts of [_glfmEGLContextInit] leave in the log
    when they end with [created]. *)
Definition creation_post (created : bool) (l : list Event) : Prop :=
  forallb quiet_created l = true /\
  (created = true -> forall fresh, created_monitor fresh l = Some true).

(** The first bind of a new context fails with [EGL_BAD_SURFACE]; every
    later call succeeds. *)
Definition env_first_bind_fails : Env := fun c =>
  match c with
  | X_eglGetDisplay => [1]
  | X_eglChooseConfig => [1]
  | X_eglCreateWindowSurface => [7; 8; 9]
  | X_eglCreateContext => [5]
  | X_eglMakeCurrent => [0; 1]
  | X_eglGetError => [EGL_BAD_SURFACE]
  | X_eglQuerySurfaceWidth => [1080; 1080]
  | X_eglQuerySurfaceHeight => [1920; 1920]
  | _ => []
  end.

Definition sys_first_bind_failed : Sys :=
  exec (process_commands [APP_CMD_INIT_WINDOW; APP_CMD_TERM_WINDOW; APP_CMD_INIT_WINDOW])
       (initial_sys full_display scale_mdpi GLFMInterfaceOrientationPortrait env_first_bind_fails).

(** ** Invariants of the platform data *)

(** [holds I P m]: from a state whose platform data satisfy [I], running
    [m] leads to one that does, and appends to the log only events accepted
    by [P]. *)
Definition holds {A} (I : GLFMPlatformData -> Prop) (P : Event -> bool) (m : M A) : Prop :=
  forall s, I (plat s) ->
    I (plat (exec m s)) /\
    exists l, log (exec m s) = log s ++ l /\ forallb P l = true.

(** ** Drawing without a current context *)

Definition context_not_current (pd : GLFMPlatformData) : Prop :=
  eglContextCurrent pd = false.

Definition current_view (pd : GLFMPlatformData) : bool := eglContextCurrent pd.

Definition not_drawing (e : Event) : bool :=
  match e with CbRender | CbSurfaceRefresh => false | _ => true end.

Definition is_window_init (st : Step) : bool :=
  match st with StepCmd cmd => cmd =? APP_CMD_INIT_WINDOW | _ => false end.

Definition no_window_init (steps : list Step) : bool :=
  forallb (fun st => negb (is_window_init st)) steps.

(** ** Context creation, best version first *)

(** The versions [_glfmEGLContextInit] asks for under a preferred API, in
    the order it asks. *)
Definition context_versions (api : GLFMRenderingAPI) : list (Z * Z) :=
  match api with
  | GLFMRenderingAPIOpenGLES32 => [(3, 2); (3, 1); (3, 0); (2, 0)]
  | GLFMRenderingAPIOpenGLES31 => [(3, 1); (3, 0); (2, 0)]
  | GLFMRenderingAPIOpenGLES3 => [(3, 0); (2, 0)]
  | GLFMRenderingAPIOpenGLES2 => [(2, 0)]
  end.

(** Walking down [versions] with the answers of [eglCreateContext] until
    one of them is a context. *)
Fixpoint creation_attempts (versions : list (Z * Z)) (answers : list Z) : list Event :=
  match versions with
  | [] => []
  | (major, minor) :: rest =>
      let h := hd 0 answers in
      Egl_CreateContext major minor h ::
        (if h =? EGL_NO_CONTEXT then creation_attempts rest (tl answers) else [])
  end.

Definition is_context_creation (e : Event) : bool :=
  match e with Egl_CreateContext _ _ _ => true | _ => false end.

(** ** The context across the loss of the window *)

(** The events that create, destroy or announce a context or a display. *)
Definition not_context_event (e : Event) : bool :=
  match e with
  | Egl_CreateContext _ _ _ | Egl_DestroyContext _ | CbSurfaceCreated _ _
  | CbSurfaceDestroyed | Egl_Initialize _ | Egl_Terminate => false
  | _ => true
  end.

Definition context_is (dpy ctx : Z) (pd : GLFMPlatformData) : Prop :=
  eglDisplay pd = dpy /\ eglContext pd = ctx.

Definition context_view (pd : GLFMPlatformData) : Z * Z := (eglDisplay pd, eglContext pd).

(** A window that is up, with display 1, surface 7 and context 5. *)
Definition steps_without_window : list Step :=
  [StepCmd APP_CMD_TERM_WINDOW; StepCmd APP_CMD_GAINED_FOCUS; frame_60Hz;
   StepCmd APP_CMD_LOST_FOCUS].

(** ** Recovery from a lost context *)

(** The error is one that [_glfmEGLCheckError] takes for a lost context. *)
Definition context_lost_error (err : Z) : bool :=
  (err =? EGL_CONTEXT_LOST) || (err =? EGL_BAD_CONTEXT).

(** [sys_window_ready] with a swap that has just failed on a lost context;
    a new context, 6, can be created and bound. *)
Definition sys_context_lost : Sys :=
  mkSys (plat sys_window_ready)
        (fun c => match c with
                  | X_eglGetError => [EGL_CONTEXT_LOST]
                  | X_eglCreateContext => [6]
                  | X_eglMakeCurrent => [1]
                  | _ => []
                  end)
        [].

(** The context [creation_attempts] ends with: the first answer that is a
    context, or none. *)
Fixpoint created_handle (versions : list (Z * Z)) (answers : list Z) : Z :=
  match versions with
  | [] => EGL_NO_CONTEXT
  | _ :: rest =>
      let h := hd 0 answers in
      if h =? EGL_NO_CONTEXT then created_handle rest (tl answers) else h
  end.

(** What [_glfmEGLCheckError] does about a lost context before it asks
    for a new one. *)
Definition forget_context : M unit :=
  _ <- ask X_eglGetError ;;
  pd <- get ;;
  modify (set_eglContext EGL_NO_CONTEXT) ;;
  modify (set_eglContextCurrent false) ;;
  when (surfaceDestroyedFunc (display pd)) (emit CbSurfaceDestroyed).

(** ** No configuration *)

(** Every answer of [eglChooseConfig] that is left says that no
    configuration matches. *)
Definition no_config (s : Sys) : bool :=
  forallb (Z.eqb 0) (env s X_eglChooseConfig).

Definition env_no_config : Env := fun c =>
  match c with X_eglGetDisplay => [1] | _ => [] end.

(** ** Key events *)

Definition is_key_event (e : Event) : bool :=
  match e with CbKey _ _ => true | _ => false end.

Definition not_key_event (e : Event) : bool := negb (is_key_event e).

(** The key code is not zero and the [switch] gives it a key that is not
    zero: the condition under which the key callback is reached. *)
Definition key_mapped (aKeyCode : Z) : bool :=
  negb (aKeyCode =? 0) && negb (key_is_zero (key_of_keycode aKeyCode)).

Definition answered_true (r : Z) : bool := negb (r =? 0).

Definition press_release (key : GLFMKey) : list Event :=
  [CbKey key GLFMKeyActionPressed; CbKey key GLFMKeyActionReleased].

(** The body of the loop of the multiple action. *)
Definition multiple_body (key : GLFMKey) (handled : Z) : M Z :=
  h1 <- call_keyFunc key GLFMKeyActionPressed ;;
  h2 <- call_keyFunc key GLFMKeyActionReleased ;;
  ret (Z.lor (Z.lor handled h1) h2).

Definition not_back (e : Event) : bool :=
  match e with Jni_moveTaskToBack => false | _ => true end.

Definition keep_keyFunc (c : ExtCall) : bool :=
  match c with X_keyFunc => true | _ => false end.

(** The keys the key callback can be given: the named ones, and the ASCII
    codes of the digits and of the capital letters. *)
Definition deliverable_key (key : GLFMKey) : Prop :=
  match key with
  | GLFMKeyCode c => 48 <= c <= 57 \/ 65 <= c <= 90
  | _ => True
  end.

(** A key event of the given code, action and repeat count. *)
Definition key_event (aKeyCode aAction repeatCount : Z) : AInputEvent :=
  {| AInputEvent_getType := AINPUT_EVENT_TYPE_KEY;
     AKeyEvent_getKeyCode := aKeyCode;
     AKeyEvent_getAction := aAction;
     AKeyEvent_getRepeatCount := repeatCount;
     AMotionEvent_getAction := 0;
     AMotionEvent_getPointerCount := 0;
     AMotionEvent_getPointerId := fun _ => 0;
     AMotionEvent_getX := fun _ => 0;
     AMotionEvent_getY := fun _ => 0 |}.

Definition env_keyFunc (answers : list Z) : Env := fun c =>
  match c with X_keyFunc => answers | _ => [] end.

(** A back key released that the key callback declines: the case in which
    [_glfmHandleBackButton] is called. *)
Definition back_declined (event : AInputEvent) (s : Sys) : bool :=
  (AInputEvent_getType event =? AINPUT_EVENT_TYPE_KEY) &&
  keyFunc (display (plat s)) &&
  (AKeyEvent_getKeyCode event =? AKEYCODE_BACK) &&
  (AKeyEvent_getAction event =? AKEY_EVENT_ACTION_UP) &&
  (hd 0 (env s X_keyFunc) =? 0).

(** What the two exception checks of [_glfmHandleBackButton] are answered:
    an exception is pending on entry; the call itself has thrown. *)
Definition exception_pending (s : Sys) : bool :=
  negb (hd 0 (env s X_ExceptionCheck) =? 0).

Definition call_threw (s : Sys) : bool :=
  negb (hd 0 (tl (env s X_ExceptionCheck)) =? 0).

Definition GLFMKey_eqb (a b : GLFMKey) : bool :=
  match a, b with
  | GLFMKeyLeft, GLFMKeyLeft | GLFMKeyRight, GLFMKeyRight
  | GLFMKeyUp, GLFMKeyUp | GLFMKeyDown, GLFMKeyDown
  | GLFMKeyEnter, GLFMKeyEnter | GLFMKeyTab, GLFMKeyTab
  | GLFMKeySpace, GLFMKeySpace | GLFMKeyNavBack, GLFMKeyNavBack
  | GLFMKeyNavMenu, GLFMKeyNavMenu => true
  | GLFMKeyCode c, GLFMKeyCode d => c =? d
  | _, _ => false
  end.

(** The key callbacks an event may make: for the key of its code. *)
Definition key_callback_of (event : AInputEvent) (e : Event) : bool :=
  match e with
  | CbKey key _ =>
      key_mapped (AKeyEvent_getKeyCode event) &&
      GLFMKey_eqb key (key_of_keycode (AKeyEvent_getKeyCode event))
  | _ => true
  end.

(** The Unicode lookup answers a [jint] with the top bit set, the flag
    [KeyCharacterMap.COMBINING_ACCENT] of a dead key. *)
Definition env_dead_key : Env := fun c =>
  match c with X_getUnicodeChar => [0x60 - 0x80000000] | _ => [] end.

Definition env_control_key : Env := fun c =>
  match c with X_getUnicodeChar => [10] | _ => [] end.

(** ** The pointer of a touch action *)

(** A pointer-down of the pointer at index 2, whose identifier is 1. *)
Definition pointer_down_event : AInputEvent :=
  {| AInputEvent_getType := AINPUT_EVENT_TYPE_MOTION;
     AKeyEvent_getKeyCode := 0;
     AKeyEvent_getAction := 0;
     AKeyEvent_getRepeatCount := 0;
     AMotionEvent_getAction := AMOTION_EVENT_ACTION_POINTER_DOWN + 256 * 2;
     AMotionEvent_getPointerCount := 3;
     AMotionEvent_getPointerId := fun i => match i with O => 0 | S O => 4 | _ => 1 end;
     AMotionEvent_getX := fun i => Z.of_nat i * 10;
     AMotionEvent_getY := fun i => Z.of_nat i * 20 |}.

(** ** Relations along the code *)

(** [tracks R m]: the states before and after [m] are related by [R]. *)
Definition tracks (R : Sys -> Sys -> Prop) {A} (m : M A) : Prop :=
  forall s, R s (exec m s).

(** ** The orientation callback *)

Definition not_orientation (e : Event) : bool :=
  match e with CbOrientationChanged _ => false | _ => true end.

(** The orientations the callback has been given. *)
Fixpoint announced (l : list Event) : list GLFMInterfaceOrientation :=
  match l with
  | [] => []
  | CbOrientationChanged o :: rest => o :: announced rest
  | _ :: rest => announced rest
  end.

(** Every orientation of the list differs from the one before it, the
    first from [cur]. *)
Fixpoint changes_only (cur : GLFMInterfaceOrientation)
         (l : list GLFMInterfaceOrientation) : Prop :=
  match l with
  | [] => True
  | o :: rest => o <> cur /\ changes_only o rest
  end.

Definition orientation_view (pd : GLFMPlatformData) : GLFMInterfaceOrientation * GLFMDisplay :=
  (orientation pd, display pd).

(** What a stretch of code does to the stored orientation and to the
    orientation callback. *)
Definition orientation_step (s s' : Sys) : Prop :=
  display (plat s') = display (plat s) /\
  exists l, log s' = log s ++ l /\
    if orientationChangedFunc (display (plat s))
    then changes_only (orientation (plat s)) (announced l) /\
         orientation (plat s') = last (announced l) (orientation (plat s))
    else announced l = [].

(** The device is turned twice while the window is up. *)
Definition env_turned_twice : Env := fun c =>
  match c with
  | X_eglGetDisplay => [1]
  | X_eglChooseConfig => [1]
  | X_eglCreateWindowSurface => [7]
  | X_eglCreateContext => [5]
  | X_eglMakeCurrent => [1]
  | X_eglQuerySurfaceWidth => [1080; 1080; 1920; 1920; 1080]
  | X_eglQuerySurfaceHeight => [1920; 1920; 1080; 1080; 1920]
  | X_getRotation => [1; 1; 0; 0]
  | _ => []
  end.

Definition steps_turned_twice : list Step :=
  [StepCmd APP_CMD_INIT_WINDOW; StepCmd APP_CMD_GAINED_FOCUS;
   StepContentRect (mkRect 0 0 1920 1080); frame_60Hz;
   StepContentRect (mkRect 0 0 1080 1920); frame_60Hz].

(** ** Sensor calls *)

Definition display_is (d : GLFMDisplay) (pd : GLFMPlatformData) : Prop := display pd = d.

Definition display_view (pd : GLFMPlatformData) : GLFMDisplay := display pd.

(** The sensor calls a display allows: enabling a sensor it has a callback
    for, and an event rate of at least the update interval. *)
Definition sensor_call_ok (d : GLFMDisplay) (e : Event) : bool :=
  match e with
  | Sensor_enable i _ => nth i (sensorFuncs d) false
  | Sensor_setEventRate _ delay => SENSOR_UPDATE_INTERVAL_MICROS <=? delay
  | _ => true
  end.

Definition valid_view (pd : GLFMPlatformData) : list bool * GLFMDisplay :=
  (sensorEventValid pd, display pd).

(** Sensor [i] is wanted: sensors are on and the display has a callback
    for it. *)
Definition sensor_wanted (enabledGlobally : bool) (d : GLFMDisplay) (i : nat) : bool :=
  enabledGlobally && nth i (sensorFuncs d) false.

(** The code of [set_sensor_enabled] after the sample has been marked. *)
Definition set_sensor_enabled_calls (shouldEnable isEnabled : bool) (deviceSensor : Z)
           (haveQueue0 : bool) (i : nat) : M unit :=
  if Bool.eqb isEnabled shouldEnable || (deviceSensor =? 0) then ret tt
  else
    haveQueue <-
      (if haveQueue0 then ret true
       else q <- ask X_createEventQueue ;;
            emit (Sensor_createEventQueue (negb (q =? 0))) ;;
            modify (set_sensorEventQueue (negb (q =? 0))) ;;
            ret (negb (q =? 0))) ;;
    if negb haveQueue then ret tt
    else if shouldEnable && negb isEnabled then
      r <- ask X_enableSensor ;;
      emit (Sensor_enable i (r =? 0)) ;;
      when (r =? 0)
        (minDelay <- ask X_getMinDelay ;;
         when (0 <? minDelay)
           (emit (Sensor_setEventRate i
                    (if SENSOR_UPDATE_INTERVAL_MICROS <? minDelay
                     then minDelay else SENSOR_UPDATE_INTERVAL_MICROS))) ;;
         modify (fun pd => set_deviceSensorEnabled
                             (list_set i true (deviceSensorEnabled pd)) pd))
    else if negb shouldEnable && isEnabled then
      r <- ask X_disableSensor ;;
      emit (Sensor_disable i (r =? 0)) ;;
      when (r =? 0)
        (modify (fun pd => set_deviceSensorEnabled
                             (list_set i false (deviceSensorEnabled pd)) pd))
    else ret tt.

(** ** Invariants of a run *)

(** The wait counter of the resize callback is within its range. *)
Definition wait_frames_bounded (pd : GLFMPlatformData) : Prop :=
  0 <= resizeEventWaitFrames pd <= RESIZE_EVENT_MAX_WAIT_FRAMES.

Definition wait_view (pd : GLFMPlatformData) : Z := resizeEventWaitFrames pd.

(** A keyboard that is stored as hidden has the zero rectangle as frame. *)
Definition hidden_keyboard_has_no_frame (pd : GLFMPlatformData) : Prop :=
  keyboardVisible pd = false -> keyboardFrame pd = zeroRect.

Definition keyboard_view (pd : GLFMPlatformData) : bool * ARect :=
  (keyboardVisible pd, keyboardFrame pd).

(** The keyboard callback agrees with that: hidden comes with a frame of
    zeros. *)
Definition keyboard_callback_consistent (e : Event) : bool :=
  match e with
  | CbKeyboardVisibilityChanged false x y w h =>
      (x =? 0) && (y =? 0) && (w =? 0) && (h =? 0)
  | _ => true
  end.

(** ** Losing focus *)

Definition is_sensor_event (e : Event) : bool :=
  match e with
  | Sensor_createEventQueue _ | Sensor_enable _ _ | Sensor_setEventRate _ _
  | Sensor_disable _ _ => true
  | _ => false
  end.

(** The frame drawn when focus is lost: a refresh is asked for first. *)
Definition last_frame : M unit :=
  modify (set_refreshRequested true) ;; _glfmDrawFrame.

(** ** States and inputs of the examples *)

(** The window of [sys_window_ready] has been taken away again. *)
Definition sys_window_lost : Sys :=
  exec (process_commands [APP_CMD_TERM_WINDOW]) sys_window_ready.

Definition steps_after_window_loss : list Step :=
  [StepCmd APP_CMD_GAINED_FOCUS; frame_60Hz; StepContentRect (mkRect 0 0 1080 1920);
   StepCmd APP_CMD_LOST_FOCUS].

(** [sys_window_ready] with a swap that has just failed on a bad surface. *)
Definition sys_bad_surface : Sys :=
  mkSys (plat sys_window_ready)
        (fun c => match c with
                  | X_eglGetError => [EGL_BAD_SURFACE]
                  | X_eglCreateWindowSurface => [8]
                  | _ => []
                  end)
        [].

(** The key callback declines twice, then accepts. *)
Definition sys_key_answers : Sys :=
  initial_sys full_display scale_mdpi GLFMInterfaceOrientationPortrait (env_keyFunc [0; 0; 1]).

Definition sys_dead_key : Sys :=
  initial_sys full_display scale_mdpi GLFMInterfaceOrientationPortrait env_dead_key.

Definition sys_control_key : Sys :=
  initial_sys full_display scale_mdpi GLFMInterfaceOrientationPortrait env_control_key.

(** An event of a type the file does not know. *)
Definition unknown_event : AInputEvent :=
  {| AInputEvent_getType := 3;
     AKeyEvent_getKeyCode := 0;
     AKeyEvent_getAction := 0;
     AKeyEvent_getRepeatCount := 0;
     AMotionEvent_getAction := 0;
     AMotionEvent_getPointerCount := 0;
     AMotionEvent_getPointerId := fun _ => 0;
     AMotionEvent_getX := fun _ => 0;
     AMotionEvent_getY := fun _ => 0 |}.

(** A display with callbacks for the accelerometer and the gyroscope. *)
Definition two_sensor_display : GLFMDisplay :=
  {| surfaceCreatedFunc := true; surfaceDestroyedFunc := true;
     surfaceResizedFunc := true; surfaceRefreshFunc := true;
     renderFunc := true; focusFunc := true; lowMemoryFunc := true;
     orientationChangedFunc := true; keyboardVisibilityChangedFunc := true;
     keyFunc := true; charFunc := true; touchFunc := true;
     sensorFuncs := [true; false; true; false];
     preferredAPI := GLFMRenderingAPIOpenGLES2;
     colorFormat := GLFMColorFormatRGBA8888;
     depthFormat := GLFMDepthFormatNone;
     stencilFormat := GLFMStencilFormatNone;
     multisample := GLFMMultisampleNone;
     swapBehavior := GLFMSwapBehaviorPlatformDefault;
     uiChrome := GLFMUserInterfaceChromeNavigation |}.

(** Samples of all four sensors are marked valid. *)
Definition sys_samples_valid : Sys :=
  mkSys (set_sensorEventValid [true; true; true; true]
           (initial_platform two_sensor_display scale_mdpi GLFMInterfaceOrientationPortrait))
        (fun c => match c with X_getDefaultSensor => [1; 1; 1; 1] | _ => [] end)
        [].

(** A batch of raw events, each a type and a reading: two of the
    accelerometer, one of an unknown type, one of the gyroscope. *)
Definition raw_batch : list (Z * Z) :=
  [(ASENSOR_TYPE_ACCELEROMETER, 10); (ASENSOR_TYPE_GYROSCOPE, 20); (7, 30);
   (ASENSOR_TYPE_ACCELEROMETER, 40)].

(** The key callback declines, and a Java exception is pending when it
    has returned. *)
Definition env_exception_pending : Env := fun c =>
  match c with
  | X_keyFunc => [0]
  | X_ExceptionCheck => [1]
  | X_moveTaskToBack => [1]
  | _ => []
  end.

Definition sys_exception_pending : Sys :=
  initial_sys full_display scale_mdpi GLFMInterfaceOrientationPortrait env_exception_pending.

(** The key callback declines and [moveTaskToBack] answers true. *)
Definition env_back_handled : Env := fun c =>
  match c with
  | X_keyFunc => [0]
  | X_moveTaskToBack => [1]
  | _ => []
  end.

Definition sys_back_handled : Sys :=
  initial_sys full_display scale_mdpi GLFMInterfaceOrientationPortrait env_back_handled.

Definition sys_no_config : Sys :=
  initial_sys full_display scale_mdpi GLFMInterfaceOrientationPortrait env_no_config.

(** * Properties *)

(** ** Frames *)

Section Frame.

Context {V : Type}.

Variable view : GLFMPlatformData -> V.

Variable keep : ExtCall -> bool.

Variable P : Event -> bool.

Lemma frame_refl s : frame view keep P s s.
Proof.
  repeat split; auto. exists []. rewrite app_nil_r. auto.
Qed.

Lemma frame_trans s1 s2 s3 :
  frame view keep P s1 s2 -> frame view keep P s2 s3 -> frame view keep P s1 s3.
Proof.
  intros (Hv1 & Hk1 & l1 & Hl1 & Hp1) (Hv2 & Hk2 & l2 & Hl2 & Hp2).
  repeat split.
  - congruence.
  - intros c Hc. rewrite Hk2, Hk1; auto.
  - exists (l1 ++ l2). rewrite Hl2, Hl1, app_assoc, forallb_app, Hp1, Hp2. auto.
Qed.

Lemma framed_ret {A} (a : A) : framed view keep P (ret a).
Proof. intros s. apply frame_refl. Qed.

Lemma framed_get : framed view keep P get.
Proof. intros s. apply frame_refl. Qed.

Lemma framed_bind {A B} (m : M A) (k : A -> M B) :
  framed view keep P m -> (forall a, framed view keep P (k a)) ->
  framed view keep P (bind m k).
Proof.
  intros Hm Hk s. unfold exec, bind.
  specialize (Hm s). unfold exec in Hm.
  destruct (m s) as [a s1] eqn:E. simpl in Hm.
  eapply frame_trans; [exact Hm|]. apply Hk.
Qed.

Lemma framed_when (b : bool) (m : M unit) :
  framed view keep P m -> framed view keep P (when b m).
Proof. destruct b; simpl; auto using framed_ret. Qed.

Lemma framed_ask c : keep c = false -> framed view keep P (ask c).
Proof.
  intros Hc s. repeat split; simpl.
  - intros c' Hc'. destruct (ExtCall_eqb c c') eqn:E; auto.
    destruct c, c'; simpl in E; congruence.
  - exists []. rewrite app_nil_r. auto.
Qed.

Lemma framed_emit e : P e = true -> framed view keep P (emit e).
Proof.
  intros He s. repeat split; simpl; auto.
  exists [e]. simpl. rewrite He. auto.
Qed.

Lemma framed_modify f :
  (forall pd, view (f pd) = view pd) -> framed view keep P (modify f).
Proof.
  intros Hf s. repeat split; simpl; auto.
  exists []. rewrite app_nil_r. auto.
Qed.

Lemma framed_for_each (l : list nat) (body : nat -> M unit) :
  (forall i, framed view keep P (body i)) -> framed view keep P (for_each l body).
Proof.
  intros Hb. induction l as [|i l IH]; simpl.
  - apply framed_ret.
  - apply framed_bind; auto.
Qed.

Lemma framed_repeat_unit (n : nat) (body : M unit) :
  framed view keep P body -> framed view keep P (repeat_unit n body).
Proof.
  intros Hb. induction n as [|n IH]; simpl.
  - apply framed_ret.
  - apply framed_bind; auto.
Qed.

Lemma framed_repeat_handled (n : nat) (body : Z -> M Z) :
  (forall h, framed view keep P (body h)) ->
  forall h, framed view keep P (repeat_handled n body h).
Proof.
  intros Hb. induction n as [|n IH]; intros h; simpl.
  - apply framed_ret.
  - apply framed_bind; auto.
Qed.

Lemma framed_eglChooseConfig_loop :
  keep X_eglChooseConfig = false ->
  P Glfm_reportSurfaceError = true ->
  P Egl_Terminate = true ->
  (forall pd, view (set_eglDisplay EGL_NO_DISPLAY pd) = view pd) ->
  forall fuel samples depthBits,
    framed view keep P (eglChooseConfig_loop fuel samples depthBits).
Proof.
  intros Hk Hp1 Hp2 Hv fuel.
  induction fuel as [|fuel IH]; intros samples depthBits; simpl.
  - apply framed_ret.
  - apply framed_bind; [apply framed_ask; auto|]. intros n.
    destruct (negb (n =? 0)); [apply framed_ret|].
    destruct (0 <? samples); [apply IH|].
    destruct (8 <? depthBits); [apply IH|].
    repeat (apply framed_bind; [|intros ?]);
      auto using framed_emit, framed_modify, framed_ret.
Qed.

End Frame.

(** Side conditions on [view], [keep] and [P]: by computation, or from
    [egl_transparent] when that is what is known. *)
Ltac framed_side :=
  first
    [ reflexivity
    | intros ?; reflexivity
    | match goal with
      | H : forall c, is_egl_call c = true -> _ |- _ = false => apply H; reflexivity
      | H : forall e, is_egl_event e = true -> _ |- _ = true => apply H; reflexivity
      end
    | intros ?;
      match goal with
      | H : forall pd pd', non_egl_part pd = non_egl_part pd' -> _ |- _ =>
          apply H; reflexivity
      end ].

(** One step along the code of a [framed] goal. *)
Ltac framed_basic :=
  match goal with
  | |- framed _ _ _ (ret _) => apply framed_ret
  | |- framed _ _ _ get => apply framed_get
  | |- framed _ _ _ (when _ _) => apply framed_when
  | |- framed _ _ _ (bind _ _) => apply framed_bind; [ | intros ? ]
  | |- framed _ _ _ (ask _) => apply framed_ask; framed_side
  | |- framed _ _ _ (emit _) => apply framed_emit; framed_side
  | |- framed _ _ _ (modify _) => apply framed_modify; framed_side
  | |- framed _ _ _ (for_each _ _) => apply framed_for_each; intros ?
  | |- framed _ _ _ (repeat_unit _ _) => apply framed_repeat_unit
  | |- framed _ _ _ (repeat_handled _ _ _) => apply framed_repeat_handled; intros ?
  | |- framed _ _ _ (eglChooseConfig_loop _ _ _) =>
      apply framed_eglChooseConfig_loop; framed_side
  | |- framed _ _ _ (if ?b then _ else _) => destruct b
  | |- framed _ _ _ (match ?x with _ => _ end) => destruct x
  end.

(** The EGL code, once and for all, for every transparent frame. *)
Section FrameEGL.

Context {V : Type}.

Variable view : GLFMPlatformData -> V.

Variable keep : ExtCall -> bool.

Variable P : Event -> bool.

Hypothesis transparent : egl_transparent view keep P.

Lemma framed_EGLContextInit : framed view keep P _glfmEGLContextInit.
Proof.
  destruct transparent as (Hv & Hk & Hp).
  unfold _glfmEGLContextInit, eglCreateContext, eglQueryContext.
  repeat framed_basic.
Qed.

Lemma framed_EGLContextDisable : framed view keep P _glfmEGLContextDisable.
Proof.
  destruct transparent as (Hv & Hk & Hp).
  unfold _glfmEGLContextDisable. repeat framed_basic.
Qed.

Lemma framed_EGLSurfaceInit : framed view keep P _glfmEGLSurfaceInit.
Proof.
  destruct transparent as (Hv & Hk & Hp).
  unfold _glfmEGLSurfaceInit. repeat framed_basic.
Qed.

Lemma framed_EGLInit : framed view keep P _glfmEGLInit.
Proof.
  destruct transparent as (Hv & Hk & Hp).
  unfold _glfmEGLInit, eglQuerySurface_into.
  repeat first [ framed_basic
               | match goal with
                 | |- framed _ _ _ _glfmEGLContextInit => apply framed_EGLContextInit
                 | |- framed _ _ _ _glfmEGLSurfaceInit => apply framed_EGLSurfaceInit
                 end ].
Qed.

Lemma framed_EGLSurfaceDestroy : framed view keep P _glfmEGLSurfaceDestroy.
Proof.
  destruct transparent as (Hv & Hk & Hp).
  unfold _glfmEGLSurfaceDestroy.
  repeat first [ framed_basic
               | match goal with
                 | |- framed _ _ _ _glfmEGLContextDisable => apply framed_EGLContextDisable
                 end ].
Qed.

Lemma framed_EGLDestroy : framed view keep P _glfmEGLDestroy.
Proof.
  destruct transparent as (Hv & Hk & Hp).
  unfold _glfmEGLDestroy. repeat framed_basic.
Qed.

Lemma framed_EGLCheckError : framed view keep P _glfmEGLCheckError.
Proof.
  destruct transparent as (Hv & Hk & Hp).
  unfold _glfmEGLCheckError.
  repeat first [ framed_basic
               | match goal with
                 | |- framed _ _ _ _glfmEGLContextInit => apply framed_EGLContextInit
                 | |- framed _ _ _ _glfmEGLSurfaceInit => apply framed_EGLSurfaceInit
                 | |- framed _ _ _ _glfmEGLSurfaceDestroy => apply framed_EGLSurfaceDestroy
                 | |- framed _ _ _ _glfmEGLDestroy => apply framed_EGLDestroy
                 | |- framed _ _ _ _glfmEGLInit => apply framed_EGLInit
                 end ].
Qed.

Lemma framed_glfmSwapBuffers : framed view keep P glfmSwapBuffers.
Proof.
  destruct transparent as (Hv & Hk & Hp).
  unfold glfmSwapBuffers.
  repeat first [ framed_basic
               | match goal with
                 | |- framed _ _ _ _glfmEGLCheckError => apply framed_EGLCheckError
                 end ].
Qed.

Lemma framed_call_renderFunc : framed view keep P call_renderFunc.
Proof.
  destruct transparent as (Hv & Hk & Hp).
  unfold call_renderFunc.
  repeat first [ framed_basic
               | match goal with
                 | |- framed _ _ _ glfmSwapBuffers => apply framed_glfmSwapBuffers
                 end ].
Qed.

End FrameEGL.

(** Proves [egl_transparent] for a concrete frame by computation. *)
Ltac egl_transparent_tac :=
  first
    [ assumption
    | split;
      [ intros pd pd' Heq;
        match goal with
        | |- ?v pd = ?v pd' =>
            change (v pd) with (v (non_egl_part pd));
            change (v pd') with (v (non_egl_part pd'));
            rewrite Heq; reflexivity
        end
      | split;
        [ intros c; destruct c; intros Hc; first [reflexivity | discriminate Hc]
        | intros e; destruct e; intros He; first [reflexivity | discriminate He] ] ] ].

Ltac framed_egl :=
  match goal with
  | |- framed _ _ _ _glfmEGLContextInit =>
      apply framed_EGLContextInit; egl_transparent_tac
  | |- framed _ _ _ _glfmEGLContextDisable =>
      apply framed_EGLContextDisable; egl_transparent_tac
  | |- framed _ _ _ _glfmEGLSurfaceInit =>
      apply framed_EGLSurfaceInit; egl_transparent_tac
  | |- framed _ _ _ _glfmEGLInit => apply framed_EGLInit; egl_transparent_tac
  | |- framed _ _ _ _glfmEGLSurfaceDestroy =>
      apply framed_EGLSurfaceDestroy; egl_transparent_tac
  | |- framed _ _ _ _glfmEGLDestroy => apply framed_EGLDestroy; egl_transparent_tac
  | |- framed _ _ _ _glfmEGLCheckError =>
      apply framed_EGLCheckError; egl_transparent_tac
  | |- framed _ _ _ glfmSwapBuffers =>
      apply framed_glfmSwapBuffers; egl_transparent_tac
  | |- framed _ _ _ call_renderFunc =>
      apply framed_call_renderFunc; egl_transparent_tac
  end.

(** Decomposes a [framed] goal along the code; a goal it cannot close is
    left for the caller. *)
Ltac framed_step :=
  first
    [ framed_basic
    | framed_egl
    | progress unfold
        eglCreateContext, eglQueryContext, eglQuerySurface_into,
        _glfmEGLContextInit, _glfmEGLContextDisable, _glfmEGLSurfaceInit,
        _glfmEGLInit, _glfmEGLSurfaceDestroy, _glfmEGLDestroy,
        _glfmEGLCheckError, glfmSwapBuffers, glfmGetInterfaceOrientation,
        _glfmReportOrientationChangeIfNeeded, _glfmUpdateSurfaceSizeIfNeeded,
        call_renderFunc, _glfmDrawFrame, _glfmGetWindowVisibleDisplayFrame,
        _glfmUpdateKeyboardVisibility, set_sensor_enabled,
        _glfmSetAllRequestedSensorsEnabled, _glfmSetAnimating,
        _glfmSetFullScreen, _glfmResetContentRect, _glfmOnAppCmd,
        _glfmSetContentRect, _glfmGetUnicodeChar, _glfmWasJavaExceptionThrown,
        _glfmHandleBackButton,
        call_keyFunc, key_path, char_path, touch_pointer, touch_path,
        _glfmOnInputEvent, glfmSetMultitouchEnabled, main_loop_frame,
        main_loop_destroy ].

Ltac framed_auto := repeat framed_step.

Lemma exec_bind {A B} (m : M A) (k : A -> M B) s :
  exec (bind m k) s = exec (k (eval m s)) (exec m s).
Proof. unfold exec, eval, bind. destruct (m s); reflexivity. Qed.

Lemma eval_bind {A B} (m : M A) (k : A -> M B) s :
  eval (bind m k) s = eval (k (eval m s)) (exec m s).
Proof. unfold exec, eval, bind. destruct (m s); reflexivity. Qed.

(** ** The animating flag and the focus callback (C8) *)

Ltac exec_binds :=
  repeat match goal with
         | |- context [exec (bind ?m ?k) ?s] => rewrite (exec_bind m k s)
         | |- context [eval (bind ?m ?k) ?s] => rewrite (eval_bind m k s)
         end.

Lemma eval_get s : eval get s = plat s.
Proof. reflexivity. Qed.

Lemma exec_get s : exec get s = s.
Proof. reflexivity. Qed.

Lemma exec_run_cons st rest s :
  exec (run (st :: rest)) s = exec (run rest) (exec (step st) s).
Proof. simpl. rewrite exec_bind. reflexivity. Qed.

Lemma focus_events_app l1 l2 :
  focus_events (l1 ++ l2) = focus_events l1 ++ focus_events l2.
Proof. apply filter_app. Qed.

Lemma focus_events_none l : forallb not_focus l = true -> focus_events l = [].
Proof.
  induction l as [|e l IH]; simpl; auto.
  intros H. apply andb_true_iff in H. destruct H as [He Hl].
  rewrite He. simpl. auto.
Qed.

Lemma sensors_focus_neutral b : focus_neutral (_glfmSetAllRequestedSensorsEnabled b).
Proof. unfold focus_neutral. framed_auto. Qed.

Lemma _glfmDrawFrame_focus_neutral : focus_neutral _glfmDrawFrame.
Proof. unfold focus_neutral. framed_auto. Qed.

Lemma _glfmEGLSurfaceDestroy_focus_neutral : focus_neutral _glfmEGLSurfaceDestroy.
Proof. unfold focus_neutral. framed_auto. Qed.

Lemma _glfmEGLDestroy_focus_neutral : focus_neutral _glfmEGLDestroy.
Proof. unfold focus_neutral. framed_auto. Qed.

Lemma _glfmOnInputEvent_focus_neutral ev : focus_neutral (_glfmOnInputEvent ev).
Proof. unfold focus_neutral. framed_auto. Qed.

Lemma neutral_focus_step s s' : frame focus_view keep_none not_focus s s' -> focus_step s s'.
Proof.
  intros (Hv & _ & l & Hl & Hp). unfold focus_view in Hv.
  injection Hv as Ha Hh Hd. unfold focus_step.
  rewrite Ha, Hh, Hd, eqb_reflx. repeat split.
  exists l. split; auto. apply focus_events_none; auto.
Qed.

Lemma neutral_then_focus_step s s1 s2 :
  frame focus_view keep_none not_focus s s1 -> focus_step s1 s2 -> focus_step s s2.
Proof.
  intros (Hv & _ & l & Hl & Hp) (Hd & Hh & l2 & Hl2 & Hf). unfold focus_view in Hv.
  injection Hv as Ha Hi Hdd. unfold focus_step.
  rewrite <- Ha, <- Hi, <- Hdd. repeat split; auto.
  exists (l ++ l2). rewrite Hl2, Hl, app_assoc. split; auto.
  rewrite focus_events_app, (focus_events_none l Hp). simpl. exact Hf.
Qed.

Lemma _glfmSetAnimating_same b s :
  animating (plat s) = b -> _glfmSetAnimating b s = (tt, s).
Proof.
  intros H. unfold _glfmSetAnimating, bind, get.
  rewrite H, eqb_reflx. reflexivity.
Qed.

Lemma _glfmSetAnimating_result b s :
  animating (plat (exec (_glfmSetAnimating b) s)) = b.
Proof.
  destruct (Bool.eqb (animating (plat s)) b) eqn:E.
  - apply eqb_prop in E. unfold exec. rewrite _glfmSetAnimating_same; auto.
  - unfold _glfmSetAnimating. rewrite (exec_bind get _ s).
    change (eval get s) with (plat s). change (exec get s) with s.
    rewrite E. simpl when.
    exec_binds.
    match goal with
    | |- animating (plat (exec (_glfmSetAllRequestedSensorsEnabled b) ?s0)) = _ =>
        destruct (sensors_focus_neutral b s0) as (Hv & _)
    end.
    unfold focus_view in Hv. injection Hv as Ha _ _. rewrite Ha.
    destruct (negb (hasInited (plat s)) && b); [reflexivity|].
    destruct (focusFunc (display (plat s))); reflexivity.
Qed.

Lemma _glfmSetAnimating_focus_step b s : focus_step s (exec (_glfmSetAnimating b) s).
Proof.
  destruct (Bool.eqb (animating (plat s)) b) eqn:E.
  - apply eqb_prop in E. unfold exec. rewrite _glfmSetAnimating_same; auto.
    simpl. apply neutral_focus_step, frame_refl.
  - pose proof (_glfmSetAnimating_result b s) as Hres. revert Hres.
    unfold _glfmSetAnimating. rewrite (exec_bind get _ s).
    change (eval get s) with (plat s). change (exec get s) with s.
    rewrite E. simpl when.
    exec_binds.
    match goal with
    | |- context [exec (_glfmSetAllRequestedSensorsEnabled b) ?s0] =>
        destruct (sensors_focus_neutral b s0) as (Hv & _ & l & Hl & Hp);
        set (s1 := exec (_glfmSetAllRequestedSensorsEnabled b) s0) in *
    end.
    intros Hres. unfold focus_step. rewrite Hres.
    assert (E' : Bool.eqb b (animating (plat s)) = false).
    { destruct b, (animating (plat s)); simpl in *; congruence. }
    rewrite E'.
    unfold focus_view in Hv. injection Hv as Ha Hh Hd.
    rewrite Hh, Hd, Hl.
    destruct (hasInited (plat s)) eqn:Hi, b eqn:Hb; simpl;
      try destruct (focusFunc (display (plat s))) eqn:Hf; simpl;
      (repeat split; auto;
       eexists; split;
       [ rewrite <- ?app_assoc; reflexivity
       | rewrite ?focus_events_app, (focus_events_none l Hp); reflexivity ]).
Qed.

Lemma focus_neutral_step {A} (m : M A) s : focus_neutral m -> focus_step s (exec m s).
Proof. intros H. apply neutral_focus_step, H. Qed.

Lemma focus_step_after_neutral {A} (m : M A) b s :
  focus_neutral m -> focus_step s (exec (m ;; _glfmSetAnimating b) s).
Proof.
  intros H. rewrite exec_bind.
  eapply neutral_then_focus_step; [apply H | apply _glfmSetAnimating_focus_step].
Qed.

Lemma _glfmOnAppCmd_focus_step cmd s : focus_step s (exec (_glfmOnAppCmd cmd) s).
Proof.
  unfold _glfmOnAppCmd.
  repeat match goal with
         | |- focus_step _ (exec (if ?b then _ else _) _) => destruct b
         end;
    try solve [apply focus_neutral_step; unfold focus_neutral; framed_auto].
  - (* APP_CMD_TERM_WINDOW *)
    apply focus_step_after_neutral, _glfmEGLSurfaceDestroy_focus_neutral.
  - (* APP_CMD_GAINED_FOCUS *)
    apply _glfmSetAnimating_focus_step.
  - (* APP_CMD_LOST_FOCUS *)
    rewrite (exec_bind get _ s).
    change (eval get s) with (plat s). change (exec get s) with s.
    destruct (animating (plat s)); simpl when.
    + exec_binds.
      eapply neutral_then_focus_step; [|apply _glfmSetAnimating_focus_step].
      eapply frame_trans; [|apply _glfmDrawFrame_focus_neutral].
      apply (framed_modify focus_view keep_none not_focus). reflexivity.
    + apply neutral_focus_step, frame_refl.
Qed.

Lemma step_focus_step st s : focus_step s (exec (step st) s).
Proof.
  destruct st; simpl step.
  - apply _glfmOnAppCmd_focus_step.
  - rewrite exec_bind.
    eapply neutral_then_focus_step; [|apply _glfmOnAppCmd_focus_step].
    apply (framed_modify focus_view keep_none not_focus). reflexivity.
  - apply focus_neutral_step. unfold focus_neutral.
    apply framed_bind; [apply _glfmOnInputEvent_focus_neutral | intros; apply framed_ret].
  - apply focus_neutral_step. unfold focus_neutral. framed_auto.
  - apply focus_neutral_step. unfold focus_neutral. framed_auto.
  - unfold main_loop_destroy.
    rewrite (exec_bind get _ s).
    change (eval get s) with (plat s). change (exec get s) with s.
    exec_binds.
    eapply neutral_then_focus_step; [|apply _glfmSetAnimating_focus_step].
    eapply frame_trans; [|apply _glfmEGLDestroy_focus_neutral].
    apply (framed_when focus_view keep_none not_focus). framed_auto.
Qed.

Lemma focus_step_inv s s' : focus_step s s' -> inited_inv s -> inited_inv s'.
Proof.
  intros (_ & Hh & _) Hinv Hf. rewrite Hh in Hf.
  destruct (Bool.eqb (animating (plat s')) (animating (plat s))) eqn:E.
  - apply eqb_prop in E. rewrite E. auto.
  - apply orb_false_iff in Hf. tauto.
Qed.

Lemma run_focus_events steps : forall s,
  inited_inv s ->
  focusFunc (display (plat s)) = true ->
  focus_events (log (exec (run steps) s)) =
  focus_events (log s) ++
  map CbFocus
    (let changes := flag_changes (animating (plat s)) (trajectory steps s) in
     if hasInited (plat s) then changes else tl changes).
Proof.
  induction steps as [|st rest IH]; intros s Hinv Hf.
  - simpl. destruct (hasInited (plat s)); simpl; rewrite app_nil_r; reflexivity.
  - rewrite exec_run_cons. simpl trajectory.
    pose proof (step_focus_step st s) as Hst.
    pose proof (focus_step_inv _ _ Hst Hinv) as Hinv'.
    destruct Hst as (Hd & Hh & l & Hl & Hfe).
    set (s' := exec (step st) s) in *.
    rewrite IH; [|assumption|rewrite Hd; assumption].
    rewrite Hl, focus_events_app, Hfe, <- app_assoc. f_equal.
    simpl flag_changes. cbv zeta. rewrite Hh.
    destruct (Bool.eqb (animating (plat s')) (animating (plat s))) eqn:E.
    + apply eqb_prop in E. rewrite E. reflexivity.
    + rewrite Hf.
      destruct (hasInited (plat s)) eqn:Hi; simpl.
      * reflexivity.
      * rewrite (Hinv Hi) in E.
        destruct (animating (plat s')); simpl in *; [reflexivity|discriminate].
Qed.

(** C8. From the state [android_main] sets up, with a focus callback
    registered: the focus callbacks of any run are the values the animating
    flag takes at its changes, in order, without the first change (the
    first focus gain), and each later change is reported once. *)
Theorem C8_focus_callback_after_first_gain :
  forall d scale0 o e steps,
    focusFunc d = true ->
    focus_events (log (exec (run steps) (initial_sys d scale0 o e))) =
    map CbFocus
        (tl (flag_changes false (trajectory steps (initial_sys d scale0 o e)))).
Proof.
  intros d mk o e steps Hf.
  rewrite run_focus_events; [reflexivity | intros _; reflexivity | exact Hf].
Qed.

Lemma C8_witness :
  focusFunc full_display = true /\
  focus_events
    (log (exec (run [StepCmd APP_CMD_GAINED_FOCUS; StepCmd APP_CMD_LOST_FOCUS;
                     StepCmd APP_CMD_LOST_FOCUS; StepCmd APP_CMD_GAINED_FOCUS])
               (initial_sys full_display scale_mdpi GLFMInterfaceOrientationPortrait env_empty))) =
  [CbFocus false; CbFocus true].
Proof.
  split; [reflexivity|].
  rewrite (C8_focus_callback_after_first_gain full_display scale_mdpi
             GLFMInterfaceOrientationPortrait env_empty _ eq_refl).
  reflexivity.
Defined.

(** ** Lifecycle: when the flag is set (C3) *)

Lemma frame_animating {A} (m : M A) s :
  framed animating_view keep_none any_event m ->
  animating (plat (exec m s)) = animating (plat s).
Proof. intros H. destruct (H s) as (Hv & _). exact Hv. Qed.

Lemma _glfmOnAppCmd_animating cmd s :
  animating (plat (exec (_glfmOnAppCmd cmd) s)) =
  if cmd =? APP_CMD_GAINED_FOCUS then true
  else if (cmd =? APP_CMD_LOST_FOCUS) || (cmd =? APP_CMD_TERM_WINDOW) then false
  else animating (plat s).
Proof.
  unfold _glfmOnAppCmd.
  destruct (cmd =? APP_CMD_SAVE_STATE) eqn:E1;
    [apply Z.eqb_eq in E1; subst cmd; reflexivity|].
  destruct (cmd =? APP_CMD_INIT_WINDOW) eqn:E2;
    [apply Z.eqb_eq in E2; subst cmd; simpl; apply frame_animating; framed_auto|].
  destruct (cmd =? APP_CMD_WINDOW_RESIZED) eqn:E3;
    [apply Z.eqb_eq in E3; subst cmd; reflexivity|].
  destruct (cmd =? APP_CMD_TERM_WINDOW) eqn:E4.
  { apply Z.eqb_eq in E4; subst cmd; simpl.
    rewrite exec_bind. apply _glfmSetAnimating_result. }
  destruct (cmd =? APP_CMD_WINDOW_REDRAW_NEEDED) eqn:E5;
    [apply Z.eqb_eq in E5; subst cmd; reflexivity|].
  destruct (cmd =? APP_CMD_GAINED_FOCUS) eqn:E6.
  { apply _glfmSetAnimating_result. }
  destruct (cmd =? APP_CMD_LOST_FOCUS) eqn:E7.
  { simpl. rewrite (exec_bind get _ s).
    change (eval get s) with (plat s). change (exec get s) with s.
    destruct (animating (plat s)) eqn:Ea; simpl when.
    - exec_binds. apply _glfmSetAnimating_result.
    - exact Ea. }
  simpl.
  apply frame_animating.
  repeat match goal with
         | |- framed _ _ _ (if ?b then _ else _) => destruct b
         end; framed_auto.
Qed.

Lemma process_commands_animating cmds : forall s,
  animating (plat (exec (process_commands cmds) s)) = focus_held (animating (plat s)) cmds.
Proof.
  unfold process_commands.
  induction cmds as [|cmd rest IH]; intros s.
  - reflexivity.
  - simpl map. rewrite exec_run_cons, IH. simpl step.
    rewrite _glfmOnAppCmd_animating. reflexivity.
Qed.

Lemma step_animating st s :
  animating (plat (exec (step st) s)) = focus_after_step (animating (plat s)) st.
Proof.
  destruct st; cbn [step focus_after_step focus_held].
  - apply _glfmOnAppCmd_animating.
  - rewrite exec_bind, _glfmOnAppCmd_animating. reflexivity.
  - apply frame_animating. framed_auto.
  - apply frame_animating. framed_auto.
  - reflexivity.
  - unfold main_loop_destroy. exec_binds. apply _glfmSetAnimating_result.
Qed.

Lemma run_animating steps : forall s,
  animating (plat (exec (run steps) s)) = focus_after (animating (plat s)) steps.
Proof.
  induction steps as [|st rest IH]; intros s.
  - reflexivity.
  - rewrite exec_run_cons, IH, step_animating. reflexivity.
Qed.

Lemma focus_after_rounds cmds : forall cur,
  focus_after cur (command_rounds cmds) = focus_held_rounds cur cmds.
Proof.
  unfold focus_after, command_rounds.
  induction cmds as [|cmd rest IH]; intros cur; [reflexivity|].
  cbn [flat_map focus_held_rounds]. rewrite fold_left_app, IH. f_equal.
  unfold command_round.
  destruct (cmd =? APP_CMD_DESTROY) eqn:E.
  - apply Z.eqb_eq in E. subst cmd. reflexivity.
  - cbn [fold_left focus_after_step focus_held]. rewrite orb_false_r. reflexivity.
Qed.

(** C3, as the code has it.  After any sequence of steps of the main loop
    from the initial state (commands, content-rect changes, input events,
    frames, and the branch of a requested destroy) the animating flag is
    set exactly when focus is held: the last among the gained-focus,
    lost-focus and window-terminated commands and the destroy branch is a
    gained-focus command.  For the rounds of a sequence of commands this
    is: the last of the gained-focus, lost-focus, window-terminated and
    destroy commands is gained-focus.  The command callback by itself
    leaves the flag to the first three of them.  Window-init plays no
    part. *)
Theorem C3_animating_iff_focus_held :
  forall d scale0 o e,
    (forall steps,
       animating (plat (exec (run steps) (initial_sys d scale0 o e))) =
       focus_after false steps) /\
    (forall cmds,
       animating (plat (exec (run (command_rounds cmds)) (initial_sys d scale0 o e))) =
       focus_held_rounds false cmds) /\
    (forall cmds,
       animating (plat (exec (process_commands cmds) (initial_sys d scale0 o e))) =
       focus_held false cmds).
Proof.
  intros d scale0 o e. split; [|split].
  - intros steps. apply run_animating.
  - intros cmds. rewrite run_animating. apply focus_after_rounds.
  - intros cmds. apply process_commands_animating.
Qed.

(** A destroy command after a focus gain: the command callback leaves the
    flag set, the branch of the loop that follows it clears the flag. *)
Example destroy_clears_animating :
  animating (plat (exec (process_commands [APP_CMD_GAINED_FOCUS; APP_CMD_DESTROY])
                        (initial_sys full_display scale_mdpi
                           GLFMInterfaceOrientationPortrait env_empty))) = true /\
  command_rounds [APP_CMD_GAINED_FOCUS; APP_CMD_DESTROY] =
    [StepCmd APP_CMD_GAINED_FOCUS; StepCmd APP_CMD_DESTROY; StepDestroyRequested] /\
  animating (plat (exec (run (command_rounds [APP_CMD_GAINED_FOCUS; APP_CMD_DESTROY]))
                        (initial_sys full_display scale_mdpi
                           GLFMInterfaceOrientationPortrait env_empty))) = false.
Proof. repeat split. Qed.

(** C3 as stated fails: one gained-focus command on the initial state sets
    the flag although no window-init command has been processed. *)
Lemma C3_counterexample :
  ~ (forall cmds,
       animating (plat (exec (process_commands cmds)
                             (initial_sys full_display scale_mdpi
                                GLFMInterfaceOrientationPortrait env_empty))) = true ->
       In APP_CMD_INIT_WINDOW cmds).
Proof.
  intros H.
  specialize (H [APP_CMD_GAINED_FOCUS] eq_refl).
  simpl in H. destruct H as [H|[]]. discriminate H.
Qed.

(** ** Setting the flag to its value (C10) *)

(** C10. Setting the animating flag to the value it has returns at once:
    the platform data, the environment and the log are as before, so no
    focus callback and no sensor call is made; and setting it twice to the
    same value is the same as setting it once. *)
Theorem C10_set_animating_same_value :
  forall b s,
    (animating (plat s) = b -> _glfmSetAnimating b s = (tt, s)) /\
    exec (_glfmSetAnimating b) (exec (_glfmSetAnimating b) s) = exec (_glfmSetAnimating b) s.
Proof.
  intros b s. split.
  - apply _glfmSetAnimating_same.
  - unfold exec at 1.
    rewrite _glfmSetAnimating_same; [reflexivity|apply _glfmSetAnimating_result].
Qed.

Lemma C10_witness :
  _glfmSetAnimating false
    (initial_sys full_display scale_mdpi GLFMInterfaceOrientationPortrait env_empty) =
  (tt, initial_sys full_display scale_mdpi GLFMInterfaceOrientationPortrait env_empty).
Proof.
  apply (proj1 (C10_set_animating_same_value false
           (initial_sys full_display scale_mdpi GLFMInterfaceOrientationPortrait env_empty))).
  reflexivity.
Defined.

(** ** Drawing needs a current context (C2) *)

Lemma events_since_app s s' l : log s' = log s ++ l -> events_since s s' = l.
Proof.
  intros H. unfold events_since. rewrite H.
  rewrite skipn_app, skipn_all, Nat.sub_diag. reflexivity.
Qed.

(** C2. When the context-current flag is unset [_glfmDrawFrame] returns
    with the state and the log as they were; hence whatever a call of
    [_glfmDrawFrame] appends to the log, the render and the refresh
    callback among it, it appends with the flag set. *)
Theorem C2_draw_frame_needs_current_context :
  forall s,
    (eglContextCurrent (plat s) = false -> _glfmDrawFrame s = (tt, s)) /\
    (forall e, In e (events_since s (exec _glfmDrawFrame s)) ->
               eglContextCurrent (plat s) = true).
Proof.
  intros s.
  assert (H : eglContextCurrent (plat s) = false -> _glfmDrawFrame s = (tt, s)).
  { intros Hc. unfold _glfmDrawFrame, bind, get. rewrite Hc. reflexivity. }
  split; [exact H|].
  intros e He. destruct (eglContextCurrent (plat s)) eqn:Hc; [reflexivity|].
  unfold exec in He. rewrite (H eq_refl) in He. simpl in He.
  rewrite (events_since_app s s []) in He by (rewrite app_nil_r; reflexivity).
  destruct He.
Qed.

Lemma C2_witness :
  _glfmDrawFrame (initial_sys full_display scale_mdpi GLFMInterfaceOrientationPortrait env_empty) =
    (tt, initial_sys full_display scale_mdpi GLFMInterfaceOrientationPortrait env_empty) /\
  In CbRender (events_since sys_window_ready (exec _glfmDrawFrame sys_window_ready)) /\
  eglContextCurrent (plat sys_window_ready) = true.
Proof.
  split; [|split].
  - apply (proj1 (C2_draw_frame_needs_current_context
                    (initial_sys full_display scale_mdpi GLFMInterfaceOrientationPortrait env_empty))).
    reflexivity.
  - vm_compute. auto.
  - apply (proj2 (C2_draw_frame_needs_current_context sys_window_ready) CbRender).
    vm_compute. auto.
Defined.

(** ** Code that only appends to the log *)

Lemma emits_ret {A} (a : A) : emits (ret a) [].
Proof. intros [p e l]. unfold exec. simpl. rewrite app_nil_r. reflexivity. Qed.

Lemma emits_emit e : emits (emit e) [e].
Proof. intros s. reflexivity. Qed.

Lemma emits_bind {A B} (m : M A) (k : A -> M B) l1 l2 :
  emits m l1 -> (forall a, emits (k a) l2) -> emits (bind m k) (l1 ++ l2).
Proof.
  intros Hm Hk s. rewrite exec_bind, Hk, Hm. simpl. rewrite app_assoc. reflexivity.
Qed.

Lemma emits_for_each (l : list nat) (body : nat -> M unit) (f : nat -> list Event) :
  (forall i, emits (body i) (f i)) -> emits (for_each l body) (flat_map f l).
Proof.
  intros Hb. induction l as [|i l IH]; simpl.
  - apply emits_ret.
  - apply emits_bind; auto.
Qed.

Lemma emits_repeat_unit (n : nat) (body : M unit) e :
  emits body [e] -> emits (repeat_unit n body) (repeat e n).
Proof.
  intros Hb. induction n as [|n IH]; simpl.
  - apply emits_ret.
  - apply (emits_bind body _ [e] (repeat e n)); auto.
Qed.

(** ** Touch identifiers (C4) *)

Lemma touch_pointer_emits event maxTouches phase index :
  emits (touch_pointer event maxTouches phase index)
        (delivered_touch event maxTouches phase index).
Proof.
  unfold touch_pointer, delivered_touch.
  destruct ((0 <=? AMotionEvent_getPointerId event index) &&
            (AMotionEvent_getPointerId event index <? maxTouches)); simpl.
  - apply emits_emit.
  - apply emits_ret.
Qed.

Lemma delivered_touch_bounded event maxTouches phase index e :
  In e (delivered_touch event maxTouches phase index) -> touch_bounded event maxTouches e.
Proof.
  unfold delivered_touch.
  destruct ((0 <=? AMotionEvent_getPointerId event index) &&
            (AMotionEvent_getPointerId event index <? maxTouches)) eqn:E; simpl; [|tauto].
  intros [<-|[]]. apply andb_true_iff in E. destruct E as [E1 E2].
  apply Z.leb_le in E1. apply Z.ltb_lt in E2.
  exists index, phase. split; [reflexivity|lia].
Qed.

Lemma touch_path_emits event s :
  exists l,
    exec (touch_path event) s = mkSys (plat s) (env s) (log s ++ l) /\
    forall e, In e l ->
      touch_bounded event
        (if multitouchEnabled (plat s) then MAX_SIMULTANEOUS_TOUCHES else 1) e.
Proof.
  unfold touch_path. rewrite (exec_bind get _ s).
  change (eval get s) with (plat s). change (exec get s) with s.
  set (maxTouches := if multitouchEnabled (plat s) then MAX_SIMULTANEOUS_TOUCHES else 1).
  assert (Hnil : exists l : list Event,
             exec (ret tt) s = mkSys (plat s) (env s) (log s ++ l) /\
             forall e, In e l -> touch_bounded event maxTouches e).
  { exists []. split; [apply emits_ret|intros e []]. }
  destruct (touchFunc (display (plat s))); simpl when; [|exact Hnil].
  destruct (phase_of_action _) as [phase|]; [|exact Hnil].
  assert (Hone : exists l : list Event,
             exec (touch_pointer event maxTouches phase
                     (Z.to_nat (Z.shiftr
                        (Z.land (uint32 (AMotionEvent_getAction event))
                                AMOTION_EVENT_ACTION_POINTER_INDEX_MASK)
                        AMOTION_EVENT_ACTION_POINTER_INDEX_SHIFT))) s =
             mkSys (plat s) (env s) (log s ++ l) /\
             forall e, In e l -> touch_bounded event maxTouches e).
  { eexists. split; [apply touch_pointer_emits|].
    intros e. apply delivered_touch_bounded. }
  destruct phase; try exact Hone.
  eexists. split.
  - apply emits_for_each. intros i. apply touch_pointer_emits.
  - intros e He. apply in_flat_map in He. destruct He as (i & _ & He).
    eapply delivered_touch_bounded; eauto.
Qed.

(** C4. A motion event changes nothing but the log, and every entry it
    adds is a touch callback for one of the event's pointers whose
    identifier lies in [0, maxTouches), with maxTouches 5 when multitouch is
    enabled and 1 otherwise; so with multitouch disabled every delivered
    identifier is 0. *)
Theorem C4_touch_identifiers_bounded :
  forall event s,
    AInputEvent_getType event = AINPUT_EVENT_TYPE_MOTION ->
    exists l,
      exec (_glfmOnInputEvent event) s = mkSys (plat s) (env s) (log s ++ l) /\
      forall e, In e l ->
        exists i phase,
          e = CbTouch (AMotionEvent_getPointerId event i) phase
                      (AMotionEvent_getX event i) (AMotionEvent_getY event i) /\
          0 <= AMotionEvent_getPointerId event i <
               (if multitouchEnabled (plat s) then 5 else 1) /\
          (multitouchEnabled (plat s) = false -> AMotionEvent_getPointerId event i = 0).
Proof.
  intros event s Ht. unfold _glfmOnInputEvent. rewrite Ht.
  change (AINPUT_EVENT_TYPE_MOTION =? AINPUT_EVENT_TYPE_KEY) with false.
  change (AINPUT_EVENT_TYPE_MOTION =? AINPUT_EVENT_TYPE_MOTION) with true.
  cbv iota. rewrite exec_bind.
  destruct (touch_path_emits event s) as (l & Hl & Hb).
  exists l. split.
  - rewrite Hl. reflexivity.
  - intros e He. destruct (Hb e He) as (i & phase & -> & Hr).
    exists i, phase. split; [reflexivity|].
    unfold MAX_SIMULTANEOUS_TOUCHES in Hr. split; [exact Hr|].
    intros Hm. rewrite Hm in Hr. lia.
Qed.

Lemma C4_witness :
  exists l,
    exec (_glfmOnInputEvent motion_event_three_pointers)
         (exec (glfmSetMultitouchEnabled true) sys_idle) =
    mkSys (plat (exec (glfmSetMultitouchEnabled true) sys_idle))
          (env (exec (glfmSetMultitouchEnabled true) sys_idle))
          (log (exec (glfmSetMultitouchEnabled true) sys_idle) ++ l) /\
    forall e, In e l ->
      exists i phase,
        e = CbTouch (AMotionEvent_getPointerId motion_event_three_pointers i) phase
                    (AMotionEvent_getX motion_event_three_pointers i)
                    (AMotionEvent_getY motion_event_three_pointers i) /\
        0 <= AMotionEvent_getPointerId motion_event_three_pointers i <
             (if multitouchEnabled (plat (exec (glfmSetMultitouchEnabled true) sys_idle))
              then 5 else 1) /\
        (multitouchEnabled (plat (exec (glfmSetMultitouchEnabled true) sys_idle)) = false ->
         AMotionEvent_getPointerId motion_event_three_pointers i = 0).
Proof.
  apply (C4_touch_identifiers_bounded motion_event_three_pointers
           (exec (glfmSetMultitouchEnabled true) sys_idle)).
  reflexivity.
Defined.

(** The same event with and without multitouch: pointer 7 is dropped in
    both cases, pointer 3 when multitouch is disabled. *)
Example touch_event_multitouch :
  log (exec (_glfmOnInputEvent motion_event_three_pointers)
            (exec (glfmSetMultitouchEnabled true) sys_idle)) =
  [CbTouch 0 GLFMTouchPhaseMoved 0 0; CbTouch 3 GLFMTouchPhaseMoved 10 20].
Proof. reflexivity. Qed.

Example touch_event_single_touch :
  log (exec (_glfmOnInputEvent motion_event_three_pointers) sys_idle) =
  [CbTouch 0 GLFMTouchPhaseMoved 0 0].
Proof. reflexivity. Qed.

(** ** The character callback and UTF-8 (C6) *)

Lemma forall_below (p : Z -> bool) (n : nat) :
  forallb p (map Z.of_nat (seq 0 n)) = true ->
  forall y, 0 <= y < Z.of_nat n -> p y = true.
Proof.
  intros H y Hy. rewrite forallb_forall in H. apply H.
  apply in_map_iff. exists (Z.to_nat y). split; [lia|].
  apply in_seq. lia.
Qed.

Lemma lor_prefix (hi : Z) (n : nat) :
  forallb (fun y => Z.lor hi y =? hi + y) (map Z.of_nat (seq 0 n)) = true ->
  forall y, 0 <= y < Z.of_nat n -> Z.lor hi y = hi + y.
Proof.
  intros H y Hy. apply Z.eqb_eq.
  apply (forall_below (fun y => Z.lor hi y =? hi + y) n H y Hy).
Qed.

Lemma land_63 x : Z.land x 0x3f = x mod 64.
Proof. change 0x3f with (Z.ones 6). rewrite Z.land_ones by lia. reflexivity. Qed.

Lemma land_127 x : Z.land x 0x7f = x mod 128.
Proof. change 0x7f with (Z.ones 7). rewrite Z.land_ones by lia. reflexivity. Qed.

Lemma continuation_byte y : 0 <= y < 64 -> to_char (Z.lor 0x80 y) = 0x80 + y.
Proof.
  intros Hy. rewrite (lor_prefix 0x80 64 eq_refl) by exact Hy.
  unfold to_char. apply Z.mod_small. lia.
Qed.

Lemma leading_byte (hi : Z) (n : nat) y :
  forallb (fun y => Z.lor hi y =? hi + y) (map Z.of_nat (seq 0 n)) = true ->
  0 <= hi -> hi + Z.of_nat n <= 256 ->
  0 <= y < Z.of_nat n -> to_char (Z.lor hi y) = hi + y.
Proof.
  intros H Hhi Hn Hy. rewrite (lor_prefix hi n H) by exact Hy.
  unfold to_char. apply Z.mod_small. lia.
Qed.

Lemma c_string_terminated l :
  Forall (fun b => b <> 0) l -> c_string (l ++ [0]) = l.
Proof.
  induction 1 as [|b l Hb Hl IH]; simpl; [reflexivity|].
  destruct (b =? 0) eqn:E; [apply Z.eqb_eq in E; contradiction|].
  rewrite IH. reflexivity.
Qed.

(** The code against the standard: on every code point from 1 up to
    0x10FFFF the string the function returns is the UTF-8 encoding. *)
Lemma _glfmUnicodeToUTF8_standard c :
  1 <= c <= 0x10FFFF -> c_string (_glfmUnicodeToUTF8 c) = utf8_encode c.
Proof.
  intros Hc. unfold _glfmUnicodeToUTF8, utf8_encode.
  rewrite !Z.shiftr_div_pow2 by lia. rewrite !land_63, land_127.
  change (2 ^ 6) with 64. change (2 ^ 12) with 4096. change (2 ^ 18) with 262144.
  pose proof (Z.mod_pos_bound c 64 ltac:(lia)) as B0.
  pose proof (Z.mod_pos_bound (c / 64) 64 ltac:(lia)) as B1.
  pose proof (Z.mod_pos_bound (c / 4096) 64 ltac:(lia)) as B2.
  destruct (Z.ltb_spec c 0x80) as [H1|H1].
  { rewrite Z.mod_small by lia. unfold to_char. rewrite Z.mod_small by lia.
    apply (c_string_terminated [c]). repeat constructor. lia. }
  destruct (Z.ltb_spec c 0x800) as [H2|H2].
  { assert (0 <= c / 64 < 32)
      by (split; [apply Z.div_pos; lia | apply Z.div_lt_upper_bound; lia]).
    rewrite (leading_byte 0xc0 32) by (reflexivity || lia).
    rewrite continuation_byte by lia.
    apply (c_string_terminated [_; _]). repeat constructor; lia. }
  destruct (Z.ltb_spec c 0x10000) as [H3|H3].
  { assert (0 <= c / 4096 < 16)
      by (split; [apply Z.div_pos; lia | apply Z.div_lt_upper_bound; lia]).
    rewrite (leading_byte 0xe0 16) by (reflexivity || lia).
    rewrite !continuation_byte by lia.
    apply (c_string_terminated [_; _; _]). repeat constructor; lia. }
  destruct (Z.ltb_spec c 0x110000) as [H4|H4]; [|lia].
  assert (0 <= c / 262144 < 8)
    by (split; [apply Z.div_pos; lia | apply Z.div_lt_upper_bound; lia]).
  rewrite (leading_byte 0xf0 8) by (reflexivity || lia).
  rewrite !continuation_byte by lia.
  apply (c_string_terminated [_; _; _; _]). repeat constructor; lia.
Qed.

Lemma utf8_encode_shape c :
  0 <= c <= 0x10FFFF ->
  (1 <= length (utf8_encode c) <= 4)%nat /\
  (forall b, In b (tl (utf8_encode c)) -> 0x80 <= b <= 0xBF).
Proof.
  intros Hc. unfold utf8_encode.
  pose proof (Z.mod_pos_bound c 64 ltac:(lia)) as B0.
  pose proof (Z.mod_pos_bound (c / 64) 64 ltac:(lia)) as B1.
  pose proof (Z.mod_pos_bound (c / 4096) 64 ltac:(lia)) as B2.
  destruct (c <? 0x80), (c <? 0x800), (c <? 0x10000);
    cbn [length tl In]; (split; [lia|]); intros b Hb;
    repeat (destruct Hb as [<-|Hb]; [lia|]); destruct Hb.
Qed.

Lemma is_continuation_offset y : 0 <= y < 64 -> is_continuation (0x80 + y) = true.
Proof.
  intros Hy. unfold is_continuation. apply andb_true_iff.
  split; [apply Z.leb_le|apply Z.ltb_lt]; lia.
Qed.

Lemma utf8_decode_encode c : 0 <= c <= 0x10FFFF -> utf8_decode (utf8_encode c) = Some c.
Proof.
  intros Hc. unfold utf8_encode.
  pose proof (Z.mod_pos_bound c 64 ltac:(lia)) as B0.
  pose proof (Z.mod_pos_bound (c / 64) 64 ltac:(lia)) as B1.
  pose proof (Z.mod_pos_bound (c / 4096) 64 ltac:(lia)) as B2.
  pose proof (Z.div_mod c 64 ltac:(lia)) as D0.
  pose proof (Z.div_mod (c / 64) 64 ltac:(lia)) as D1.
  pose proof (Z.div_mod (c / 4096) 64 ltac:(lia)) as D2.
  assert (E1 : c / 64 / 64 = c / 4096) by (rewrite Z.div_div by lia; reflexivity).
  assert (E2 : c / 4096 / 64 = c / 262144) by (rewrite Z.div_div by lia; reflexivity).
  rewrite E1 in D1. rewrite E2 in D2.
  destruct (Z.ltb_spec c 0x80) as [H1|H1].
  { unfold utf8_decode.
    replace ((0 <=? c) && (c <? 128)) with true; [reflexivity|].
    symmetry. apply andb_true_iff. split; [apply Z.leb_le|apply Z.ltb_lt]; lia. }
  destruct (Z.ltb_spec c 0x800) as [H2|H2].
  { assert (0 <= c / 64 < 32)
      by (split; [apply Z.div_pos; lia | apply Z.div_lt_upper_bound; lia]).
    unfold utf8_decode. rewrite is_continuation_offset by lia.
    replace ((192 <=? 192 + c / 64) && (192 + c / 64 <? 224)) with true
      by (symmetry; apply andb_true_iff; split; [apply Z.leb_le|apply Z.ltb_lt]; lia).
    simpl andb. cbv iota. f_equal. lia. }
  destruct (Z.ltb_spec c 0x10000) as [H3|H3].
  { assert (0 <= c / 4096 < 16)
      by (split; [apply Z.div_pos; lia | apply Z.div_lt_upper_bound; lia]).
    unfold utf8_decode. rewrite !is_continuation_offset by lia.
    replace ((224 <=? 224 + c / 4096) && (224 + c / 4096 <? 240)) with true
      by (symmetry; apply andb_true_iff; split; [apply Z.leb_le|apply Z.ltb_lt]; lia).
    simpl andb. cbv iota. f_equal. lia. }
  assert (0 <= c / 262144 < 8)
    by (split; [apply Z.div_pos; lia | apply Z.div_lt_upper_bound; lia]).
  unfold utf8_decode. rewrite !is_continuation_offset by lia.
  replace ((240 <=? 240 + c / 262144) && (240 + c / 262144 <? 248)) with true
    by (symmetry; apply andb_true_iff; split; [apply Z.leb_le|apply Z.ltb_lt]; lia).
  simpl andb. cbv iota. f_equal. lia.
Qed.

Lemma char_events_none l : forallb not_char l = true -> char_events l = [].
Proof.
  induction l as [|e l IH]; simpl; auto.
  intros H. apply andb_true_iff in H. destruct H as [He Hl].
  rewrite He. simpl. auto.
Qed.

Lemma char_events_repeat str n :
  char_events (repeat (CbChar str) n) = repeat (CbChar str) n.
Proof.
  induction n as [|n IH]; [reflexivity|].
  change (char_events (repeat (CbChar str) (S n)))
    with (CbChar str :: char_events (repeat (CbChar str) n)).
  rewrite IH. reflexivity.
Qed.

(** The key callback block does not touch the platform data, does not
    consume the Unicode lookup and makes no character callback. *)
Lemma key_path_frame event : framed whole_view keep_unicode not_char (key_path event).
Proof. framed_auto. Qed.

Lemma _glfmGetUnicodeChar_run s :
  _glfmGetUnicodeChar s =
  (uint32 (hd 0 (env s X_getUnicodeChar)),
   mkSys (plat s)
         (fun c' => if ExtCall_eqb X_getUnicodeChar c'
                    then tl (env s X_getUnicodeChar) else env s c')
         (log s)).
Proof. reflexivity. Qed.

Lemma char_path_log event s c :
  charFunc (display (plat s)) = true ->
  hd 0 (env s X_getUnicodeChar) = c ->
  0x20 <= c <= 0x10FFFF ->
  log (exec (char_path event) s) =
  log s ++
  (if AKeyEvent_getAction event =? AKEY_EVENT_ACTION_DOWN
   then [CbChar (utf8_encode c)]
   else if AKeyEvent_getAction event =? AKEY_EVENT_ACTION_MULTIPLE
        then repeat (CbChar (utf8_encode c)) (Z.to_nat (AKeyEvent_getRepeatCount event))
        else []).
Proof.
  intros Hcf Hhd Hc. unfold char_path.
  rewrite (exec_bind get _ s).
  change (eval get s) with (plat s). change (exec get s) with s.
  rewrite Hcf. simpl when.
  assert (Hgo : forall isDown,
    log (exec (unicode <- _glfmGetUnicodeChar ;;
               when (32 <=? unicode)
                 (if isDown : bool
                  then emit (CbChar (c_string (_glfmUnicodeToUTF8 unicode)))
                  else repeat_unit (Z.to_nat (AKeyEvent_getRepeatCount event))
                         (emit (CbChar (c_string (_glfmUnicodeToUTF8 unicode)))))) s) =
    log s ++ (if isDown then [CbChar (utf8_encode c)]
              else repeat (CbChar (utf8_encode c))
                          (Z.to_nat (AKeyEvent_getRepeatCount event)))).
  { intros isDown. rewrite exec_bind. unfold eval, exec at 2.
    rewrite _glfmGetUnicodeChar_run. cbn [fst snd]. rewrite Hhd.
    unfold uint32. rewrite Z.mod_small by lia.
    replace (32 <=? c) with true by (symmetry; apply Z.leb_le; lia).
    simpl when. rewrite _glfmUnicodeToUTF8_standard by lia.
    destruct isDown.
    - reflexivity.
    - rewrite (emits_repeat_unit _ _ (CbChar (utf8_encode c)) (emits_emit _)).
      reflexivity. }
  destruct (AKeyEvent_getAction event =? AKEY_EVENT_ACTION_DOWN) eqn:Ed.
  - simpl orb. simpl when. apply (Hgo true).
  - destruct (AKeyEvent_getAction event =? AKEY_EVENT_ACTION_MULTIPLE) eqn:Em.
    + simpl orb. simpl when. apply (Hgo false).
    + simpl. rewrite app_nil_r. reflexivity.
Qed.

(** C6. For a key event whose Unicode lookup gives a code point [c] from
    0x20 up to 0x10FFFF, with a character callback registered: the
    character callbacks made are one for a key-down and one per repeat
    count for a multiple action, each with the UTF-8 encoding of [c], which
    has one to four bytes, all after the first in 0x80..0xBF, and decodes
    to [c]. *)
Theorem C6_char_callback_receives_utf8 :
  forall c event s,
    0x20 <= c <= 0x10FFFF ->
    AInputEvent_getType event = AINPUT_EVENT_TYPE_KEY ->
    charFunc (display (plat s)) = true ->
    hd 0 (env s X_getUnicodeChar) = c ->
    (exists l,
       log (exec (_glfmOnInputEvent event) s) = log s ++ l /\
       char_events l =
         if AKeyEvent_getAction event =? AKEY_EVENT_ACTION_DOWN
         then [CbChar (utf8_encode c)]
         else if AKeyEvent_getAction event =? AKEY_EVENT_ACTION_MULTIPLE
              then repeat (CbChar (utf8_encode c))
                          (Z.to_nat (AKeyEvent_getRepeatCount event))
              else []) /\
    (1 <= length (utf8_encode c) <= 4)%nat /\
    (forall b, In b (tl (utf8_encode c)) -> 0x80 <= b <= 0xBF) /\
    utf8_decode (utf8_encode c) = Some c.
Proof.
  intros c event s Hc Ht Hcf Hhd.
  split; [|pose proof (utf8_encode_shape c ltac:(lia)) as [H1 H2];
           pose proof (utf8_decode_encode c ltac:(lia)); auto].
  unfold _glfmOnInputEvent. rewrite Ht.
  change (AINPUT_EVENT_TYPE_KEY =? AINPUT_EVENT_TYPE_KEY) with true. cbv iota.
  rewrite exec_bind.
  destruct (key_path_frame event s) as (Hv & Hk & lk & Hlk & Hpk).
  unfold whole_view in Hv.
  set (s1 := exec (key_path event) s) in *.
  rewrite exec_bind.
  assert (Hlog : log (exec (char_path event) s1) =
                 log s1 ++
                 (if AKeyEvent_getAction event =? AKEY_EVENT_ACTION_DOWN
                  then [CbChar (utf8_encode c)]
                  else if AKeyEvent_getAction event =? AKEY_EVENT_ACTION_MULTIPLE
                       then repeat (CbChar (utf8_encode c))
                                   (Z.to_nat (AKeyEvent_getRepeatCount event))
                       else [])).
  { apply char_path_log; [rewrite Hv; exact Hcf | rewrite Hk; auto | exact Hc]. }
  eexists. split.
  - change (log (exec (ret (eval (key_path event) s)) (exec (char_path event) s1)))
      with (log (exec (char_path event) s1)).
    rewrite Hlog, Hlk, <- app_assoc. reflexivity.
  - unfold char_events. rewrite filter_app. fold (char_events lk).
    rewrite (char_events_none lk Hpk). simpl app.
    destruct (AKeyEvent_getAction event =? AKEY_EVENT_ACTION_DOWN); [reflexivity|].
    destruct (AKeyEvent_getAction event =? AKEY_EVENT_ACTION_MULTIPLE); [|reflexivity].
    apply char_events_repeat.
Qed.

(** Code point 0x1F600 on a key-down: one callback with F0 9F 98 80. *)
Lemma C6_witness :
  (exists l,
     log (exec (_glfmOnInputEvent key_down_event) sys_grinning_face) =
       log sys_grinning_face ++ l /\
     char_events l = [CbChar [0xF0; 0x9F; 0x98; 0x80]]) /\
  (1 <= length (utf8_encode 0x1F600) <= 4)%nat /\
  (forall b, In b (tl (utf8_encode 0x1F600)) -> 0x80 <= b <= 0xBF) /\
  utf8_decode (utf8_encode 0x1F600) = Some 0x1F600.
Proof.
  apply (C6_char_callback_receives_utf8 0x1F600 key_down_event sys_grinning_face).
  - lia.
  - reflexivity.
  - reflexivity.
  - reflexivity.
Defined.

Example grinning_face_log :
  log (exec (_glfmOnInputEvent key_down_event) sys_grinning_face) =
  [CbKey (GLFMKeyCode 65) GLFMKeyActionPressed; CbChar [0xF0; 0x9F; 0x98; 0x80]].
Proof. reflexivity. Qed.

(** ** Keyboard visibility (C7) *)

Lemma int32_small x : - 2 ^ 31 <= x < 2 ^ 31 -> int32 x = x.
Proof. intros H. unfold int32. rewrite Z.mod_small; lia. Qed.

Lemma ARectsEqual_eq r1 r2 : ARectsEqual r1 r2 = true <-> r1 = r2.
Proof.
  unfold ARectsEqual. rewrite !andb_true_iff, !Z.eqb_eq.
  destruct r1, r2; simpl. split.
  - intros [[[-> ->] ->] ->]. reflexivity.
  - intros H. injection H as -> -> -> ->. auto.
Qed.

(** The loop keeps the largest area seen among the bands that fit, and an
    index that points at a band with that area. *)
Lemma largest_band_spec minimumKeyboardSize rects :
  forall i idx0 a0,
    let res := largest_band minimumKeyboardSize rects i (idx0, a0) in
    a0 <= snd res /\
    (forall r, In r rects -> band_fits minimumKeyboardSize r -> rect_area r <= snd res) /\
    (res = (idx0, a0) \/
     exists r, nth_error rects (fst res - i) = Some r /\ (i <= fst res)%nat /\
               band_fits minimumKeyboardSize r /\ rect_area r = snd res).
Proof.
  induction rects as [|r rects IH]; intros i idx0 a0; simpl.
  - split; [lia|]. split; [intros r []|left; reflexivity].
  - destruct ((minimumKeyboardSize <=? rect_w r) && (minimumKeyboardSize <=? rect_h r) &&
              (a0 <? rect_area r)) eqn:E.
    + apply andb_true_iff in E. destruct E as [E E3].
      apply andb_true_iff in E. destruct E as [E1 E2].
      apply Z.leb_le in E1. apply Z.leb_le in E2. apply Z.ltb_lt in E3.
      specialize (IH (S i) i (rect_area r)). cbv zeta in IH.
      destruct IH as (Hle & Hmax & Hsel).
      split; [lia|]. split.
      * intros r' [<-|Hin] Hfit; [exact Hle|auto].
      * right. destruct Hsel as [Heq|(r' & Hn & Hi & Hfit & Ha)].
        -- rewrite Heq. simpl. exists r. rewrite Nat.sub_diag.
           repeat split; auto.
        -- exists r'. replace (fst (largest_band minimumKeyboardSize rects (S i)
                                        (i, rect_area r)) - i)%nat
             with (S (fst (largest_band minimumKeyboardSize rects (S i)
                             (i, rect_area r)) - S i)) by lia.
           simpl. split; [exact Hn|]. split; [lia|]. split; [exact Hfit|exact Ha].
    + specialize (IH (S i) idx0 a0). cbv zeta in IH.
      destruct IH as (Hle & Hmax & Hsel).
      split; [lia|]. split.
      * intros r' [<-|Hin] Hfit; [|auto].
        destruct Hfit as [F1 F2].
        apply Z.leb_le in F1. apply Z.leb_le in F2. rewrite F1, F2 in E. simpl in E.
        apply Z.ltb_ge in E. lia.
      * destruct Hsel as [Heq|(r' & Hn & Hi & Hfit & Ha)]; [left; exact Heq|].
        right. exists r'.
        replace (fst (largest_band minimumKeyboardSize rects (S i) (idx0, a0)) - i)%nat
          with (S (fst (largest_band minimumKeyboardSize rects (S i) (idx0, a0)) - S i))
          by lia.
        simpl. split; [exact Hn|]. split; [lia|]. split; [exact Hfit|exact Ha].
Qed.

(** What the heuristic returns, in the code's own [int] arithmetic. *)
Lemma keyboard_heuristic_spec minimumKeyboardSize windowRect visibleRect :
  let bands := nonVisibleRect windowRect visibleRect in
  let res := keyboard_heuristic minimumKeyboardSize windowRect visibleRect in
  (fst res = true ->
     In (snd res) bands /\ band_fits minimumKeyboardSize (snd res) /\
     0 < rect_area (snd res) /\
     forall r, In r bands -> band_fits minimumKeyboardSize r ->
               rect_area r <= rect_area (snd res)) /\
  (fst res = false ->
     snd res = zeroRect /\
     forall r, In r bands -> band_fits minimumKeyboardSize r -> rect_area r <= 0).
Proof.
  intros bands res. subst res. unfold keyboard_heuristic. fold bands.
  pose proof (largest_band_spec minimumKeyboardSize bands 0 0%nat (-1)) as H.
  cbv zeta in H.
  destruct (largest_band minimumKeyboardSize bands 0 (0%nat, -1)) as [idx a].
  cbn [fst snd] in *. destruct H as (Hle & Hmax & Hsel).
  destruct (0 <? a) eqn:Ea; cbn [fst snd].
  - apply Z.ltb_lt in Ea. split; [intros _|discriminate].
    destruct Hsel as [Heq|(r & Hn & _ & Hfit & Har)].
    { injection Heq as _ Ha. lia. }
    rewrite Nat.sub_0_r in Hn.
    rewrite (nth_error_nth _ _ zeroRect Hn).
    repeat split; try apply Hfit.
    + eapply nth_error_In; eauto.
    + lia.
    + intros r' Hin' Hfit'. rewrite Har. auto.
  - apply Z.ltb_ge in Ea. split; [discriminate|intros _].
    split; [reflexivity|]. intros r Hin Hfit. specialize (Hmax r Hin Hfit). lia.
Qed.

Lemma band_exact_rect r :
  band_exact r ->
  rect_w r = band_width r /\ rect_h r = band_height r /\ rect_area r = band_area r.
Proof.
  unfold band_exact, fits_int, rect_area, rect_w, rect_h, band_area, band_width, band_height.
  intros (Hw & Hh & Ha).
  rewrite (int32_small (right r - left r)) by exact Hw.
  rewrite (int32_small (bottom r - top r)) by exact Hh.
  repeat split. apply int32_small. exact Ha.
Qed.

Lemma screen_rect_exact windowRect visibleRect :
  screen_rect windowRect -> screen_rect visibleRect -> bands_exact windowRect visibleRect.
Proof.
  unfold screen_rect. intros Hw Hv r Hin. simpl in Hin.
  assert (H : forall a b c d,
             0 <= a <= 46340 -> 0 <= b <= 46340 -> 0 <= c <= 46340 -> 0 <= d <= 46340 ->
             band_exact (mkRect a b c d)).
  { intros a b c d Ha Hb Hc Hd.
    unfold band_exact, fits_int, band_area, band_width, band_height. simpl.
    assert (-46340 <= c - a <= 46340) by lia.
    assert (-46340 <= d - b <= 46340) by lia.
    assert (- (46340 * 46340) <= (c - a) * (d - b) <= 46340 * 46340) by nia.
    lia. }
  destruct Hin as [<-|[<-|[<-|[<-|[]]]]]; apply H; tauto.
Qed.

Lemma screen_rectb_true r : screen_rectb r = true -> screen_rect r.
Proof.
  unfold screen_rectb, screen_rect. rewrite !andb_true_iff, !Z.leb_le. tauto.
Qed.

Lemma no_event_nil l : forallb no_event l = true -> l = [].
Proof. destruct l; simpl; [reflexivity|discriminate]. Qed.

Lemma visible_frame_query r s :
  plat (exec (_glfmGetWindowVisibleDisplayFrame r) s) = plat s /\
  log (exec (_glfmGetWindowVisibleDisplayFrame r) s) = log s.
Proof.
  assert (H : framed whole_view keep_none no_event (_glfmGetWindowVisibleDisplayFrame r))
    by framed_auto.
  destruct (H s) as (Hv & _ & l & Hl & Hp).
  apply no_event_nil in Hp. subst l. rewrite app_nil_r in Hl. auto.
Qed.

(** What [_glfmUpdateKeyboardVisibility] does with the result of the
    heuristic: nothing when it equals the stored values; otherwise it
    stores it and makes the callback. *)
Lemma _glfmUpdateKeyboardVisibility_run s :
  let pd := plat s in
  let windowRect := contentRect (app pd) in
  let visibleRect := eval (_glfmGetWindowVisibleDisplayFrame windowRect) s in
  let res := keyboard_heuristic (minimumKeyboardSize pd) windowRect visibleRect in
  let s' := exec _glfmUpdateKeyboardVisibility s in
  let changed := negb (Bool.eqb (keyboardVisible pd) (fst res)) ||
                 negb (ARectsEqual (keyboardFrame pd) (snd res)) in
  keyboardVisible (plat s') = fst res /\
  keyboardFrame (plat s') = snd res /\
  (changed = false -> plat s' = pd) /\
  log s' = log s ++
           (if changed && keyboardVisibilityChangedFunc (display pd)
            then [keyboard_callback (fst res) (snd res)] else []).
Proof.
  intros pd windowRect visibleRect res s' changed.
  subst s'. unfold _glfmUpdateKeyboardVisibility.
  rewrite (exec_bind get _ s).
  change (eval get s) with pd. change (exec get s) with s. cbv zeta.
  fold windowRect. rewrite exec_bind. fold visibleRect.
  destruct (visible_frame_query windowRect s) as (Hp & Hl).
  set (s1 := exec (_glfmGetWindowVisibleDisplayFrame windowRect) s) in *.
  fold res. destruct res as [visible frame] eqn:Eres. cbn [fst snd] in *.
  fold changed. destruct changed eqn:Ec.
  - unfold exec, when, bind, modify, emit, ret.
    destruct (keyboardVisibilityChangedFunc (display pd)); cbn;
      rewrite ?Hl, ?app_nil_r; repeat split; discriminate.
  - subst changed. apply orb_false_iff in Ec. destruct Ec as [E1 E2].
    apply negb_false_iff in E1, E2.
    apply eqb_prop in E1. apply ARectsEqual_eq in E2.
    unfold exec, when, ret. cbn. rewrite Hl, Hp, app_nil_r. auto.
Qed.

(** C7, as the code has it.  The minimum keyboard size is 100
    density-independent units, [(int)(100 * scale)] pixels.  When it is at
    least one pixel and no width, height or area of a band overflows an
    [int]: the keyboard is visible exactly when one of the four bands is at
    least the minimum size in width and height; the frame is then such a
    band of largest area, and the zero rectangle otherwise; the result is
    stored, and the callback is made with it, only when the visibility or
    the frame differs from the stored one.  No band overflows when all
    coordinates of the two rectangles are from 0 to 46340.  At scale 1.0
    the minimum is 100 pixels, and for window rect (0,0,1000,2000) and
    visible rect (0,0,1000,1500) the result is then visible with frame
    (0,1500,1000,2000). *)
Theorem C7_keyboard_visibility_at_least_minimum :
  (forall s,
     let pd := plat s in
     let windowRect := contentRect (app pd) in
     let visibleRect := eval (_glfmGetWindowVisibleDisplayFrame windowRect) s in
     let minSize := int_of_double (double_mul (double_of_int 100) (scale pd)) in
     let bands := nonVisibleRect windowRect visibleRect in
     let fits := fun r => minSize <= band_width r /\ minSize <= band_height r in
     let visible := fst (keyboard_heuristic minSize windowRect visibleRect) in
     let frame := snd (keyboard_heuristic minSize windowRect visibleRect) in
     let s' := exec _glfmUpdateKeyboardVisibility s in
     1 <= minSize -> bands_exact windowRect visibleRect ->
     (visible = true <-> exists r, In r bands /\ fits r) /\
     (visible = true ->
        In frame bands /\ fits frame /\
        forall r, In r bands -> fits r -> band_area r <= band_area frame) /\
     (visible = false -> frame = zeroRect) /\
     keyboardVisible (plat s') = visible /\
     keyboardFrame (plat s') = frame /\
     (keyboardVisible pd = visible -> keyboardFrame pd = frame ->
        plat s' = pd /\ log s' = log s) /\
     (forall e, In e (events_since s s') ->
        e = keyboard_callback visible frame /\
        (keyboardVisible pd <> visible \/ keyboardFrame pd <> frame))) /\
  (forall windowRect visibleRect,
     screen_rect windowRect -> screen_rect visibleRect ->
     bands_exact windowRect visibleRect) /\
  int_of_double (double_mul (double_of_int 100) (display_scale 160)) = 100 /\
  keyboard_heuristic 100 (mkRect 0 0 1000 2000) (mkRect 0 0 1000 1500) =
    (true, mkRect 0 1500 1000 2000).
Proof.
  split; [|split; [exact screen_rect_exact|split; [vm_compute|]; reflexivity]].
  intros s pd windowRect visibleRect minSize bands fits visible frame s' Hmin Hexact.
  change minSize with (minimumKeyboardSize pd) in *.
  pose proof (keyboard_heuristic_spec (minimumKeyboardSize pd) windowRect visibleRect)
    as Hspec.
  cbv zeta in Hspec. fold bands visible frame in Hspec.
  destruct Hspec as (Hvis & Hinv).
  assert (Hex : forall r, In r bands ->
            rect_w r = band_width r /\ rect_h r = band_height r /\
            rect_area r = band_area r).
  { intros r Hr. apply band_exact_rect. exact (Hexact r Hr). }
  assert (Hfits : forall r, In r bands -> (band_fits (minimumKeyboardSize pd) r <-> fits r)).
  { intros r Hr. destruct (Hex r Hr) as (Ew & Eh & _).
    unfold band_fits, fits. rewrite Ew, Eh. tauto. }
  pose proof (_glfmUpdateKeyboardVisibility_run s) as Hrun.
  cbv zeta in Hrun. fold pd windowRect visibleRect visible frame s' in Hrun.
  destruct Hrun as (Rv & Rf & Rsame & Rlog).
  assert (Hself : ARectsEqual frame frame = true) by (apply ARectsEqual_eq; reflexivity).
  split; [split|].
  { intros Ht. destruct (Hvis Ht) as (Hin & Hfit & _).
    exists frame. split; [exact Hin|]. apply Hfits; auto. }
  { intros (r & Hr & Hfit). destruct visible eqn:Ev; [reflexivity|].
    destruct (Hinv eq_refl) as (_ & Hno).
    apply Hfits in Hfit as Hfit'; [|exact Hr].
    specialize (Hno r Hr Hfit').
    destruct (Hex r Hr) as (_ & _ & Ea). rewrite Ea in Hno.
    destruct Hfit as [F1 F2]. unfold band_area in Hno. nia. }
  split.
  { intros Ht. destruct (Hvis Ht) as (Hin & Hfit & _ & Hmax).
    split; [exact Hin|]. split; [apply Hfits; assumption|].
    intros r Hr Hfit'.
    destruct (Hex r Hr) as (_ & _ & <-). destruct (Hex frame Hin) as (_ & _ & <-).
    apply Hmax; [exact Hr|]. apply Hfits; assumption. }
  split; [apply Hinv|].
  split; [exact Rv|]. split; [exact Rf|].
  split.
  { intros H1 H2. split.
    - apply Rsame. rewrite H1, H2, eqb_reflx, Hself. reflexivity.
    - rewrite Rlog, H1, H2, eqb_reflx, Hself. simpl. apply app_nil_r. }
  intros e He. rewrite (events_since_app _ _ _ Rlog) in He.
  destruct (negb (Bool.eqb (keyboardVisible pd) visible)) eqn:E1.
  - simpl in He. destruct (keyboardVisibilityChangedFunc (display pd)); [|destruct He].
    destruct He as [<-|[]]. split; [reflexivity|].
    left. apply negb_true_iff, eqb_false_iff in E1. exact E1.
  - destruct (negb (ARectsEqual (keyboardFrame pd) frame)) eqn:E2; [|destruct He].
    simpl in He. destruct (keyboardVisibilityChangedFunc (display pd)); [|destruct He].
    destruct He as [<-|[]]. split; [reflexivity|].
    right. apply negb_true_iff in E2. intros Heq.
    apply ARectsEqual_eq in Heq. congruence.
Qed.

Lemma C7_witness :
  keyboardVisible (plat (exec _glfmUpdateKeyboardVisibility sys_keyboard_shown)) = true /\
  keyboardFrame (plat (exec _glfmUpdateKeyboardVisibility sys_keyboard_shown)) =
    mkRect 0 1500 1000 2000 /\
  events_since sys_keyboard_shown (exec _glfmUpdateKeyboardVisibility sys_keyboard_shown) =
    [CbKeyboardVisibilityChanged true 0 1500 1000 500].
Proof.
  destruct (proj1 C7_keyboard_visibility_at_least_minimum sys_keyboard_shown)
    as (_ & _ & _ & Hv & Hf & _).
  - vm_compute. discriminate.
  - apply screen_rect_exact; apply screen_rectb_true; reflexivity.
  - split; [exact Hv|]. split; [exact Hf|]. reflexivity.
Defined.

(** The minimum keyboard size at the densities Android names, from ldpi to
    xxxhdpi. *)
Example minimum_keyboard_size_of_density :
  map (fun density => int_of_double (double_mul (double_of_int 100) (display_scale density)))
      [120; 160; 213; 240; 320; 480; 640] =
  [75; 100; 133; 150; 200; 300; 400].
Proof. vm_compute. reflexivity. Qed.

(** The product is rounded before the cast: at density 184 the scale is
    the double next to 1.15, a hundred times it is just below 115, and the
    minimum is 114 pixels. *)
Example minimum_keyboard_size_rounded :
  int_of_double (double_mul (double_of_int 100) (display_scale 184)) = 114.
Proof. vm_compute. reflexivity. Qed.

(** Where the area of a band overflows, the model wraps it as two's
    complement does and a band of 65536 by 65536 pixels is not found; C
    leaves this case undefined. *)
Example band_area_overflow :
  keyboard_heuristic 100 (mkRect 0 0 65536 131072) (mkRect 0 0 65536 65536) =
  (false, zeroRect).
Proof. vm_compute. reflexivity. Qed.

(** C7 as stated fails at the minimum size itself: with visible rect
    (0,0,1000,1900) the bottom band is exactly 100 high, no band exceeds
    100 in both directions, and the keyboard is reported visible. *)
Lemma C7_counterexample :
  ~ (fst (keyboard_heuristic 100 (mkRect 0 0 1000 2000) (mkRect 0 0 1000 1900)) = true <->
     exists r, In r (nonVisibleRect (mkRect 0 0 1000 2000) (mkRect 0 0 1000 1900)) /\
               100 < band_width r /\ 100 < band_height r).
Proof.
  intros [H _]. destruct (H eq_refl) as (r & Hin & Hw & Hh).
  simpl in Hin. unfold band_width, band_height in *.
  destruct Hin as [<-|[<-|[<-|[<-|[]]]]]; simpl in *; lia.
Qed.

(** ** The refresh rate (C9) *)






(** ** The resize callback waits (C5) *)






Lemma after_size_queries_same s :
  plat (after_size_queries s) = plat s /\ log (after_size_queries s) = log s.
Proof. split; reflexivity. Qed.





























(** The run of the counterexample in numbers: after the sixth frame the
    counter is used up and the stored size is still 1080 x 1920; the
    seventh frame reports the new size. *)
Example new_size_reported_at_once :
  let s := exec (run (steps_size_restored ++ [frame_60Hz]))
                (initial_sys full_display scale_mdpi
                   GLFMInterfaceOrientationPortrait env_size_restored) in
  resizeEventWaitFrames (plat s) = 0 /\
  (width (plat s), height (plat s)) = (1080, 1920) /\
  resized_events (log s) = [] /\
  events_since s (exec (step frame_60Hz) s) =
    [CbSurfaceResized 1000 1000; CbSurfaceRefresh; CbRender].
Proof. vm_compute. repeat split. Qed.

(** The same rotation, frame by frame: five frames wait, the sixth makes
    the callback. *)
Example rotation_sixth_frame_fires :
  resized_events
    (events_since sys_before_rotation
       (exec (run [frame_60Hz; frame_60Hz; frame_60Hz; frame_60Hz; frame_60Hz; frame_60Hz])
             sys_before_rotation)) = [CbSurfaceResized 1920 1080].
Proof. vm_compute. reflexivity. Qed.

(** ** Surface-created, render, surface-destroyed (C1) *)

(** C1, where the code breaks it.  Window-init creates context 5, the bind
    fails with [EGL_BAD_SURFACE] and the error handler rebuilds the surface
    only; after window-terminated and a second window-init the same context
    is bound and the render callback is made, and no surface-created
    callback has been made for it, then or before. *)
Theorem C1_render_without_surface_created :
  log sys_first_bind_failed =
    [ Egl_Initialize 1; Egl_CreateWindowSurface 7;
      Egl_CreateContext 2 0 5; Egl_BindContext 7 5 false;
      Egl_DestroySurface 7; Egl_UnbindContext; Egl_CreateWindowSurface 8;
      Egl_DestroySurface 8; Egl_UnbindContext; Egl_CreateWindowSurface 9;
      Egl_BindContext 9 5 true; CbSurfaceRefresh; CbRender ] /\
  eglContext (plat sys_first_bind_failed) = 5 /\
  eglContextCurrent (plat sys_first_bind_failed) = true /\
  In CbRender (log sys_first_bind_failed) /\
  filter is_surface_created (log sys_first_bind_failed) = [].
Proof.
  assert (H : log sys_first_bind_failed =
    [ Egl_Initialize 1; Egl_CreateWindowSurface 7;
      Egl_CreateContext 2 0 5; Egl_BindContext 7 5 false;
      Egl_DestroySurface 7; Egl_UnbindContext; Egl_CreateWindowSurface 8;
      Egl_DestroySurface 8; Egl_UnbindContext; Egl_CreateWindowSurface 9;
      Egl_BindContext 9 5 true; CbSurfaceRefresh; CbRender ]) by (vm_compute; reflexivity).
  split; [exact H|]. rewrite H.
  split; [vm_compute; reflexivity|].
  split; [vm_compute; reflexivity|].
  split; [simpl; tauto|reflexivity].
Qed.

(** *** What does hold: surface-created once per context *)

Lemma created_monitor_app fresh l1 l2 :
  created_monitor fresh (l1 ++ l2) =
  match created_monitor fresh l1 with
  | Some fresh' => created_monitor fresh' l2
  | None => None
  end.
Proof.
  revert fresh. induction l1 as [|e l1 IH]; intros fresh; [reflexivity|].
  destruct e; simpl; auto. destruct fresh; auto.
Qed.

Lemma created_monitor_quiet l :
  forallb quiet_created l = true -> forall fresh, created_monitor fresh l <> None.
Proof.
  induction l as [|e l IH]; intros Hq fresh; [discriminate|].
  simpl in Hq. apply andb_true_iff in Hq. destruct Hq as [He Hq].
  destruct e; simpl; auto. discriminate He.
Qed.

Lemma created_safe_nil : created_safe [].
Proof. intros fresh. discriminate. Qed.

Lemma created_safe_app l1 l2 : created_safe l1 -> created_safe l2 -> created_safe (l1 ++ l2).
Proof.
  intros H1 H2 fresh. rewrite created_monitor_app.
  specialize (H1 fresh). destruct (created_monitor fresh l1); [apply H2|exact H1].
Qed.

Lemma created_safe_quiet l : forallb quiet_created l = true -> created_safe l.
Proof. intros H fresh. apply created_monitor_quiet, H. Qed.

Lemma safe_logs_ret {A} (a : A) : safe_logs (ret a).
Proof. intros s. exists []. split; [symmetry; apply app_nil_r|apply created_safe_nil]. Qed.

Lemma safe_logs_bind {A B} (m : M A) (k : A -> M B) :
  safe_logs m -> (forall a, safe_logs (k a)) -> safe_logs (bind m k).
Proof.
  intros Hm Hk s. rewrite exec_bind.
  destruct (Hm s) as (l1 & Hl1 & H1).
  destruct (Hk (eval m s) (exec m s)) as (l2 & Hl2 & H2).
  exists (l1 ++ l2). split; [rewrite Hl2, Hl1, app_assoc; reflexivity|].
  apply created_safe_app; assumption.
Qed.

Lemma safe_logs_when (b : bool) (m : M unit) : safe_logs m -> safe_logs (when b m).
Proof. destruct b; simpl; auto using safe_logs_ret. Qed.

Lemma safe_logs_framed {A V} (view : GLFMPlatformData -> V) keep (m : M A) :
  framed view keep quiet_created m -> safe_logs m.
Proof.
  intros H s. destruct (H s) as (_ & _ & l & Hl & Hp).
  exists l. split; [exact Hl|apply created_safe_quiet, Hp].
Qed.

(** One creation attempt, or none, after the attempts so far. *)
Lemma creation_attempt (attempt : bool) major minor (r : bool * (Z * Z)) s l :
  creation_post (fst r) l ->
  let m := if attempt
           then c <- eglCreateContext major minor ;; ret (c, (major, minor))
           else ret r in
  exists l', log (exec m s) = log s ++ l' /\ creation_post (fst (eval m s)) (l ++ l').
Proof.
  intros (Hq & Hc) m. subst m. destruct attempt.
  - exists [Egl_CreateContext major minor (hd 0 (env s X_eglCreateContext))].
    split; [reflexivity|]. split.
    + rewrite forallb_app, Hq. reflexivity.
    + intros Hcr fresh. rewrite created_monitor_app.
      pose proof (created_monitor_quiet l Hq fresh) as Hn.
      destruct (created_monitor fresh l); [|contradiction].
      simpl. change (eval _ s) with
        (negb (hd 0 (env s X_eglCreateContext) =? EGL_NO_CONTEXT), (major, minor)) in Hcr.
      simpl in Hcr. rewrite Hcr. reflexivity.
  - exists []. split; [symmetry; apply app_nil_r|]. rewrite app_nil_r.
    split; assumption.
Qed.

(** The chain of creation attempts, one link: an attempt or none, then the
    rest [k]. *)
Lemma creation_chain {B} (attempt : bool) major minor (r : bool * (Z * Z)) s l
      (k : bool * (Z * Z) -> M B) (Q : B -> list Event -> Prop) :
  creation_post (fst r) l ->
  (forall r' s' l',
     creation_post (fst r') (l ++ l') ->
     exists l2, log (exec (k r') s') = log s' ++ l2 /\
                Q (eval (k r') s') ((l ++ l') ++ l2)) ->
  exists l3,
    log (exec (bind (if attempt
                     then c <- eglCreateContext major minor ;; ret (c, (major, minor))
                     else ret r) k) s) = log s ++ l3 /\
    Q (eval (bind (if attempt
                   then c <- eglCreateContext major minor ;; ret (c, (major, minor))
                   else ret r) k) s) (l ++ l3).
Proof.
  intros Hpost Hk.
  destruct (creation_attempt attempt major minor r s l Hpost) as (l' & Hl' & Hpost').
  rewrite exec_bind, eval_bind.
  destruct (Hk _ (exec (if attempt
                        then c <- eglCreateContext major minor ;; ret (c, (major, minor))
                        else ret r) s) l' Hpost') as (l2 & Hl2 & HQ).
  exists (l' ++ l2). split.
  - rewrite Hl2, Hl', app_assoc. reflexivity.
  - rewrite app_assoc. exact HQ.
Qed.

Lemma context_creation_post s :
  let m :=
    (if eglContext (plat s) =? EGL_NO_CONTEXT then
       let api := api_rank (preferredAPI (display (plat s))) in
       r32 <- (if api_rank GLFMRenderingAPIOpenGLES32 <=? api
               then c <- eglCreateContext 3 2 ;; ret (c, (3, 2))
               else ret (false, (0, 0))) ;;
       r31 <- (if negb (fst r32) && (api_rank GLFMRenderingAPIOpenGLES31 <=? api)
               then c <- eglCreateContext 3 1 ;; ret (c, (3, 1))
               else ret r32) ;;
       r30 <- (if negb (fst r31) && (api_rank GLFMRenderingAPIOpenGLES3 <=? api)
               then c <- eglCreateContext 3 0 ;; ret (c, (3, 0))
               else ret r31) ;;
       r20 <- (if negb (fst r30)
               then c <- eglCreateContext 2 0 ;; ret (c, (2, 0))
               else ret r30) ;;
       let '(created, (major0, minor0)) := r20 in
       when created
         (majorVersion <- eglQueryContext X_eglQueryContextMajor major0 ;;
          minorVersion <- (if 3 <=? majorVersion
                           then eglQueryContext X_eglQueryContextMinor minor0
                           else ret minor0) ;;
          modify (set_renderingAPI
            (if (majorVersion =? 3) && (minorVersion =? 2) then GLFMRenderingAPIOpenGLES32
             else if (majorVersion =? 3) && (minorVersion =? 1) then GLFMRenderingAPIOpenGLES31
             else if majorVersion =? 3 then GLFMRenderingAPIOpenGLES3
             else GLFMRenderingAPIOpenGLES2))) ;;
       ret created
     else ret false) in
  exists l, log (exec m s) = log s ++ l /\ creation_post (eval m s) l.
Proof.
  intros m. subst m.
  destruct (eglContext (plat s) =? EGL_NO_CONTEXT).
  2:{ exists []. split; [symmetry; apply app_nil_r|]. split; [reflexivity|discriminate]. }
  cbv zeta.
  assert (H0 : creation_post (fst (false, (0, 0))) []) by (split; [reflexivity|discriminate]).
  apply (creation_chain _ 3 2 (false, (0, 0)) s [] _ creation_post H0).
  intros r32 s32 l32 H32.
  apply (creation_chain _ 3 1 r32 s32 _ _ creation_post H32).
  intros r31 s31 l31 H31.
  apply (creation_chain _ 3 0 r31 s31 _ _ creation_post H31).
  intros r30 s30 l30 H30.
  apply (creation_chain _ 2 0 r30 s30 _ _ creation_post H30).
  intros r20 s20 l20 H20.
  destruct r20 as [created [major0 minor0]]. cbn [fst] in H20.
  rewrite exec_bind, eval_bind.
  change (eval (ret created) ?s') with created.
  change (exec (ret created) ?s') with s'.
  match goal with
  | |- context [exec ?q s20] =>
      assert (Hq : framed no_view keep_none no_event q)
  end.
  { unfold eglQueryContext. repeat framed_basic. }
  destruct (Hq s20) as (_ & _ & l2 & Hl2 & Hp2).
  apply no_event_nil in Hp2. subst l2.
  exists []. split; [exact Hl2|]. rewrite app_nil_r. exact H20.
Qed.

(** Every surface-created callback of [_glfmEGLContextInit] announces a
    context created in the same call. *)
Lemma _glfmEGLContextInit_safe : safe_logs _glfmEGLContextInit.
Proof.
  intros s. unfold _glfmEGLContextInit.
  rewrite (exec_bind get _ s).
  change (eval get s) with (plat s). change (exec get s) with s.
  rewrite exec_bind.
  destruct (context_creation_post s) as (lc & Hlc & Hq & Hfresh).
  cbv zeta in Hlc, Hq, Hfresh.
  match goal with
  | H : log (exec ?m s) = _ |- _ =>
      set (created := eval m s) in *; set (s1 := exec m s) in *
  end.
  clearbody created s1.
  rewrite (exec_bind get _ s1).
  change (eval get s1) with (plat s1). change (exec get s1) with s1.
  rewrite exec_bind.
  set (ok := eval (ask X_eglMakeCurrent) s1).
  set (s2 := exec (ask X_eglMakeCurrent) s1).
  assert (L2 : log s2 = log s1) by reflexivity. clearbody s2 ok.
  rewrite exec_bind.
  assert (Hbind : forall b, created_safe (lc ++ [Egl_BindContext (eglSurface (plat s1))
                                                   (eglContext (plat s1)) b])).
  { intros b. apply created_safe_quiet. rewrite forallb_app, Hq. reflexivity. }
  destruct (ok =? 0).
  - eexists. split; [cbn; rewrite L2, Hlc, <- app_assoc; reflexivity|].
    apply Hbind.
  - destruct (created && surfaceCreatedFunc (display (plat s1))) eqn:Ec.
    + eexists. split; [cbn; rewrite L2, Hlc, <- !app_assoc; reflexivity|].
      apply andb_true_iff in Ec. destruct Ec as [Ec _].
      intros fresh. rewrite created_monitor_app, (Hfresh Ec fresh). discriminate.
    + eexists. split; [cbn; rewrite L2, Hlc, <- !app_assoc; reflexivity|].
      apply Hbind.
Qed.

Ltac safe_step :=
  match goal with
  | |- safe_logs _glfmEGLContextInit => apply _glfmEGLContextInit_safe
  | |- safe_logs (ret _) => apply safe_logs_ret
  | |- safe_logs (bind _ _) => apply safe_logs_bind; [ | intros ? ]
  | |- safe_logs (when _ _) => apply safe_logs_when
  | |- safe_logs (if ?b then _ else _) => destruct b
  | |- safe_logs (match ?x with _ => _ end) => destruct x
  | |- safe_logs _ =>
      first
        [ solve [ apply (safe_logs_framed no_view keep_none); framed_auto ]
        | progress unfold _glfmEGLInit, _glfmEGLCheckError, glfmSwapBuffers,
            call_renderFunc, _glfmDrawFrame, _glfmOnAppCmd, main_loop_frame, step ]
  end.

Lemma step_safe st : safe_logs (step st).
Proof. destruct st; repeat safe_step. Qed.

Lemma run_safe steps : safe_logs (run steps).
Proof.
  induction steps as [|st rest IH]; simpl.
  - apply safe_logs_ret.
  - apply safe_logs_bind; [apply step_safe|intros _; exact IH].
Qed.

(** X20. In every run, from any state: each surface-created callback follows a
    successful context creation that no earlier callback has announced. *)
Lemma surface_created_once_per_context steps s fresh :
  created_monitor fresh (events_since s (exec (run steps) s)) <> None.
Proof.
  destruct (run_safe steps s) as (l & Hl & Hs).
  rewrite (events_since_app _ _ _ Hl). apply Hs.
Qed.

(** X21. What does hold of [_glfmEGLDestroy]: tearing down a context makes the
    surface-destroyed callback once, and leaves no context. *)
Lemma _glfmEGLDestroy_destroyed_once s :
  eglContext (plat (exec _glfmEGLDestroy s)) = EGL_NO_CONTEXT /\
  exists l,
    log (exec _glfmEGLDestroy s) = log s ++ l /\
    filter is_surface_destroyed l =
      if negb (eglDisplay (plat s) =? EGL_NO_DISPLAY) &&
         negb (eglContext (plat s) =? EGL_NO_CONTEXT) &&
         surfaceDestroyedFunc (display (plat s))
      then [CbSurfaceDestroyed] else [].
Proof.
  unfold _glfmEGLDestroy. rewrite (exec_bind get _ s).
  change (eval get s) with (plat s). change (exec get s) with s.
  destruct (eglDisplay (plat s) =? EGL_NO_DISPLAY),
           (eglContext (plat s) =? EGL_NO_CONTEXT),
           (surfaceDestroyedFunc (display (plat s))),
           (eglSurface (plat s) =? EGL_NO_SURFACE);
    cbn; (split; [reflexivity|]); eexists;
    (split; [first [ symmetry; apply app_nil_r
                   | rewrite <- !app_assoc; reflexivity
                   | reflexivity ]
            | reflexivity]).
Qed.

(** X22. The configuration search ends within the six rounds [_glfmEGLInit]
    allows it: more fuel changes nothing. *)
Lemma config_search_fuel d extra s :
  eglChooseConfig_loop (6 + extra) (initial_samples d) (initial_depthBits d) s =
  eglChooseConfig_loop 6 (initial_samples d) (initial_depthBits d) s.
Proof.
  unfold initial_samples, initial_depthBits.
  destruct (depthFormat d), (stencilFormat d), (multisample d); reflexivity.
Qed.

(** * Further properties *)

(** ** Invariants of the platform data *)

Section Holds.

Variable I : GLFMPlatformData -> Prop.

Variable P : Event -> bool.

Lemma holds_ret {A} (a : A) : holds I P (ret a).
Proof.
  intros s Hs. split; [exact Hs|]. exists []. rewrite app_nil_r. auto.
Qed.

Lemma holds_bind {A B} (m : M A) (k : A -> M B) :
  holds I P m -> (forall a, holds I P (k a)) -> holds I P (bind m k).
Proof.
  intros Hm Hk s Hs. rewrite exec_bind.
  destruct (Hm s Hs) as (H1 & l1 & Hl1 & Hp1).
  destruct (Hk (eval m s) (exec m s) H1) as (H2 & l2 & Hl2 & Hp2).
  split; [exact H2|]. exists (l1 ++ l2).
  rewrite Hl2, Hl1, app_assoc, forallb_app, Hp1, Hp2. auto.
Qed.

(** After [get] the continuation may use [I] on what was read. *)
Lemma holds_get_bind {B} (k : GLFMPlatformData -> M B) :
  (forall pd, I pd -> holds I P (k pd)) -> holds I P (bind get k).
Proof.
  intros Hk s Hs. rewrite exec_bind.
  change (eval get s) with (plat s). change (exec get s) with s.
  apply Hk; exact Hs.
Qed.

Lemma holds_ret_bind {A B} (a : A) (k : A -> M B) :
  holds I P (k a) -> holds I P (bind (ret a) k).
Proof. intros H s Hs. exact (H s Hs). Qed.

Lemma holds_when (b : bool) (m : M unit) : holds I P m -> holds I P (when b m).
Proof. destruct b; simpl; auto using holds_ret. Qed.

Lemma holds_ask c : holds I P (ask c).
Proof.
  intros s Hs. split; [exact Hs|]. exists []. simpl. rewrite app_nil_r. auto.
Qed.

Lemma holds_emit e : P e = true -> holds I P (emit e).
Proof.
  intros He s Hs. split; [exact Hs|]. exists [e]. simpl. rewrite He. auto.
Qed.

Lemma holds_modify f : (forall pd, I pd -> I (f pd)) -> holds I P (modify f).
Proof.
  intros Hf s Hs. split; [apply Hf; exact Hs|].
  exists []. simpl. rewrite app_nil_r. auto.
Qed.

Lemma holds_framed {V A} (view : GLFMPlatformData -> V) keep (m : M A) :
  (forall pd pd', view pd' = view pd -> I pd -> I pd') ->
  framed view keep P m -> holds I P m.
Proof.
  intros Hv Hm s Hs. destruct (Hm s) as (H1 & _ & Hl).
  split; [|exact Hl]. exact (Hv _ _ H1 Hs).
Qed.

Lemma holds_run steps :
  (forall st, In st steps -> holds I P (step st)) -> holds I P (run steps).
Proof.
  induction steps as [|st rest IH]; intros H; simpl.
  - apply holds_ret.
  - apply holds_bind; [apply H; left; reflexivity|].
    intros _. apply IH. intros st' Hin. apply H. right. exact Hin.
Qed.

End Holds.

(** One step along the code of a [holds] goal. *)
Ltac holds_basic :=
  match goal with
  | |- holds _ _ (ret _) => apply holds_ret
  | |- holds _ _ (when _ _) => apply holds_when
  | |- holds _ _ (bind get _) => apply holds_get_bind; intros ? ?
  | |- holds _ _ (bind _ _) => apply holds_bind; [ | intros ? ]
  | |- holds _ _ (ask _) => apply holds_ask
  | |- holds _ _ get => apply holds_ask
  | |- holds _ _ (emit _) => apply holds_emit; reflexivity
  | |- holds _ _ (if ?b then _ else _) => destruct b
  end.

(** ** Nothing is drawn without a current context *)

Lemma current_view_holds {A} (m : M A) :
  framed current_view keep_none not_drawing m ->
  holds context_not_current not_drawing m.
Proof.
  apply holds_framed. unfold current_view, context_not_current. congruence.
Qed.

Lemma _glfmDrawFrame_not_current : holds context_not_current not_drawing _glfmDrawFrame.
Proof.
  unfold _glfmDrawFrame. apply holds_get_bind. intros pd Hpd.
  rewrite Hpd. apply holds_ret.
Qed.

Lemma _glfmEGLSurfaceDestroy_not_current :
  holds context_not_current not_drawing _glfmEGLSurfaceDestroy.
Proof.
  unfold _glfmEGLSurfaceDestroy, _glfmEGLContextDisable.
  repeat first [ holds_basic | apply holds_modify; intros; assumption
               | apply holds_modify; intros; reflexivity ].
Qed.

Lemma _glfmEGLDestroy_not_current :
  holds context_not_current not_drawing _glfmEGLDestroy.
Proof.
  unfold _glfmEGLDestroy.
  repeat first [ holds_basic | apply holds_modify; intros; assumption
               | apply holds_modify; intros; reflexivity ].
Qed.

Ltac not_current_step :=
  match goal with
  | |- holds _ _ _glfmDrawFrame => apply _glfmDrawFrame_not_current
  | |- holds _ _ _glfmEGLSurfaceDestroy => apply _glfmEGLSurfaceDestroy_not_current
  | |- holds _ _ _glfmEGLDestroy => apply _glfmEGLDestroy_not_current
  | |- holds _ _ _ => holds_basic
  | |- holds _ _ _ => apply current_view_holds; solve [framed_auto]
  end.

Lemma step_not_current st :
  is_window_init st = false -> holds context_not_current not_drawing (step st).
Proof.
  destruct st as [cmd|rect|ev|q|b|]; simpl; intros Hinit.
  - unfold _glfmOnAppCmd. rewrite Hinit.
    repeat match goal with
           | |- holds _ _ (if ?b then _ else _) => destruct b
           end;
      repeat not_current_step.
  - apply holds_bind; [apply current_view_holds; framed_auto|intros _].
    unfold _glfmOnAppCmd. change (APP_CMD_CONTENT_RECT_CHANGED =? APP_CMD_SAVE_STATE) with false.
    cbn [Z.eqb APP_CMD_CONTENT_RECT_CHANGED APP_CMD_SAVE_STATE APP_CMD_INIT_WINDOW
         APP_CMD_WINDOW_RESIZED APP_CMD_TERM_WINDOW APP_CMD_WINDOW_REDRAW_NEEDED
         APP_CMD_GAINED_FOCUS APP_CMD_LOST_FOCUS Pos.eqb].
    repeat not_current_step.
  - repeat not_current_step.
  - unfold main_loop_frame. repeat not_current_step.
  - repeat not_current_step.
  - unfold main_loop_destroy. repeat not_current_step.
Qed.

(** X1. Without a current context nothing is drawn until a window-init command
    arrives: a run of steps with no window-init among them leaves the
    context-current flag unset and makes neither the render nor the refresh
    callback. *)
Theorem nothing_drawn_until_window_init steps s :
  eglContextCurrent (plat s) = false ->
  no_window_init steps = true ->
  eglContextCurrent (plat (exec (run steps) s)) = false /\
  forallb not_drawing (events_since s (exec (run steps) s)) = true.
Proof.
  intros Hs Hsteps.
  assert (H : holds context_not_current not_drawing (run steps)).
  { apply holds_run. intros st Hin. apply step_not_current.
    unfold no_window_init in Hsteps. rewrite forallb_forall in Hsteps.
    apply negb_true_iff. apply Hsteps. exact Hin. }
  destruct (H s Hs) as (H1 & l & Hl & Hp).
  split; [exact H1|]. rewrite (events_since_app _ _ _ Hl). exact Hp.
Qed.

Lemma nothing_drawn_until_window_init_witness :
  eglContextCurrent (plat (exec (run steps_after_window_loss) sys_window_lost)) = false /\
  forallb not_drawing
    (events_since sys_window_lost (exec (run steps_after_window_loss) sys_window_lost)) =
  true.
Proof.
  apply (nothing_drawn_until_window_init steps_after_window_loss sys_window_lost).
  - vm_compute. reflexivity.
  - vm_compute. reflexivity.
Defined.

(** ** Context creation, best version first *)

Lemma skipn_log_app {A} (l x : list A) : skipn (length l) (l ++ x) = x.
Proof. rewrite skipn_app, skipn_all, Nat.sub_diag. reflexivity. Qed.

(** Runs the code on a symbolic state: the monad is unfolded, and a branch
    on a value that is not known is followed both ways. *)
Ltac run_monad :=
  repeat progress
   (cbv beta iota zeta delta
      [exec eval bind ret get modify emit ask when fst snd plat env log ExtCall_eqb];
    cbn [negb andb orb Z.eqb Pos.eqb EGL_NO_DISPLAY EGL_NO_SURFACE EGL_NO_CONTEXT
       app multitouchEnabled keyboardFrame keyboardVisible animating hasInited
       refreshRequested swapCalled eglDisplay eglSurface eglContext
       eglContextCurrent width height scale resizeEventWaitFrames
       display renderingAPI sensorEventQueue sensorEventValid deviceSensorEnabled
       orientation
       set_app set_multitouchEnabled set_keyboardFrame set_keyboardVisible
       set_animating set_hasInited set_refreshRequested set_swapCalled
       set_eglDisplay set_eglSurface set_eglContext set_eglContextCurrent
       set_width set_height set_resizeEventWaitFrames set_renderingAPI
       set_sensorEventQueue set_sensorEventValid set_deviceSensorEnabled
       set_orientation]).

Ltac split_cond b :=
  lazymatch b with
  | negb ?c => split_cond c
  | ?c && _ => split_cond c
  | ?c || _ => split_cond c
  | _ => first [ match goal with H : b = _ |- _ => rewrite H end
               | destruct b eqn:? ]
  end.

Ltac run_code :=
  run_monad;
  repeat (match goal with
          | |- context [(if ?b then _ else _) _] => split_cond b
          | |- context [let (_, _) := (if ?b then _ else _) in _] => split_cond b
          end; run_monad).

(** The events since the start, once the log is a chain of appends. *)
Ltac since_log :=
  unfold events_since; cbn [log]; rewrite <- ?app_assoc;
  first [ rewrite skipn_log_app | rewrite skipn_all, ?Nat.sub_diag ].

(** Rewrites with the cases [run_code] has left in the context. *)
Ltac use_cases :=
  repeat match goal with
         | H : _ = true |- _ => rewrite H; clear H
         | H : _ = false |- _ => rewrite H; clear H
         end.

(** X2. [_glfmEGLContextInit] asks for contexts best version first, from the
    preferred API down to OpenGL ES 2.0, and stops at the first that is
    created; when a context exists it asks for none. *)
Theorem context_versions_best_first s :
  filter is_context_creation (events_since s (exec _glfmEGLContextInit s)) =
  if eglContext (plat s) =? EGL_NO_CONTEXT
  then creation_attempts (context_versions (preferredAPI (display (plat s))))
                         (env s X_eglCreateContext)
  else [].
Proof.
  destruct s as [pd e l]. cbn [plat env log].
  unfold _glfmEGLContextInit, eglCreateContext, eglQueryContext.
  run_monad.
  destruct (eglContext pd =? EGL_NO_CONTEXT).
  - destruct (preferredAPI (display pd));
      cbn [api_rank Z.leb Z.compare Pos.compare Pos.compare_cont negb andb fst snd
           context_versions creation_attempts];
      run_code; since_log; cbn [filter List.app is_context_creation];
      repeat match goal with
             | H : (_ =? EGL_NO_CONTEXT) = _ |- _ => rewrite H; clear H
             end;
      reflexivity.
  - run_code; since_log; reflexivity.
Qed.

(** ** The context across the loss of the window *)

Section ContextKept.

Variables dpy ctx : Z.

Hypothesis have_display : dpy <> EGL_NO_DISPLAY.

Hypothesis have_context : ctx <> EGL_NO_CONTEXT.

Lemma context_view_holds {A} (m : M A) :
  framed context_view keep_none not_context_event m ->
  holds (context_is dpy ctx) not_context_event m.
Proof.
  apply holds_framed. unfold context_view, context_is.
  intros pd pd' H [H1 H2]. injection H as Hd Hc. split; congruence.
Qed.

Lemma _glfmEGLSurfaceDestroy_context_kept :
  holds (context_is dpy ctx) not_context_event _glfmEGLSurfaceDestroy.
Proof.
  apply context_view_holds.
  unfold _glfmEGLSurfaceDestroy, _glfmEGLContextDisable. repeat framed_basic.
Qed.

Lemma _glfmEGLSurfaceInit_context_kept :
  holds (context_is dpy ctx) not_context_event _glfmEGLSurfaceInit.
Proof.
  apply context_view_holds. unfold _glfmEGLSurfaceInit. repeat framed_basic.
Qed.

Lemma _glfmEGLContextInit_context_kept :
  holds (context_is dpy ctx) not_context_event _glfmEGLContextInit.
Proof.
  unfold _glfmEGLContextInit. apply holds_get_bind. intros pd [Hd Hc].
  rewrite Hc. destruct (ctx =? EGL_NO_CONTEXT) eqn:E.
  { apply Z.eqb_eq in E. contradiction. }
  apply holds_ret_bind. apply holds_get_bind. intros pd' _.
  apply context_view_holds. cbn [andb when]. repeat framed_basic.
Qed.

Lemma _glfmEGLInit_context_kept :
  holds (context_is dpy ctx) not_context_event _glfmEGLInit.
Proof.
  unfold _glfmEGLInit. apply holds_get_bind. intros pd [Hd Hc].
  rewrite Hd. destruct (dpy =? EGL_NO_DISPLAY) eqn:E.
  { apply Z.eqb_eq in E. contradiction. }
  cbn [negb].
  apply holds_bind; [apply _glfmEGLSurfaceInit_context_kept|intros _].
  apply _glfmEGLContextInit_context_kept.
Qed.

Lemma term_window_context_kept :
  holds (context_is dpy ctx) not_context_event (_glfmOnAppCmd APP_CMD_TERM_WINDOW).
Proof.
  change (_glfmOnAppCmd APP_CMD_TERM_WINDOW)
    with (_glfmEGLSurfaceDestroy ;; _glfmSetAnimating false).
  apply holds_bind; [apply _glfmEGLSurfaceDestroy_context_kept|intros _].
  apply context_view_holds. framed_auto.
Qed.

End ContextKept.

(** X3. The context outlives the window.  With a display and a context in
    place, window-terminated destroys the surface only, and the next
    [_glfmEGLInit] makes a surface and binds the context that is there: the
    display and the context are the same afterwards, and in between no
    context is created or destroyed, the display is not initialised or
    terminated, and no surface-created or surface-destroyed callback is
    made. *)
Theorem context_survives_window_loss s :
  eglDisplay (plat s) <> EGL_NO_DISPLAY ->
  eglContext (plat s) <> EGL_NO_CONTEXT ->
  let s1 := exec (_glfmOnAppCmd APP_CMD_TERM_WINDOW) s in
  let s2 := exec _glfmEGLInit s1 in
  eglSurface (plat s1) = EGL_NO_SURFACE /\
  eglDisplay (plat s2) = eglDisplay (plat s) /\
  eglContext (plat s2) = eglContext (plat s) /\
  forallb not_context_event (events_since s s2) = true.
Proof.
  intros Hd Hc s1 s2.
  assert (H : holds (context_is (eglDisplay (plat s)) (eglContext (plat s)))
                    not_context_event
                    (_glfmOnAppCmd APP_CMD_TERM_WINDOW ;; _glfmEGLInit)).
  { apply holds_bind; [apply term_window_context_kept|intros _].
    apply _glfmEGLInit_context_kept; assumption. }
  destruct (H s (conj eq_refl eq_refl)) as ((H1 & H2) & l & Hl & Hp).
  rewrite exec_bind in H1, H2, Hl. fold s1 in H1, H2, Hl. fold s2 in H1, H2, Hl.
  split; [|split; [exact H1|split; [exact H2|]]].
  - assert (Hs : framed eglSurface keep_none any_event (_glfmSetAnimating false))
      by framed_auto.
    subst s1. change (_glfmOnAppCmd APP_CMD_TERM_WINDOW)
      with (_glfmEGLSurfaceDestroy ;; _glfmSetAnimating false).
    rewrite exec_bind. destruct (Hs (exec _glfmEGLSurfaceDestroy s)) as (Hv & _).
    rewrite Hv. destruct s as [pd e l0].
    unfold _glfmEGLSurfaceDestroy, _glfmEGLContextDisable.
    run_code; first [reflexivity | apply Z.eqb_eq; assumption].
  - rewrite (events_since_app _ _ _ Hl). exact Hp.
Qed.

Lemma context_survives_window_loss_witness :
  eglSurface (plat (exec (_glfmOnAppCmd APP_CMD_TERM_WINDOW) sys_window_ready)) =
    EGL_NO_SURFACE /\
  eglDisplay (plat (exec _glfmEGLInit
                      (exec (_glfmOnAppCmd APP_CMD_TERM_WINDOW) sys_window_ready))) =
    eglDisplay (plat sys_window_ready) /\
  eglContext (plat (exec _glfmEGLInit
                      (exec (_glfmOnAppCmd APP_CMD_TERM_WINDOW) sys_window_ready))) =
    eglContext (plat sys_window_ready) /\
  forallb not_context_event
    (events_since sys_window_ready
       (exec _glfmEGLInit
          (exec (_glfmOnAppCmd APP_CMD_TERM_WINDOW) sys_window_ready))) = true.
Proof.
  apply (context_survives_window_loss sys_window_ready).
  - vm_compute. lia.
  - vm_compute. lia.
Defined.

(** ** Recovery from a bad surface *)

(** X4. On [EGL_BAD_SURFACE] [_glfmEGLCheckError] replaces the surface and
    nothing else: the display and the context are kept, no callback is
    made, and the context is left not current, so that nothing is drawn
    until the next window-init binds it again. *)
Theorem bad_surface_recovery s :
  hd 0 (env s X_eglGetError) = EGL_BAD_SURFACE ->
  let s' := exec _glfmEGLCheckError s in
  eglDisplay (plat s') = eglDisplay (plat s) /\
  eglContext (plat s') = eglContext (plat s) /\
  eglSurface (plat s') = hd 0 (env s X_eglCreateWindowSurface) /\
  eglContextCurrent (plat s') = false /\
  events_since s s' =
    (if eglSurface (plat s) =? EGL_NO_SURFACE then []
     else [Egl_DestroySurface (eglSurface (plat s))]) ++
    (if eglDisplay (plat s) =? EGL_NO_DISPLAY then [] else [Egl_UnbindContext]) ++
    [Egl_CreateWindowSurface (hd 0 (env s X_eglCreateWindowSurface))].
Proof.
  intros Herr s'. subst s'. destruct s as [pd e l]. cbn [plat env log] in *.
  unfold _glfmEGLCheckError, _glfmEGLSurfaceDestroy, _glfmEGLContextDisable,
    _glfmEGLSurfaceInit.
  run_monad. rewrite Herr. cbn [Z.eqb EGL_BAD_SURFACE Pos.eqb].
  run_code; repeat split; try reflexivity; since_log; use_cases; reflexivity.
Qed.

Lemma bad_surface_recovery_witness :
  eglDisplay (plat (exec _glfmEGLCheckError sys_bad_surface)) = 1 /\
  eglContext (plat (exec _glfmEGLCheckError sys_bad_surface)) = 5 /\
  eglSurface (plat (exec _glfmEGLCheckError sys_bad_surface)) = 8 /\
  eglContextCurrent (plat (exec _glfmEGLCheckError sys_bad_surface)) = false /\
  events_since sys_bad_surface (exec _glfmEGLCheckError sys_bad_surface) =
    [Egl_DestroySurface 7; Egl_UnbindContext; Egl_CreateWindowSurface 8].
Proof.
  apply (bad_surface_recovery sys_bad_surface). reflexivity.
Defined.

(** ** Recovery from a lost context *)

(** Runs [_glfmEGLContextInit] on a state without context, one case per
    preferred API and answer. *)
Ltac run_fresh_context pd Hctx :=
  unfold _glfmEGLContextInit, eglCreateContext, eglQueryContext;
  run_monad; rewrite Hctx; run_monad;
  destruct (preferredAPI (display pd));
  cbn [api_rank Z.leb Z.compare Pos.compare Pos.compare_cont negb andb fst snd
       context_versions creation_attempts created_handle];
  run_code.

Lemma fresh_context_current s :
  eglContext (plat s) = EGL_NO_CONTEXT ->
  eglContextCurrent (plat (exec _glfmEGLContextInit s)) =
  negb (hd 0 (env s X_eglMakeCurrent) =? 0).
Proof.
  intros Hctx. destruct s as [pd e l]. cbn [plat env log] in *.
  run_fresh_context pd Hctx; reflexivity.
Qed.

Lemma fresh_context_handle s :
  eglContext (plat s) = EGL_NO_CONTEXT ->
  eglContext (plat (exec _glfmEGLContextInit s)) =
  created_handle (context_versions (preferredAPI (display (plat s))))
                 (env s X_eglCreateContext).
Proof.
  intros Hctx. destruct s as [pd e l]. cbn [plat env log] in *.
  run_fresh_context pd Hctx; use_cases;
    first [ reflexivity | symmetry; apply Z.eqb_eq; assumption ].
Qed.

Lemma fresh_context_events s :
  eglContext (plat s) = EGL_NO_CONTEXT ->
  let handle := created_handle (context_versions (preferredAPI (display (plat s))))
                               (env s X_eglCreateContext) in
  let bound := negb (hd 0 (env s X_eglMakeCurrent) =? 0) in
  events_since s (exec _glfmEGLContextInit s) =
    creation_attempts (context_versions (preferredAPI (display (plat s))))
                      (env s X_eglCreateContext) ++
    [Egl_BindContext (eglSurface (plat s)) handle bound] ++
    (if bound && negb (handle =? EGL_NO_CONTEXT) && surfaceCreatedFunc (display (plat s))
     then [CbSurfaceCreated (width (plat s)) (height (plat s))] else []).
Proof.
  intros Hctx handle bound. subst handle bound.
  destruct s as [pd e l]. cbn [plat env log] in *.
  run_fresh_context pd Hctx; since_log;
    repeat match goal with
           | H : (_ =? EGL_NO_CONTEXT) = true |- _ =>
               apply Z.eqb_eq in H; rewrite ?H; clear H
           end;
    use_cases; cbn [negb andb List.app Z.eqb EGL_NO_CONTEXT]; reflexivity.
Qed.

Lemma context_lost_unfold s :
  context_lost_error (hd 0 (env s X_eglGetError)) = true ->
  eglContext (plat s) <> EGL_NO_CONTEXT ->
  exec _glfmEGLCheckError s = exec _glfmEGLContextInit (exec forget_context s).
Proof.
  intros Herr Hctx. unfold context_lost_error in Herr. apply Z.eqb_neq in Hctx.
  unfold _glfmEGLCheckError, forget_context.
  rewrite (exec_bind (ask X_eglGetError) _ s), (exec_bind (ask X_eglGetError) _ s).
  change (eval (ask X_eglGetError) s) with (hd 0 (env s X_eglGetError)).
  set (s0 := exec (ask X_eglGetError) s).
  assert (Hp : plat s0 = plat s) by reflexivity. clearbody s0.
  destruct (hd 0 (env s X_eglGetError) =? EGL_BAD_SURFACE) eqn:Eb.
  { apply Z.eqb_eq in Eb. rewrite Eb in Herr. discriminate Herr. }
  rewrite Herr.
  rewrite (exec_bind get _ s0), (exec_bind get _ s0).
  change (eval get s0) with (plat s0). change (exec get s0) with s0.
  rewrite Hp, Hctx. cbn [negb when].
  rewrite exec_bind, exec_bind. change (exec (ret tt) ?x) with x.
  f_equal.
Qed.

Lemma forget_context_run s :
  exec forget_context s =
  mkSys (set_eglContextCurrent false (set_eglContext EGL_NO_CONTEXT (plat s)))
        (fun c' => if ExtCall_eqb X_eglGetError c'
                   then tl (env s X_eglGetError) else env s c')
        (log s ++ if surfaceDestroyedFunc (display (plat s)) then [CbSurfaceDestroyed]
                  else []).
Proof.
  destruct s as [pd e l]. unfold forget_context, exec, bind, ask, get, modify, when.
  cbn [plat env log snd].
  destruct (surfaceDestroyedFunc (display pd)); cbn [snd emit ret plat env log].
  - reflexivity.
  - rewrite app_nil_r. reflexivity.
Qed.

(** X5. When a context is lost [_glfmEGLCheckError] forgets it without
    destroying it, makes the surface-destroyed callback, and asks for a new
    context best version first; when one is created and bound, the
    surface-created callback follows with the stored size.  The embedder
    sees surface-destroyed before surface-created. *)
Theorem context_lost_recovery s :
  context_lost_error (hd 0 (env s X_eglGetError)) = true ->
  eglContext (plat s) <> EGL_NO_CONTEXT ->
  let s' := exec _glfmEGLCheckError s in
  let bound := negb (hd 0 (env s X_eglMakeCurrent) =? 0) in
  eglContextCurrent (plat s') = bound /\
  events_since s s' =
    (if surfaceDestroyedFunc (display (plat s)) then [CbSurfaceDestroyed] else []) ++
    creation_attempts (context_versions (preferredAPI (display (plat s))))
                      (env s X_eglCreateContext) ++
    [Egl_BindContext (eglSurface (plat s)) (eglContext (plat s')) bound] ++
    (if bound && negb (eglContext (plat s') =? EGL_NO_CONTEXT) &&
        surfaceCreatedFunc (display (plat s))
     then [CbSurfaceCreated (width (plat s)) (height (plat s))] else []).
Proof.
  intros Herr Hctx s' bound. subst s' bound.
  rewrite (context_lost_unfold s Herr Hctx).
  rewrite (forget_context_run s).
  set (s1 := mkSys _ _ _).
  assert (H1 : eglContext (plat s1) = EGL_NO_CONTEXT) by reflexivity.
  assert (Hd : display (plat s1) = display (plat s)) by reflexivity.
  assert (Hs : eglSurface (plat s1) = eglSurface (plat s)) by reflexivity.
  assert (Hw : width (plat s1) = width (plat s)) by reflexivity.
  assert (Hh : height (plat s1) = height (plat s)) by reflexivity.
  assert (Hm : env s1 X_eglMakeCurrent = env s X_eglMakeCurrent) by reflexivity.
  assert (Hc : env s1 X_eglCreateContext = env s X_eglCreateContext) by reflexivity.
  assert (Hl : log s1 = log s ++
                 if surfaceDestroyedFunc (display (plat s)) then [CbSurfaceDestroyed]
                 else []) by reflexivity.
  clearbody s1.
  rewrite (fresh_context_current s1 H1), (fresh_context_handle s1 H1).
  pose proof (fresh_context_events s1 H1) as He. cbv zeta in He.
  rewrite Hd, Hs, Hw, Hh, Hm, Hc in *.
  split; [reflexivity|].
  apply events_since_app.
  assert (Hlog : log (exec _glfmEGLContextInit s1) =
                 log s1 ++ events_since s1 (exec _glfmEGLContextInit s1)).
  { assert (Ht : egl_transparent no_view keep_none any_event).
    { split; [reflexivity|]. split; [reflexivity|]. intros e _. reflexivity. }
    destruct (framed_EGLContextInit no_view keep_none any_event Ht s1)
      as (_ & _ & l1 & Hl1 & _).
    rewrite (events_since_app _ _ _ Hl1). exact Hl1. }
  rewrite Hlog, He, Hl, <- app_assoc. reflexivity.
Qed.

Lemma context_lost_recovery_witness :
  eglContextCurrent (plat (exec _glfmEGLCheckError sys_context_lost)) =
    negb (hd 0 (env sys_context_lost X_eglMakeCurrent) =? 0) /\
  events_since sys_context_lost (exec _glfmEGLCheckError sys_context_lost) =
    (if surfaceDestroyedFunc (display (plat sys_context_lost))
     then [CbSurfaceDestroyed] else []) ++
    creation_attempts (context_versions (preferredAPI (display (plat sys_context_lost))))
                      (env sys_context_lost X_eglCreateContext) ++
    [Egl_BindContext (eglSurface (plat sys_context_lost))
       (eglContext (plat (exec _glfmEGLCheckError sys_context_lost)))
       (negb (hd 0 (env sys_context_lost X_eglMakeCurrent) =? 0))] ++
    (if negb (hd 0 (env sys_context_lost X_eglMakeCurrent) =? 0) &&
        negb (eglContext (plat (exec _glfmEGLCheckError sys_context_lost)) =?
              EGL_NO_CONTEXT) &&
        surfaceCreatedFunc (display (plat sys_context_lost))
     then [CbSurfaceCreated (width (plat sys_context_lost))
                            (height (plat sys_context_lost))] else []).
Proof.
  assert (Hc : eglContext (plat sys_context_lost) <> EGL_NO_CONTEXT)
    by (vm_compute; lia).
  exact (context_lost_recovery sys_context_lost eq_refl Hc).
Defined.

(** The recovery on [sys_context_lost], event by event. *)
Example context_lost_recovery_log :
  events_since sys_context_lost (exec _glfmEGLCheckError sys_context_lost) =
  [CbSurfaceDestroyed; Egl_CreateContext 2 0 6; Egl_BindContext 7 6 true;
   CbSurfaceCreated 1080 1920].
Proof. reflexivity. Qed.

(** ** No configuration *)

Lemma zeros_hd l : forallb (Z.eqb 0) l = true -> hd 0 l = 0.
Proof.
  destruct l as [|x l]; [reflexivity|]. cbn [forallb hd]. intros H.
  apply andb_true_iff in H. destruct H as [H _]. apply Z.eqb_eq in H. auto.
Qed.

Lemma zeros_tl l : forallb (Z.eqb 0) l = true -> forallb (Z.eqb 0) (tl l) = true.
Proof.
  destruct l as [|x l]; [reflexivity|]. cbn [forallb tl]. intros H.
  apply andb_true_iff in H. tauto.
Qed.

(** X6. When no configuration is found, whatever is relaxed, [_glfmEGLInit]
    reports the error, terminates the display it has just initialised and
    returns false: the display is left unset, and no surface and no context
    is asked for. *)
Theorem egl_init_without_config s :
  eglDisplay (plat s) = EGL_NO_DISPLAY ->
  no_config s = true ->
  let s' := exec _glfmEGLInit s in
  eval _glfmEGLInit s = false /\
  eglDisplay (plat s') = EGL_NO_DISPLAY /\
  eglSurface (plat s') = eglSurface (plat s) /\
  eglContext (plat s') = eglContext (plat s) /\
  eglContextCurrent (plat s') = eglContextCurrent (plat s) /\
  events_since s s' =
    [Egl_Initialize (hd 0 (env s X_eglGetDisplay)); Glfm_reportSurfaceError;
     Egl_Terminate].
Proof.
  intros Hd Hz s'. subst s'. destruct s as [pd e l].
  unfold no_config in Hz. cbn [plat env log] in *.
  pose proof (zeros_hd _ Hz) as H0.
  pose proof (zeros_hd _ (zeros_tl _ Hz)) as H1.
  pose proof (zeros_hd _ (zeros_tl _ (zeros_tl _ Hz))) as H2.
  pose proof (zeros_hd _ (zeros_tl _ (zeros_tl _ (zeros_tl _ Hz)))) as H3.
  pose proof (zeros_hd _ (zeros_tl _ (zeros_tl _ (zeros_tl _ (zeros_tl _ Hz))))) as H4.
  unfold _glfmEGLInit, initial_samples, initial_depthBits.
  run_monad. rewrite Hd. run_monad.
  destruct (depthFormat (display pd)), (stencilFormat (display pd)),
           (multisample (display pd));
    cbn [eglChooseConfig_loop Z.ltb Z.compare Pos.compare Pos.compare_cont Z.sub
         Z.add Z.opp Z.pos_sub Pos.pred_double Z.succ_double Z.pred_double Z.double];
    repeat (run_monad; rewrite ?H0, ?H1, ?H2, ?H3, ?H4;
            cbn [eglChooseConfig_loop Z.ltb Z.compare Pos.compare Pos.compare_cont
                 Z.sub Z.add Z.opp Z.pos_sub Pos.pred_double Z.succ_double
                 Z.pred_double Z.double Z.eqb negb]);
    repeat split; since_log; reflexivity.
Qed.

Lemma egl_init_without_config_witness :
  eval _glfmEGLInit sys_no_config = false /\
  eglDisplay (plat (exec _glfmEGLInit sys_no_config)) = EGL_NO_DISPLAY /\
  eglSurface (plat (exec _glfmEGLInit sys_no_config)) = eglSurface (plat sys_no_config) /\
  eglContext (plat (exec _glfmEGLInit sys_no_config)) = eglContext (plat sys_no_config) /\
  eglContextCurrent (plat (exec _glfmEGLInit sys_no_config)) =
    eglContextCurrent (plat sys_no_config) /\
  events_since sys_no_config (exec _glfmEGLInit sys_no_config) =
    [Egl_Initialize 1; Glfm_reportSurfaceError; Egl_Terminate].
Proof.
  apply (egl_init_without_config sys_no_config); reflexivity.
Defined.

(** ** Key events *)

Lemma char_path_no_key event :
  framed whole_view keep_keyFunc not_key_event (char_path event).
Proof. framed_auto. Qed.

Lemma answered_pair (l : list Z) (n : nat) :
  existsb answered_true (firstn (2 * S n) l) =
  answered_true (hd 0 l) || answered_true (hd 0 (tl l)) ||
  existsb answered_true (firstn (2 * n) (tl (tl l))).
Proof.
  replace (2 * S n)%nat with (S (S (2 * n))) by lia.
  destruct l as [|a [|b l]]; cbn [firstn existsb hd tl]; rewrite ?firstn_nil;
    cbn [existsb]; change (answered_true 0) with false;
    rewrite ?orb_false_r, ?orb_assoc; reflexivity.
Qed.

Lemma multiple_body_run key h s :
  multiple_body key h s =
  (Z.lor (Z.lor h (if hd 0 (env s X_keyFunc) =? 0 then 0 else 1))
         (if hd 0 (tl (env s X_keyFunc)) =? 0 then 0 else 1),
   mkSys (plat s)
         (fun c' => if ExtCall_eqb X_keyFunc c'
                    then tl (if ExtCall_eqb X_keyFunc X_keyFunc
                             then tl (env s X_keyFunc) else env s X_keyFunc)
                    else if ExtCall_eqb X_keyFunc c'
                         then tl (env s X_keyFunc) else env s c')
         ((log s ++ [CbKey key GLFMKeyActionPressed]) ++
          [CbKey key GLFMKeyActionReleased])).
Proof. reflexivity. Qed.

(** The loop of the multiple action: a pressed and a released callback per
    round, and a result that tells whether any of them answered true. *)
Lemma repeat_handled_keys key n :
  forall h s, h = 0 \/ h = 1 ->
    let m := repeat_handled n (multiple_body key) h in
    plat (exec m s) = plat s /\
    log (exec m s) = log s ++ concat (repeat (press_release key) n) /\
    (forall c, keep_keyFunc c = false -> env (exec m s) c = env s c) /\
    eval m s =
      if (h =? 1) || existsb answered_true (firstn (2 * n) (env s X_keyFunc))
      then 1 else 0.
Proof.
  induction n as [|n IH]; intros h s Hh m; subst m.
  - cbn [repeat_handled repeat concat]. unfold exec, eval, ret. cbn [fst snd].
    rewrite app_nil_r, orb_false_r. repeat split.
    destruct Hh as [-> | ->]; reflexivity.
  - cbn [repeat_handled]. rewrite exec_bind, eval_bind.
    set (h' := eval (multiple_body key h) s).
    set (s' := exec (multiple_body key h) s).
    assert (Eh : h' = Z.lor (Z.lor h (if hd 0 (env s X_keyFunc) =? 0 then 0 else 1))
                            (if hd 0 (tl (env s X_keyFunc)) =? 0 then 0 else 1))
      by reflexivity.
    assert (Ep : plat s' = plat s) by reflexivity.
    assert (El : log s' = log s ++ press_release key).
    { subst s'. unfold exec. rewrite multiple_body_run. cbn [snd log].
      rewrite <- app_assoc. reflexivity. }
    assert (Ek : env s' X_keyFunc = tl (tl (env s X_keyFunc))) by reflexivity.
    assert (Ee : forall c, keep_keyFunc c = false -> env s' c = env s c).
    { intros c Hc. destruct c; try reflexivity. discriminate Hc. }
    assert (Hh' : h' = 0 \/ h' = 1).
    { rewrite Eh. destruct Hh as [-> | ->];
        destruct (hd 0 (env s X_keyFunc) =? 0), (hd 0 (tl (env s X_keyFunc)) =? 0);
        cbn; auto. }
    destruct (IH h' s' Hh') as (H1 & H2 & H3 & H4).
    clearbody s' h'.
    rewrite H1, H2, H4, Ep, El, Ek.
    split; [reflexivity|]. split.
    { cbn [repeat concat]. rewrite <- !app_assoc. reflexivity. }
    split.
    { intros c Hc. rewrite (H3 c Hc). apply Ee, Hc. }
    rewrite answered_pair, Eh. unfold answered_true.
    destruct Hh as [-> | ->];
      destruct (hd 0 (env s X_keyFunc) =? 0), (hd 0 (tl (env s X_keyFunc)) =? 0);
      reflexivity.
Qed.

Lemma key_path_multiple event s :
  AKeyEvent_getAction event = AKEY_EVENT_ACTION_MULTIPLE ->
  keyFunc (display (plat s)) = true ->
  key_mapped (AKeyEvent_getKeyCode event) = true ->
  key_path event s =
  repeat_handled (Z.to_nat (AKeyEvent_getRepeatCount event))
    (multiple_body (key_of_keycode (AKeyEvent_getKeyCode event))) 0 s.
Proof.
  intros Ha Hk Hm. unfold key_mapped in Hm. apply andb_true_iff in Hm.
  destruct Hm as [Hm1 Hm2].
  unfold key_path, bind at 1, get. rewrite Hk, Hm1, Hm2, Ha. reflexivity.
Qed.

(** X7. A key event with the multiple action makes, for a key of the table, a
    pressed and a released key callback per repeat count, in this order,
    and is reported handled exactly when one of these callbacks returned
    true. *)
Theorem key_multiple_press_release event s :
  AInputEvent_getType event = AINPUT_EVENT_TYPE_KEY ->
  AKeyEvent_getAction event = AKEY_EVENT_ACTION_MULTIPLE ->
  keyFunc (display (plat s)) = true ->
  key_mapped (AKeyEvent_getKeyCode event) = true ->
  let key := key_of_keycode (AKeyEvent_getKeyCode event) in
  let n := Z.to_nat (AKeyEvent_getRepeatCount event) in
  filter is_key_event (events_since s (exec (_glfmOnInputEvent event) s)) =
    concat (repeat (press_release key) n) /\
  eval (_glfmOnInputEvent event) s =
    if existsb answered_true (firstn (2 * n) (env s X_keyFunc)) then 1 else 0.
Proof.
  intros Ht Ha Hk Hm key n.
  unfold _glfmOnInputEvent. rewrite Ht.
  change (AINPUT_EVENT_TYPE_KEY =? AINPUT_EVENT_TYPE_KEY) with true. cbv iota.
  rewrite exec_bind, eval_bind, exec_bind, eval_bind.
  change (eval (ret ?a) _) with a.
  change (exec (ret ?a) ?s') with s'.
  unfold exec at 2, eval. rewrite (key_path_multiple event s Ha Hk Hm).
  destruct (repeat_handled_keys key n 0 s (or_introl eq_refl)) as (H1 & H2 & H3 & H4).
  fold key n. split.
  - destruct (char_path_no_key event (exec (repeat_handled n (multiple_body key) 0) s))
      as (_ & _ & lc & Hlc & Hpc).
    unfold exec in Hlc, H2 |- *. unfold events_since.
    rewrite Hlc, H2, <- app_assoc, skipn_log_app, filter_app.
    assert (Hnone : filter is_key_event lc = []).
    { clear Hlc. induction lc as [|e lc IH]; [reflexivity|].
      cbn [forallb] in Hpc. apply andb_true_iff in Hpc. destruct Hpc as [He Hpc].
      cbn [filter]. unfold not_key_event in He. apply negb_true_iff in He.
      rewrite He. apply IH, Hpc. }
    rewrite Hnone, app_nil_r.
    clear. induction n as [|n IH]; [reflexivity|].
    cbn [repeat concat]. rewrite filter_app, IH. reflexivity.
  - unfold eval in H4. rewrite H4. reflexivity.
Qed.

Lemma key_multiple_press_release_witness :
  filter is_key_event
    (events_since sys_key_answers
       (exec (_glfmOnInputEvent (key_event AKEYCODE_A AKEY_EVENT_ACTION_MULTIPLE 2))
             sys_key_answers)) =
    [CbKey (GLFMKeyCode 65) GLFMKeyActionPressed; CbKey (GLFMKeyCode 65) GLFMKeyActionReleased;
     CbKey (GLFMKeyCode 65) GLFMKeyActionPressed; CbKey (GLFMKeyCode 65) GLFMKeyActionReleased] /\
  eval (_glfmOnInputEvent (key_event AKEYCODE_A AKEY_EVENT_ACTION_MULTIPLE 2))
       sys_key_answers = 1.
Proof.
  apply (key_multiple_press_release
           (key_event AKEYCODE_A AKEY_EVENT_ACTION_MULTIPLE 2) sys_key_answers);
    reflexivity.
Defined.

(** ** The back button *)

Lemma forallb_not_back_In l : forallb not_back l = true -> ~ In Jni_moveTaskToBack l.
Proof.
  intros H Hin. rewrite forallb_forall in H. specialize (H _ Hin). discriminate H.
Qed.

Lemma char_path_not_back event :
  framed whole_view keep_keyFunc not_back (char_path event).
Proof. framed_auto. Qed.

Lemma touch_path_not_back event :
  framed whole_view keep_keyFunc not_back (touch_path event).
Proof. framed_auto. Qed.

(** [key_path] when the key is not the back key, or is not released. *)
Lemma key_path_not_back event s :
  (AKeyEvent_getKeyCode event =? AKEYCODE_BACK) &&
  (AKeyEvent_getAction event =? AKEY_EVENT_ACTION_UP) = false ->
  exists l, log (exec (key_path event) s) = log s ++ l /\ forallb not_back l = true.
Proof.
  intros Hc.
  assert (H : framed whole_view keep_none not_back (key_path event)).
  { unfold key_path. apply framed_bind; [apply framed_get|intros pd].
    destruct (keyFunc (display pd)); [|apply framed_ret].
    destruct (negb (AKeyEvent_getKeyCode event =? 0)); [|apply framed_ret].
    destruct (negb (key_is_zero (key_of_keycode (AKeyEvent_getKeyCode event))));
      [|apply framed_ret].
    destruct (AKeyEvent_getAction event =? AKEY_EVENT_ACTION_UP).
    - rewrite andb_true_r in Hc. rewrite Hc.
      apply framed_bind; [unfold call_keyFunc; repeat framed_basic|intros h].
      rewrite andb_false_r. apply framed_ret.
    - unfold call_keyFunc. repeat framed_basic. }
  destruct (H s) as (_ & _ & Hl). exact Hl.
Qed.

(** [key_path] for the back key released. *)
Lemma key_path_back_released event s :
  keyFunc (display (plat s)) = true ->
  AKeyEvent_getKeyCode event = AKEYCODE_BACK ->
  AKeyEvent_getAction event = AKEY_EVENT_ACTION_UP ->
  key_path event s =
  (handled <- call_keyFunc GLFMKeyNavBack GLFMKeyActionReleased ;;
   if handled =? 0 then b <- _glfmHandleBackButton ;; ret (if b then 1 else 0)
   else ret handled) s.
Proof.
  intros Hk Hc Ha. unfold key_path, bind at 1, get. rewrite Hk, Hc, Ha.
  cbn [AKEYCODE_BACK Z.eqb negb key_of_keycode key_is_zero Pos.eqb
       AKEYCODE_DPAD_LEFT AKEYCODE_DPAD_RIGHT AKEYCODE_DPAD_UP AKEYCODE_DPAD_DOWN
       AKEYCODE_ENTER AKEYCODE_DPAD_CENTER AKEYCODE_TAB AKEYCODE_SPACE orb
       AKEY_EVENT_ACTION_UP].
  unfold bind. destruct (call_keyFunc GLFMKeyNavBack GLFMKeyActionReleased s) as [h s1].
  rewrite andb_true_r. reflexivity.
Qed.

(** X8. The task is moved to the back exactly for a back key released that a
    registered key callback has declined, with no Java exception pending
    when the callback has returned.  The event is then reported handled
    when [moveTaskToBack] says so and has not thrown; with an exception
    pending the call is not made and the event is not handled.  With no
    key callback registered the back key is never handled here. *)
Theorem back_button_declined event s :
  let s' := exec (_glfmOnInputEvent event) s in
  forallb not_back (events_since s s') =
    negb (back_declined event s && negb (exception_pending s)) /\
  (back_declined event s = true ->
   eval (_glfmOnInputEvent event) s =
     if exception_pending s then 0
     else if call_threw s then 0
     else if hd 0 (env s X_moveTaskToBack) =? 0 then 0 else 1).
Proof.
  intros s'. subst s'. unfold back_declined, exception_pending, call_threw, _glfmOnInputEvent.
  destruct (AInputEvent_getType event =? AINPUT_EVENT_TYPE_KEY) eqn:Et.
  2:{ cbn [andb negb]. split; [|discriminate].
      destruct (AInputEvent_getType event =? AINPUT_EVENT_TYPE_MOTION).
      - rewrite exec_bind.
        destruct (touch_path_not_back event s) as (_ & _ & l & Hl & Hp).
        change (exec (ret 1) ?x) with x.
        rewrite (events_since_app _ _ _ Hl). exact Hp.
      - rewrite (events_since_app s _ []); [reflexivity|].
        symmetry; apply app_nil_r. }
  cbn [andb]. rewrite exec_bind, eval_bind, exec_bind, eval_bind.
  change (eval (ret ?a) _) with a. change (exec (ret ?a) ?x) with x.
  destruct (char_path_not_back event (exec (key_path event) s))
    as (_ & Hk & lc & Hlc & Hpc).
  destruct (keyFunc (display (plat s))) eqn:Hkf.
  2:{ cbn [andb negb]. split; [|discriminate].
      assert (E : exec (key_path event) s = s).
      { unfold exec, key_path, bind, get. rewrite Hkf. reflexivity. }
      rewrite E in *. rewrite (events_since_app _ _ _ Hlc). exact Hpc. }
  cbn [andb].
  destruct ((AKeyEvent_getKeyCode event =? AKEYCODE_BACK) &&
            (AKeyEvent_getAction event =? AKEY_EVENT_ACTION_UP)) eqn:Hba.
  2:{ cbn [andb negb]. split; [|discriminate].
      destruct (key_path_not_back event s Hba) as (lk & Hlk & Hpk).
      rewrite (events_since_app s _ (lk ++ lc)).
      - rewrite forallb_app, Hpk, Hpc. reflexivity.
      - rewrite Hlc, Hlk, app_assoc. reflexivity. }
  cbn [andb].
  apply andb_true_iff in Hba. destruct Hba as [Hc Ha].
  apply Z.eqb_eq in Hc, Ha.
  pose proof (key_path_back_released event s Hkf Hc Ha) as E.
  assert (Ex : exec (key_path event) s =
               exec (handled <- call_keyFunc GLFMKeyNavBack GLFMKeyActionReleased ;;
                     if handled =? 0
                     then b <- _glfmHandleBackButton ;; ret (if b then 1 else 0)
                     else ret handled) s)
    by (unfold exec; rewrite E; reflexivity).
  assert (Ev : eval (key_path event) s =
               eval (handled <- call_keyFunc GLFMKeyNavBack GLFMKeyActionReleased ;;
                     if handled =? 0
                     then b <- _glfmHandleBackButton ;; ret (if b then 1 else 0)
                     else ret handled) s)
    by (unfold eval; rewrite E; reflexivity).
  rewrite Ev. rewrite Ex in Hlc |- *. clear E Ex Ev Hk.
  set (s2 := exec (char_path event) _) in *. clearbody s2.
  destruct s as [pd e l]. cbn [env plat log] in *.
  unfold call_keyFunc, _glfmHandleBackButton, _glfmWasJavaExceptionThrown in *.
  revert Hlc. run_monad.
  destruct (hd 0 (e X_keyFunc) =? 0) eqn:Hh; run_monad.
  - destruct (hd 0 (e X_ExceptionCheck) =? 0) eqn:Hx; run_monad; intros Hlc;
      fold (log s2) in Hlc; rewrite <- ?app_assoc in Hlc;
      rewrite (events_since_app (mkSys pd e l) _ _ Hlc).
    + split; [reflexivity|]. intros _.
      destruct (hd 0 (tl (e X_ExceptionCheck)) =? 0), (hd 0 (e X_moveTaskToBack) =? 0);
        reflexivity.
    + split; [exact Hpc|]. intros _. reflexivity.
  - intros Hlc. fold (log s2) in Hlc. split; [|discriminate].
    rewrite <- ?app_assoc in Hlc.
    rewrite (events_since_app (mkSys pd e l) _ _ Hlc). exact Hpc.
Qed.

Lemma back_button_declined_witness :
  forallb not_back
    (events_since sys_back_handled
       (exec (_glfmOnInputEvent (key_event AKEYCODE_BACK AKEY_EVENT_ACTION_UP 0))
             sys_back_handled)) = false /\
  eval (_glfmOnInputEvent (key_event AKEYCODE_BACK AKEY_EVENT_ACTION_UP 0))
       sys_back_handled = 1.
Proof.
  destruct (back_button_declined (key_event AKEYCODE_BACK AKEY_EVENT_ACTION_UP 0)
              sys_back_handled) as [H1 H2].
  split; [exact H1|]. apply H2. reflexivity.
Defined.

(** With an exception pending the same event makes the key callback only
    and is not handled, whatever [moveTaskToBack] would answer. *)
Example back_button_exception_pending :
  events_since sys_exception_pending
    (exec (_glfmOnInputEvent (key_event AKEYCODE_BACK AKEY_EVENT_ACTION_UP 0))
          sys_exception_pending) = [CbKey GLFMKeyNavBack GLFMKeyActionReleased] /\
  eval (_glfmOnInputEvent (key_event AKEYCODE_BACK AKEY_EVENT_ACTION_UP 0))
       sys_exception_pending = 0.
Proof. split; reflexivity. Qed.

(** ** The keys given to the key callback *)

Lemma GLFMKey_eqb_eq a b : GLFMKey_eqb a b = true -> a = b.
Proof.
  destruct a, b; cbn; intros H; try reflexivity; try discriminate H.
  apply Z.eqb_eq in H. subst. reflexivity.
Qed.

Lemma GLFMKey_eqb_refl a : GLFMKey_eqb a a = true.
Proof. destruct a; cbn; auto. apply Z.eqb_refl. Qed.

Lemma key_of_keycode_deliverable c :
  key_is_zero (key_of_keycode c) = false -> deliverable_key (key_of_keycode c).
Proof.
  unfold key_of_keycode.
  repeat match goal with
         | |- context [if ?b then _ else _] => destruct b eqn:?
         end; cbn; auto; try discriminate.
  - intros _. left.
    apply andb_true_iff in Heqb8. destruct Heqb8 as [H1 H2].
    apply Z.leb_le in H1, H2. unfold AKEYCODE_0, AKEYCODE_9 in *. lia.
  - intros _. right.
    apply andb_true_iff in Heqb9. destruct Heqb9 as [H1 H2].
    apply Z.leb_le in H1, H2. unfold AKEYCODE_A, AKEYCODE_Z in *. lia.
Qed.

Lemma _glfmOnInputEvent_keys event :
  framed whole_view keep_none (key_callback_of event) (_glfmOnInputEvent event).
Proof.
  unfold _glfmOnInputEvent.
  destruct (AInputEvent_getType event =? AINPUT_EVENT_TYPE_KEY);
    [|solve [framed_auto]].
  apply framed_bind; [|intros h; solve [framed_auto]].
  unfold key_path. apply framed_bind; [apply framed_get|intros pd].
  destruct (keyFunc (display pd)); [|apply framed_ret].
  destruct (negb (AKeyEvent_getKeyCode event =? 0)) eqn:E1; [|apply framed_ret].
  destruct (negb (key_is_zero (key_of_keycode (AKeyEvent_getKeyCode event)))) eqn:E2;
    [|apply framed_ret].
  assert (HP : forall a,
             key_callback_of event
               (CbKey (key_of_keycode (AKeyEvent_getKeyCode event)) a) = true).
  { intros a. unfold key_callback_of, key_mapped.
    rewrite E1, E2, GLFMKey_eqb_refl. reflexivity. }
  unfold call_keyFunc, _glfmHandleBackButton, _glfmWasJavaExceptionThrown.
  repeat first [ apply framed_emit; first [apply HP | reflexivity] | framed_basic ].
Qed.

(** X9. The key callback is given nothing but the key of the event's key code,
    and only when the table has one for it: a named key, or the ASCII code
    of a digit or of a capital letter. *)
Theorem key_callback_keys event s key action :
  In (CbKey key action) (events_since s (exec (_glfmOnInputEvent event) s)) ->
  key = key_of_keycode (AKeyEvent_getKeyCode event) /\
  key_is_zero key = false /\
  deliverable_key key.
Proof.
  intros Hin.
  destruct (_glfmOnInputEvent_keys event s) as (_ & _ & l & Hl & Hp).
  rewrite (events_since_app _ _ _ Hl) in Hin.
  rewrite forallb_forall in Hp. specialize (Hp _ Hin).
  cbn [key_callback_of] in Hp. apply andb_true_iff in Hp. destruct Hp as [Hm He].
  apply GLFMKey_eqb_eq in He. subst key.
  unfold key_mapped in Hm. apply andb_true_iff in Hm. destruct Hm as [_ Hz].
  apply negb_true_iff in Hz.
  split; [reflexivity|]. split; [exact Hz|].
  apply key_of_keycode_deliverable, Hz.
Qed.

Lemma key_callback_keys_witness :
  GLFMKeyCode 65 = key_of_keycode AKEYCODE_A /\
  key_is_zero (GLFMKeyCode 65) = false /\
  deliverable_key (GLFMKeyCode 65).
Proof.
  apply (key_callback_keys (key_event AKEYCODE_A AKEY_EVENT_ACTION_DOWN 0) sys_idle
           (GLFMKeyCode 65) GLFMKeyActionPressed).
  vm_compute. left. reflexivity.
Defined.

(** ** The character callback at the edges *)

(** X10. What the C6 theorem leaves open.  On a key-down with a character
    callback registered: a lookup result below 32 makes no character
    callback, and a result of 0x110000 or more, as unsigned, makes the
    callback with the empty string. *)
Theorem char_callback_edges event s :
  AInputEvent_getType event = AINPUT_EVENT_TYPE_KEY ->
  AKeyEvent_getAction event = AKEY_EVENT_ACTION_DOWN ->
  charFunc (display (plat s)) = true ->
  let unicode := uint32 (hd 0 (env s X_getUnicodeChar)) in
  let l := events_since s (exec (_glfmOnInputEvent event) s) in
  (unicode < 32 -> char_events l = []) /\
  (0x110000 <= unicode -> char_events l = [CbChar []]).
Proof.
  intros Ht Ha Hcf unicode l. subst l.
  unfold _glfmOnInputEvent. rewrite Ht.
  change (AINPUT_EVENT_TYPE_KEY =? AINPUT_EVENT_TYPE_KEY) with true. cbv iota.
  rewrite exec_bind, exec_bind. change (exec (ret ?a) ?x) with x.
  destruct (key_path_frame event s) as (Hv & Hk & lk & Hlk & Hpk).
  unfold whole_view in Hv.
  set (s1 := exec (key_path event) s) in *.
  assert (Hlog : log (exec (char_path event) s1) =
                 log s1 ++
                 if 32 <=? unicode
                 then [CbChar (c_string (_glfmUnicodeToUTF8 unicode))] else []).
  { unfold char_path. rewrite (exec_bind get _ s1).
    change (eval get s1) with (plat s1). change (exec get s1) with s1.
    rewrite Hv, Hcf, Ha. cbn [when AKEY_EVENT_ACTION_DOWN Z.eqb orb].
    rewrite exec_bind. unfold eval, exec at 2. rewrite _glfmGetUnicodeChar_run.
    cbn [fst snd]. rewrite (Hk X_getUnicodeChar eq_refl). fold unicode.
    destruct (32 <=? unicode); [reflexivity|].
    cbn [when]. unfold exec, ret. cbn [snd log]. rewrite app_nil_r. reflexivity. }
  assert (Hsince : events_since s (exec (char_path event) s1) =
                   lk ++ if 32 <=? unicode
                         then [CbChar (c_string (_glfmUnicodeToUTF8 unicode))] else []).
  { apply events_since_app. rewrite Hlog, Hlk, app_assoc. reflexivity. }
  rewrite Hsince. unfold char_events. rewrite filter_app.
  fold (char_events lk). rewrite (char_events_none lk Hpk). cbn [List.app].
  split; intros Hu.
  - replace (32 <=? unicode) with false by (symmetry; apply Z.leb_gt; lia).
    reflexivity.
  - replace (32 <=? unicode) with true by (symmetry; apply Z.leb_le; lia).
    unfold _glfmUnicodeToUTF8.
    replace (unicode <? 128) with false by (symmetry; apply Z.ltb_ge; lia).
    replace (unicode <? 2048) with false by (symmetry; apply Z.ltb_ge; lia).
    replace (unicode <? 65536) with false by (symmetry; apply Z.ltb_ge; lia).
    replace (unicode <? 1114112) with false by (symmetry; apply Z.ltb_ge; lia).
    reflexivity.
Qed.

Lemma char_callback_edges_witness :
  char_events
    (events_since sys_control_key
       (exec (_glfmOnInputEvent (key_event AKEYCODE_ENTER AKEY_EVENT_ACTION_DOWN 0))
             sys_control_key)) = [] /\
  char_events
    (events_since sys_dead_key
       (exec (_glfmOnInputEvent (key_event AKEYCODE_A AKEY_EVENT_ACTION_DOWN 0))
             sys_dead_key)) = [CbChar []].
Proof.
  split.
  - apply (char_callback_edges (key_event AKEYCODE_ENTER AKEY_EVENT_ACTION_DOWN 0)
             sys_control_key); reflexivity.
  - apply (char_callback_edges (key_event AKEYCODE_A AKEY_EVENT_ACTION_DOWN 0)
             sys_dead_key); first [reflexivity | vm_compute; discriminate].
Defined.

(** ** Input events and the platform data *)

Lemma _glfmOnInputEvent_whole event :
  framed whole_view keep_none any_event (_glfmOnInputEvent event).
Proof. framed_auto. Qed.

(** X11. No input event changes the platform data.  A motion event is reported
    handled whatever it holds and whether or not a touch callback is
    registered; an event that is neither a key nor a motion event is
    reported unhandled and nothing happens. *)
Theorem input_event_keeps_platform_data event s :
  plat (exec (_glfmOnInputEvent event) s) = plat s /\
  (AInputEvent_getType event = AINPUT_EVENT_TYPE_MOTION ->
   eval (_glfmOnInputEvent event) s = 1) /\
  (AInputEvent_getType event <> AINPUT_EVENT_TYPE_KEY ->
   AInputEvent_getType event <> AINPUT_EVENT_TYPE_MOTION ->
   _glfmOnInputEvent event s = (0, s)).
Proof.
  split; [|split].
  - destruct (_glfmOnInputEvent_whole event s) as (Hv & _). exact Hv.
  - intros Ht. unfold _glfmOnInputEvent. rewrite Ht.
    change (AINPUT_EVENT_TYPE_MOTION =? AINPUT_EVENT_TYPE_KEY) with false.
    change (AINPUT_EVENT_TYPE_MOTION =? AINPUT_EVENT_TYPE_MOTION) with true.
    cbv iota. rewrite eval_bind. reflexivity.
  - intros Hk Hm. unfold _glfmOnInputEvent.
    apply Z.eqb_neq in Hk, Hm. rewrite Hk, Hm. reflexivity.
Qed.

Lemma input_event_keeps_platform_data_witness :
  plat (exec (_glfmOnInputEvent motion_event_three_pointers) sys_idle) = plat sys_idle /\
  eval (_glfmOnInputEvent motion_event_three_pointers) sys_idle = 1 /\
  _glfmOnInputEvent unknown_event sys_idle = (0, sys_idle).
Proof.
  destruct (input_event_keeps_platform_data motion_event_three_pointers sys_idle)
    as (H1 & H2 & _).
  destruct (input_event_keeps_platform_data unknown_event sys_idle) as (_ & _ & H3).
  split; [exact H1|]. split; [apply H2; reflexivity|].
  apply H3; vm_compute; discriminate.
Defined.

(** ** The pointer of a touch action *)

Lemma action_code code index :
  0 <= code < 256 -> 0 <= index < 256 ->
  Z.land (uint32 (code + 256 * index)) AMOTION_EVENT_ACTION_MASK = code.
Proof.
  intros Hc Hi. unfold uint32, AMOTION_EVENT_ACTION_MASK.
  rewrite Z.mod_small by lia.
  change 255 with (Z.ones 8). rewrite Z.land_ones by lia.
  change (2 ^ 8) with 256.
  replace (code + 256 * index) with (code + index * 256) by lia.
  rewrite Z.mod_add by lia. apply Z.mod_small. lia.
Qed.

Lemma action_index code index :
  0 <= code < 256 -> 0 <= index < 256 ->
  Z.shiftr (Z.land (uint32 (code + 256 * index)) AMOTION_EVENT_ACTION_POINTER_INDEX_MASK)
           AMOTION_EVENT_ACTION_POINTER_INDEX_SHIFT = index.
Proof.
  intros Hc Hi.
  unfold uint32, AMOTION_EVENT_ACTION_POINTER_INDEX_MASK,
    AMOTION_EVENT_ACTION_POINTER_INDEX_SHIFT.
  rewrite Z.mod_small by lia.
  rewrite Z.shiftr_land. change (Z.shiftr 65280 8) with (Z.ones 8).
  rewrite Z.land_ones, Z.shiftr_div_pow2 by lia.
  change (2 ^ 8) with 256.
  replace (code + 256 * index) with (code + index * 256) by lia.
  rewrite Z.div_add by lia. rewrite (Z.div_small code 256) by lia.
  apply Z.mod_small. lia.
Qed.

(** X12. A motion event carries its action as a code in the low byte and a
    pointer index in the next one.  A move gives every pointer of the event
    to the touch callback, in order; any other valid action gives the one
    pointer at the index the action carries; an action that is not valid
    gives none. *)
Theorem touch_action_pointer event s code index :
  AInputEvent_getType event = AINPUT_EVENT_TYPE_MOTION ->
  touchFunc (display (plat s)) = true ->
  AMotionEvent_getAction event = code + 256 * index ->
  0 <= code < 256 ->
  0 <= index < 256 ->
  let maxTouches := if multitouchEnabled (plat s) then MAX_SIMULTANEOUS_TOUCHES else 1 in
  events_since s (exec (_glfmOnInputEvent event) s) =
    match phase_of_action code with
    | None => []
    | Some GLFMTouchPhaseMoved =>
        flat_map (delivered_touch event maxTouches GLFMTouchPhaseMoved)
                 (seq 0 (AMotionEvent_getPointerCount event))
    | Some phase => delivered_touch event maxTouches phase (Z.to_nat index)
    end.
Proof.
  intros Ht Hf Ha Hc Hi maxTouches.
  apply events_since_app.
  unfold _glfmOnInputEvent. rewrite Ht.
  change (AINPUT_EVENT_TYPE_MOTION =? AINPUT_EVENT_TYPE_KEY) with false.
  change (AINPUT_EVENT_TYPE_MOTION =? AINPUT_EVENT_TYPE_MOTION) with true.
  cbv iota. rewrite exec_bind. change (exec (ret 1) ?x) with x.
  unfold touch_path. rewrite (exec_bind get _ s).
  change (eval get s) with (plat s). change (exec get s) with s.
  rewrite Hf, Ha, action_code, action_index by assumption.
  cbn [when]. fold maxTouches.
  destruct (phase_of_action code) as [phase|].
  - destruct phase;
      try (rewrite touch_pointer_emits; reflexivity).
    rewrite (emits_for_each _ _ (delivered_touch event maxTouches GLFMTouchPhaseMoved))
      by (intros i; apply touch_pointer_emits).
    reflexivity.
  - unfold exec, ret. cbn [snd]. symmetry. apply app_nil_r.
Qed.

Lemma touch_action_pointer_witness :
  events_since sys_idle (exec (_glfmOnInputEvent pointer_down_event) sys_idle) = [] /\
  events_since (exec (glfmSetMultitouchEnabled true) sys_idle)
    (exec (_glfmOnInputEvent pointer_down_event)
          (exec (glfmSetMultitouchEnabled true) sys_idle)) =
    [CbTouch 1 GLFMTouchPhaseBegan 20 40].
Proof.
  assert (Hc : 0 <= AMOTION_EVENT_ACTION_POINTER_DOWN < 256)
    by (unfold AMOTION_EVENT_ACTION_POINTER_DOWN; lia).
  assert (Hi : 0 <= 2 < 256) by lia.
  split.
  - exact (touch_action_pointer pointer_down_event sys_idle
             AMOTION_EVENT_ACTION_POINTER_DOWN 2 eq_refl eq_refl eq_refl Hc Hi).
  - exact (touch_action_pointer pointer_down_event
             (exec (glfmSetMultitouchEnabled true) sys_idle)
             AMOTION_EVENT_ACTION_POINTER_DOWN 2 eq_refl eq_refl eq_refl Hc Hi).
Defined.

(** ** Relations along the code *)

Section Tracks.

Variable R : Sys -> Sys -> Prop.

Hypothesis R_refl : forall s, R s s.

Hypothesis R_trans : forall s1 s2 s3, R s1 s2 -> R s2 s3 -> R s1 s3.

Lemma tracks_ret {A} (a : A) : tracks R (ret a).
Proof. intros s. apply R_refl. Qed.

Lemma tracks_bind {A B} (m : M A) (k : A -> M B) :
  tracks R m -> (forall a, tracks R (k a)) -> tracks R (bind m k).
Proof.
  intros Hm Hk s. rewrite exec_bind. eapply R_trans; [apply Hm|apply Hk].
Qed.

Lemma tracks_when (b : bool) (m : M unit) : tracks R m -> tracks R (when b m).
Proof. destruct b; simpl; auto using tracks_ret. Qed.

Lemma tracks_run steps : (forall st, tracks R (step st)) -> tracks R (run steps).
Proof.
  intros H. induction steps as [|st rest IH]; simpl.
  - apply tracks_ret.
  - apply tracks_bind; [apply H|intros _; exact IH].
Qed.

End Tracks.

(** ** The orientation callback *)

Lemma announced_app l1 l2 : announced (l1 ++ l2) = announced l1 ++ announced l2.
Proof.
  induction l1 as [|e l1 IH]; [reflexivity|].
  destruct e; cbn [List.app announced]; rewrite ?IH; reflexivity.
Qed.

Lemma announced_none l : forallb not_orientation l = true -> announced l = [].
Proof.
  induction l as [|e l IH]; intros H; [reflexivity|].
  cbn [forallb] in H. apply andb_true_iff in H. destruct H as [He H].
  destruct e; cbn [announced]; auto. discriminate He.
Qed.

Lemma last_cons_default {A} (a : A) l d : last (a :: l) d = last l a.
Proof.
  revert a d. induction l as [|b l IH]; intros a d; [reflexivity|].
  change (last (a :: b :: l) d) with (last (b :: l) d).
  rewrite (IH b d), (IH b a). reflexivity.
Qed.

Lemma changes_only_app cur l1 l2 :
  changes_only cur l1 -> changes_only (last l1 cur) l2 -> changes_only cur (l1 ++ l2).
Proof.
  revert cur. induction l1 as [|o l1 IH]; intros cur H1 H2; [exact H2|].
  rewrite last_cons_default in H2.
  cbn [List.app changes_only] in *. destruct H1 as [Ho H1]. split; [exact Ho|].
  apply IH; assumption.
Qed.

Lemma last_app_default {A} (l1 l2 : list A) d : last (l1 ++ l2) d = last l2 (last l1 d).
Proof.
  revert d. induction l1 as [|a l1 IH]; intros d; [reflexivity|].
  rewrite <- app_comm_cons, !last_cons_default. apply IH.
Qed.

Lemma orientation_step_refl s : orientation_step s s.
Proof.
  split; [reflexivity|]. exists []. split; [symmetry; apply app_nil_r|].
  destruct (orientationChangedFunc (display (plat s))); cbn; auto.
Qed.

Lemma orientation_step_trans s1 s2 s3 :
  orientation_step s1 s2 -> orientation_step s2 s3 -> orientation_step s1 s3.
Proof.
  intros (Hd1 & l1 & Hl1 & H1) (Hd2 & l2 & Hl2 & H2).
  split; [congruence|]. exists (l1 ++ l2).
  split; [rewrite Hl2, Hl1, app_assoc; reflexivity|].
  rewrite Hd1 in H2. rewrite announced_app.
  destruct (orientationChangedFunc (display (plat s1))).
  - destruct H1 as [Hc1 Ho1], H2 as [Hc2 Ho2]. rewrite Ho1 in Hc2, Ho2. split.
    + apply changes_only_app; assumption.
    + rewrite Ho2, last_app_default. reflexivity.
  - rewrite H1, H2. reflexivity.
Qed.

Lemma orientation_step_frame s s' :
  frame orientation_view keep_none not_orientation s s' -> orientation_step s s'.
Proof.
  intros (Hv & _ & l & Hl & Hp). unfold orientation_view in Hv.
  injection Hv as Ho Hd. split; [exact Hd|]. exists l. split; [exact Hl|].
  rewrite (announced_none l Hp).
  destruct (orientationChangedFunc (display (plat s))); cbn; auto.
Qed.

Lemma orientation_step_framed {A} (m : M A) :
  framed orientation_view keep_none not_orientation m -> tracks orientation_step m.
Proof. intros H s. apply orientation_step_frame, H. Qed.

Lemma orientation_eqb_neq a b : orientation_eqb a b = false -> b <> a.
Proof. destruct a, b; cbn; congruence. Qed.

Lemma _glfmReportOrientationChangeIfNeeded_step :
  tracks orientation_step _glfmReportOrientationChangeIfNeeded.
Proof.
  intros [pd e l]. unfold orientation_step.
  unfold _glfmReportOrientationChangeIfNeeded, glfmGetInterfaceOrientation.
  run_monad.
  match goal with
  | |- context [orientation_eqb (orientation pd) ?o] =>
      set (o' := o); destruct (orientation_eqb (orientation pd) o') eqn:E
  end; run_monad.
  - split; [reflexivity|]. exists []. split; [symmetry; apply app_nil_r|].
    destruct (orientationChangedFunc (display pd)); cbn; auto.
  - destruct (orientationChangedFunc (display pd)) eqn:Ef; run_monad.
    + split; [reflexivity|]. exists [CbOrientationChanged o'].
      split; [reflexivity|]. cbn.
      split; [split; [apply orientation_eqb_neq, E|exact I]|reflexivity].
    + split; [reflexivity|]. exists []. split; [symmetry; apply app_nil_r|].
      reflexivity.
Qed.

Ltac orientation_tracks :=
  repeat match goal with
         | |- tracks _ _glfmReportOrientationChangeIfNeeded =>
             apply _glfmReportOrientationChangeIfNeeded_step
         | |- tracks _ (ret _) =>
             apply (tracks_ret orientation_step orientation_step_refl)
         | |- tracks _ (when _ _) =>
             apply (tracks_when orientation_step orientation_step_refl)
         | |- tracks _ (bind _ _) =>
             apply (tracks_bind orientation_step orientation_step_trans); [ | intros ? ]
         | |- tracks _ (if ?b then _ else _) => destruct b
         | |- tracks _ _glfmDrawFrame => unfold _glfmDrawFrame
         | |- tracks _ (_glfmUpdateSurfaceSizeIfNeeded _) =>
             unfold _glfmUpdateSurfaceSizeIfNeeded
         | |- tracks _ _ => apply orientation_step_framed; solve [framed_auto]
         end.

Lemma step_orientation_step st : tracks orientation_step (step st).
Proof.
  destruct st; cbn [step]; unfold _glfmOnAppCmd, main_loop_frame, main_loop_destroy;
    orientation_tracks.
Qed.

(** X13. The orientation callback reports changes only.  In every run, from any
    state, with the callback registered: each orientation it is given
    differs from the one given before, the first from the orientation
    stored at the start, and the stored orientation is the last one given.
    Without a registered callback none is made. *)
Theorem orientation_callback_changes_only steps s :
  let s' := exec (run steps) s in
  let given := announced (events_since s s') in
  if orientationChangedFunc (display (plat s))
  then changes_only (orientation (plat s)) given /\
       orientation (plat s') = last given (orientation (plat s))
  else given = [].
Proof.
  intros s' given. subst given s'.
  destruct (tracks_run orientation_step orientation_step_refl orientation_step_trans
              steps step_orientation_step s) as (_ & l & Hl & H).
  rewrite (events_since_app _ _ _ Hl). exact H.
Qed.

(** ** Sensor calls *)

Section SensorCalls.

Variable d : GLFMDisplay.

Lemma display_view_holds {A} (m : M A) :
  framed display_view keep_none (sensor_call_ok d) m ->
  holds (display_is d) (sensor_call_ok d) m.
Proof.
  apply holds_framed. unfold display_view, display_is. congruence.
Qed.

Lemma set_sensor_enabled_ok b i :
  holds (display_is d) (sensor_call_ok d) (set_sensor_enabled b i).
Proof.
  unfold set_sensor_enabled.
  apply holds_bind; [apply holds_ask|intros deviceSensor].
  apply holds_get_bind. intros pd Hpd. unfold display_is in Hpd. rewrite Hpd.
  apply holds_bind; [apply display_view_holds; repeat framed_basic|intros _].
  destruct (Bool.eqb (nth i (deviceSensorEnabled pd) false)
                     (b && nth i (sensorFuncs d) false) || (deviceSensor =? 0));
    [apply holds_ret|].
  apply holds_bind; [apply display_view_holds; repeat framed_basic|intros haveQueue].
  destruct (negb haveQueue); [apply holds_ret|].
  destruct (b && nth i (sensorFuncs d) false) eqn:Es; cbn [andb negb].
  - apply andb_true_iff in Es. destruct Es as [_ Es].
    destruct (negb (nth i (deviceSensorEnabled pd) false)); [|apply holds_ret].
    apply holds_bind; [apply holds_ask|intros r].
    apply holds_bind; [apply holds_emit; exact Es|intros _].
    apply holds_when.
    apply holds_bind; [apply holds_ask|intros minDelay].
    apply holds_bind; [|intros _; apply display_view_holds; repeat framed_basic].
    apply holds_when. apply holds_emit. cbn [sensor_call_ok].
    destruct (SENSOR_UPDATE_INTERVAL_MICROS <? minDelay) eqn:Em.
    + apply Z.ltb_lt in Em. apply Z.leb_le. lia.
    + apply Z.leb_refl.
  - destruct (nth i (deviceSensorEnabled pd) false); [|apply holds_ret].
    apply display_view_holds. repeat framed_basic.
Qed.

Lemma sensors_ok b :
  holds (display_is d) (sensor_call_ok d) (_glfmSetAllRequestedSensorsEnabled b).
Proof.
  unfold _glfmSetAllRequestedSensorsEnabled.
  induction (seq 0 GLFM_NUM_SENSORS) as [|i l IH]; cbn [for_each].
  - apply holds_ret.
  - apply holds_bind; [apply set_sensor_enabled_ok|intros _; exact IH].
Qed.

Ltac sensors_known :=
  match goal with
  | |- holds _ _ (_glfmSetAllRequestedSensorsEnabled _) => apply sensors_ok
  end.

Lemma _glfmSetAnimating_sensors_ok b :
  holds (display_is d) (sensor_call_ok d) (_glfmSetAnimating b).
Proof.
  unfold _glfmSetAnimating.
  repeat first
    [ sensors_known
    | holds_basic
    | apply display_view_holds; solve [repeat framed_basic] ].
Qed.

Lemma step_sensors_ok st : holds (display_is d) (sensor_call_ok d) (step st).
Proof.
  destruct st; cbn [step]; unfold _glfmOnAppCmd, main_loop_destroy, main_loop_frame;
    repeat first
      [ sensors_known
      | match goal with
        | |- holds _ _ (_glfmSetAnimating _) => apply _glfmSetAnimating_sensors_ok
        end
      | holds_basic
      | apply display_view_holds; solve [framed_auto] ].
Qed.

End SensorCalls.

(** X14. In every run, from any state, a sensor is enabled only when the
    display has a callback for it, and the event rate asked for is never
    below [SENSOR_UPDATE_INTERVAL_MICROS]. *)
Theorem sensor_calls_within_bounds steps s :
  forallb (sensor_call_ok (display (plat s)))
          (events_since s (exec (run steps) s)) = true.
Proof.
  destruct (holds_run (display_is (display (plat s))) _ steps
              (fun st _ => step_sensors_ok (display (plat s)) st) s eq_refl)
    as (_ & l & Hl & Hp).
  rewrite (events_since_app _ _ _ Hl). exact Hp.
Qed.

(** ** Samples of sensors that are not wanted *)

Lemma nth_list_set_false i j l :
  nth j l false = false -> nth j (list_set i false l) false = false.
Proof.
  revert i j. induction l as [|x l IH]; intros i j H.
  - destruct i, j; reflexivity.
  - destruct i, j; cbn [list_set nth] in *; auto.
Qed.

Lemma nth_list_set_at i l : nth i (list_set i false l) false = false.
Proof.
  revert i. induction l as [|x l IH]; intros i.
  - destruct i; reflexivity.
  - destruct i; cbn [list_set nth]; auto.
Qed.

Lemma set_sensor_enabled_calls_valid should isEnabled dev q i :
  framed valid_view keep_none any_event (set_sensor_enabled_calls should isEnabled dev q i).
Proof. unfold set_sensor_enabled_calls. repeat framed_basic. Qed.

(** [set_sensor_enabled] on the valid flags: the flag of a sensor that is
    not wanted is cleared, and no flag is set. *)
Lemma set_sensor_enabled_valid b i s :
  let s' := exec (set_sensor_enabled b i) s in
  display (plat s') = display (plat s) /\
  sensorEventValid (plat s') =
    if sensor_wanted b (display (plat s)) i then sensorEventValid (plat s)
    else list_set i false (sensorEventValid (plat s)).
Proof.
  intros s'. subst s'. unfold set_sensor_enabled.
  rewrite exec_bind.
  set (dev := eval (ask X_getDefaultSensor) s).
  set (s1 := exec (ask X_getDefaultSensor) s).
  assert (Hp : plat s1 = plat s) by reflexivity. clearbody dev s1.
  rewrite (exec_bind get _ s1).
  change (eval get s1) with (plat s1). change (exec get s1) with s1.
  rewrite exec_bind. rewrite Hp.
  match goal with
  | |- context [exec ?k (exec (when ?c ?m) s1)] =>
      change k with (set_sensor_enabled_calls
                       (sensor_wanted b (display (plat s)) i)
                       (nth i (deviceSensorEnabled (plat s)) false) dev
                       (sensorEventQueue (plat s)) i);
      set (s2 := exec (when c m) s1)
  end.
  destruct (set_sensor_enabled_calls_valid
              (sensor_wanted b (display (plat s)) i)
              (nth i (deviceSensorEnabled (plat s)) false) dev
              (sensorEventQueue (plat s)) i s2) as (Hv & _).
  unfold valid_view in Hv. injection Hv as Hv Hd. rewrite Hv, Hd.
  subst s2. unfold sensor_wanted.
  destruct (b && nth i (sensorFuncs (display (plat s))) false);
    cbn [negb when]; unfold exec, ret, modify; cbn [snd plat];
    rewrite Hp; split; reflexivity.
Qed.

Lemma sensors_valid b l :
  forall s,
    let s' := exec (for_each l (set_sensor_enabled b)) s in
    display (plat s') = display (plat s) /\
    forall j, sensor_wanted b (display (plat s)) j = false ->
              (In j l \/ nth j (sensorEventValid (plat s)) false = false) ->
              nth j (sensorEventValid (plat s')) false = false.
Proof.
  induction l as [|i l IH]; intros s s'; subst s'.
  - cbn [for_each]. split; [reflexivity|]. intros j _ [[]|H]. exact H.
  - cbn [for_each]. rewrite exec_bind.
    destruct (set_sensor_enabled_valid b i s) as (Hd & Hv).
    destruct (IH (exec (set_sensor_enabled b i) s)) as (Hd2 & Hj).
    split; [congruence|].
    intros j Hw Hin. apply Hj; [rewrite Hd; exact Hw|].
    rewrite Hv.
    destruct Hin as [[Hij | Hin] | Hf].
    + subst j. rewrite Hw. right. apply nth_list_set_at.
    + left. exact Hin.
    + right. destruct (sensor_wanted b (display (plat s)) i); [exact Hf|].
      apply nth_list_set_false, Hf.
Qed.

(** X15. After [_glfmSetAllRequestedSensorsEnabled] no sensor that is not
    wanted has a sample marked valid: none at all when sensors are turned
    off, and none without a callback when they are turned on. *)
Theorem unwanted_sensor_samples_invalid enabledGlobally s j :
  (j < GLFM_NUM_SENSORS)%nat ->
  sensor_wanted enabledGlobally (display (plat s)) j = false ->
  nth j (sensorEventValid
           (plat (exec (_glfmSetAllRequestedSensorsEnabled enabledGlobally) s)))
      false = false.
Proof.
  intros Hj Hw. unfold _glfmSetAllRequestedSensorsEnabled.
  destruct (sensors_valid enabledGlobally (seq 0 GLFM_NUM_SENSORS) s) as (_ & H).
  apply H; [exact Hw|]. left. apply in_seq. lia.
Qed.

Lemma unwanted_sensor_samples_invalid_witness :
  nth 1 (sensorEventValid
           (plat (exec (_glfmSetAllRequestedSensorsEnabled true) sys_samples_valid)))
      false = false.
Proof.
  apply (unwanted_sensor_samples_invalid true sys_samples_valid 1).
  - vm_compute. lia.
  - reflexivity.
Defined.

(** ** The sensor events of one looper wake-up *)

Lemma nth_list_set_eq {A} (i : nat) (v d : A) l :
  (i < length l)%nat -> nth i (list_set i v l) d = v.
Proof.
  revert i. induction l as [|x l IH]; intros i Hi; [cbn in Hi; lia|].
  destruct i; [reflexivity|]. cbn [list_set nth]. apply IH. cbn in Hi. lia.
Qed.

Lemma nth_list_set_neq {A} (i j : nat) (v d : A) l :
  i <> j -> nth j (list_set i v l) d = nth j l d.
Proof.
  revert i j. induction l as [|x l IH]; intros i j Hij.
  - destruct i; reflexivity.
  - destruct i, j; cbn [list_set nth]; try reflexivity; try contradiction.
    apply IH. congruence.
Qed.

Lemma length_list_set {A} (i : nat) (v : A) l : length (list_set i v l) = length l.
Proof.
  revert i. induction l as [|x l IH]; intros i; [destruct i; reflexivity|].
  destruct i; cbn [list_set length]; auto.
Qed.

Section SensorBatch.

Variable ASensorEvent : Type.

Variable event_type : ASensorEvent -> Z.

Variable GLFMSensorEvent : Type.

Variable convert : nat -> ASensorEvent -> GLFMSensorEvent.

Variables acc mag gyro rot : nat.

(** The slots of sensor [i] after the loop: those of its last event, or
    untouched when the batch has none for it. *)
Lemma get_events_slot zero i events :
  forall (st : SensorQueue.Slots GLFMSensorEvent) found,
    length (SensorQueue.sensorEvent _ st) = GLFM_NUM_SENSORS ->
    length (SensorQueue.sensorEventValid _ st) = GLFM_NUM_SENSORS ->
    length (SensorQueue.sensorEventReceived _ st) = GLFM_NUM_SENSORS ->
    (i < GLFM_NUM_SENSORS)%nat ->
    (match found with
     | Some ev =>
         nth i (SensorQueue.sensorEventReceived _ st) false = true /\
         nth i (SensorQueue.sensorEventValid _ st) false = true /\
         nth i (SensorQueue.sensorEvent _ st) zero = convert i ev
     | None => nth i (SensorQueue.sensorEventReceived _ st) false = false
     end) ->
    let st' := SensorQueue.get_events ASensorEvent event_type GLFMSensorEvent convert
                 acc mag gyro rot events st in
    length (SensorQueue.sensorEvent _ st') = GLFM_NUM_SENSORS /\
    match SensorQueue.latest ASensorEvent event_type acc mag gyro rot i events found with
    | Some ev =>
        nth i (SensorQueue.sensorEventReceived _ st') false = true /\
        nth i (SensorQueue.sensorEventValid _ st') false = true /\
        nth i (SensorQueue.sensorEvent _ st') zero = convert i ev
    | None => nth i (SensorQueue.sensorEventReceived _ st') false = false
    end.
Proof.
  induction events as [|event rest IH]; intros st found L1 L2 L3 Hi Hf st'; subst st'.
  - cbn [SensorQueue.get_events SensorQueue.latest]. split; assumption.
  - cbn [SensorQueue.get_events SensorQueue.latest].
    unfold SensorQueue.store_event.
    destruct (SensorQueue.sensor_of_type acc mag gyro rot (event_type event)) as [j|];
      [|apply IH; assumption].
    apply IH; cbn [SensorQueue.sensorEvent SensorQueue.sensorEventValid
                   SensorQueue.sensorEventReceived];
      rewrite ?length_list_set; try assumption.
    destruct (Nat.eqb i j) eqn:E.
    + apply Nat.eqb_eq in E. subst j.
      rewrite !nth_list_set_eq by lia. auto.
    + apply Nat.eqb_neq in E.
      rewrite !nth_list_set_neq by congruence. exact Hf.
Qed.

(** X16. One wake-up makes at most one callback per sensor, in the order of
    the sensors, and gives it the sample of the last event of the batch
    for that sensor: a sensor is called exactly when it has a callback and
    the batch has an event for it. *)
Theorem sensor_wakeup_latest_wins sensorFuncs zero events samples valid :
  length samples = GLFM_NUM_SENSORS ->
  length valid = GLFM_NUM_SENSORS ->
  fst (SensorQueue.sensor_wakeup ASensorEvent event_type GLFMSensorEvent convert
         acc mag gyro rot sensorFuncs zero events samples valid) =
  flat_map (fun i =>
              match SensorQueue.latest ASensorEvent event_type acc mag gyro rot
                      i events None with
              | Some ev => if nth i sensorFuncs false then [(i, convert i ev)] else []
              | None => []
              end)
           (seq 0 GLFM_NUM_SENSORS).
Proof.
  intros L1 L2. unfold SensorQueue.sensor_wakeup, SensorQueue.send_callbacks.
  cbn [fst].
  set (st := SensorQueue.get_events ASensorEvent event_type GLFMSensorEvent convert
               acc mag gyro rot events
               (SensorQueue.mkSlots _ samples valid (repeat false GLFM_NUM_SENSORS))).
  assert (H : forall i, (i < GLFM_NUM_SENSORS)%nat ->
    (if nth i sensorFuncs false && nth i (SensorQueue.sensorEventReceived _ st) false
     then [(i, nth i (SensorQueue.sensorEvent _ st) zero)]
     else []) =
    match SensorQueue.latest ASensorEvent event_type acc mag gyro rot i events None with
    | Some ev => if nth i sensorFuncs false then [(i, convert i ev)] else []
    | None => []
    end).
  { intros i Hi.
    destruct (get_events_slot zero i events
                (SensorQueue.mkSlots _ samples valid (repeat false GLFM_NUM_SENSORS))
                None L1 L2 eq_refl Hi) as (_ & H).
    { cbn [SensorQueue.sensorEventReceived].
      destruct i as [|[|[|[|i]]]]; try reflexivity. unfold GLFM_NUM_SENSORS in Hi. lia. }
    fold st in H.
    destruct (SensorQueue.latest ASensorEvent event_type acc mag gyro rot i events None)
      as [ev|].
    - destruct H as (Hr & _ & Hs). rewrite Hr, Hs, andb_true_r. reflexivity.
    - rewrite H, andb_false_r. reflexivity. }
  unfold GLFM_NUM_SENSORS in *. cbn [seq flat_map].
  rewrite (H 0%nat), (H 1%nat), (H 2%nat), (H 3%nat) by lia. reflexivity.
Qed.

End SensorBatch.

Lemma sensor_wakeup_latest_wins_witness :
  fst (SensorQueue.sensor_wakeup (Z * Z) fst (nat * Z) (fun i ev => (i, snd ev))
         0 1 2 3 [true; true; false; true] (0%nat, 0) raw_batch
         [(0%nat, 0); (1%nat, 0); (2%nat, 0); (3%nat, 0)] [false; false; false; false]) =
  [(0%nat, (0%nat, 40))].
Proof.
  apply (sensor_wakeup_latest_wins (Z * Z) fst (nat * Z) (fun i ev => (i, snd ev))
           0 1 2 3 [true; true; false; true] (0%nat, 0) raw_batch
           [(0%nat, 0); (1%nat, 0); (2%nat, 0); (3%nat, 0)] [false; false; false; false]);
    reflexivity.
Defined.

(** ** Invariants of a run *)

Lemma wait_view_holds {A} (m : M A) :
  framed wait_view keep_none any_event m -> holds wait_frames_bounded any_event m.
Proof.
  apply holds_framed. unfold wait_view, wait_frames_bounded. intros pd pd' H.
  rewrite H. auto.
Qed.

Lemma _glfmUpdateSurfaceSizeIfNeeded_bounded force :
  holds wait_frames_bounded any_event (_glfmUpdateSurfaceSizeIfNeeded force).
Proof.
  unfold _glfmUpdateSurfaceSizeIfNeeded.
  apply holds_bind; [apply holds_ask|intros w].
  apply holds_bind; [apply holds_ask|intros h].
  apply holds_get_bind. intros pd Hpd. apply holds_when.
  destruct (force || (resizeEventWaitFrames pd <=? 0)) eqn:E.
  - apply holds_bind; [|intros _; apply wait_view_holds; framed_auto].
    apply holds_modify. intros pd' _. unfold wait_frames_bounded.
    cbn. unfold RESIZE_EVENT_MAX_WAIT_FRAMES. lia.
  - apply orb_false_iff in E. destruct E as [_ E]. apply Z.leb_gt in E.
    apply holds_modify. intros pd' _. unfold wait_frames_bounded in *.
    cbn. lia.
Qed.

Ltac bounded_step :=
  match goal with
  | |- holds _ _ (_glfmUpdateSurfaceSizeIfNeeded _) =>
      apply _glfmUpdateSurfaceSizeIfNeeded_bounded
  | |- holds _ _ _glfmDrawFrame => unfold _glfmDrawFrame
  | |- holds _ _ _ => holds_basic
  | |- holds _ _ _ => apply wait_view_holds; solve [framed_auto]
  end.

Lemma step_wait_frames_bounded st : holds wait_frames_bounded any_event (step st).
Proof.
  destruct st; cbn [step]; unfold _glfmOnAppCmd, main_loop_frame, main_loop_destroy;
    repeat bounded_step.
Qed.

(** X17. The wait counter of the resize callback stays between 0 and
    [RESIZE_EVENT_MAX_WAIT_FRAMES] in every run that starts with it in this
    range, as [android_main] does. *)
Theorem wait_counter_in_range steps s :
  0 <= resizeEventWaitFrames (plat s) <= RESIZE_EVENT_MAX_WAIT_FRAMES ->
  0 <= resizeEventWaitFrames (plat (exec (run steps) s)) <= RESIZE_EVENT_MAX_WAIT_FRAMES.
Proof.
  intros H.
  destruct (holds_run wait_frames_bounded any_event steps
              (fun st _ => step_wait_frames_bounded st) s H) as (H' & _).
  exact H'.
Qed.

Lemma wait_counter_in_range_witness :
  0 <= resizeEventWaitFrames
         (plat (exec (run [frame_60Hz; frame_60Hz; frame_60Hz]) sys_before_rotation))
    <= RESIZE_EVENT_MAX_WAIT_FRAMES.
Proof.
  apply (wait_counter_in_range [frame_60Hz; frame_60Hz; frame_60Hz] sys_before_rotation).
  vm_compute. split; discriminate.
Defined.

Lemma keyboard_view_holds {A} (m : M A) :
  framed keyboard_view keep_none keyboard_callback_consistent m ->
  holds hidden_keyboard_has_no_frame keyboard_callback_consistent m.
Proof.
  apply holds_framed. unfold keyboard_view, hidden_keyboard_has_no_frame.
  intros pd pd' H. injection H as Hv Hf. rewrite Hv, Hf. auto.
Qed.

Lemma keyboard_heuristic_hidden minSize windowRect visibleRect :
  fst (keyboard_heuristic minSize windowRect visibleRect) = false ->
  snd (keyboard_heuristic minSize windowRect visibleRect) = zeroRect.
Proof.
  unfold keyboard_heuristic.
  destruct (largest_band minSize (nonVisibleRect windowRect visibleRect) 0 (0%nat, -1))
    as [idx area].
  cbn [fst snd]. intros H. rewrite H. reflexivity.
Qed.

Lemma _glfmUpdateKeyboardVisibility_consistent :
  holds hidden_keyboard_has_no_frame keyboard_callback_consistent
        _glfmUpdateKeyboardVisibility.
Proof.
  unfold _glfmUpdateKeyboardVisibility.
  apply holds_get_bind. intros pd Hpd.
  apply holds_bind; [apply keyboard_view_holds; framed_auto|intros visibleRect].
  pose proof (keyboard_heuristic_hidden (minimumKeyboardSize pd)
                (contentRect (app pd)) visibleRect) as Hh.
  destruct (keyboard_heuristic (minimumKeyboardSize pd) (contentRect (app pd)) visibleRect)
    as [visible frame].
  cbn [fst snd] in Hh. apply holds_when.
  intros s Hs. rewrite !exec_bind.
  split.
  - unfold hidden_keyboard_has_no_frame.
    match goal with
    | |- context [exec (when ?c ?m) ?s0] =>
        assert (Hf : framed keyboard_view keep_none any_event (when c m))
          by (repeat framed_basic);
        destruct (Hf s0) as (Hv & _)
    end.
    unfold keyboard_view in Hv. injection Hv as Hv1 Hv2. rewrite Hv1, Hv2.
    cbn. exact Hh.
  - destruct (keyboardVisibilityChangedFunc (display pd)).
    + eexists. split; [cbn; reflexivity|].
      cbn. destruct visible; [reflexivity|]. rewrite (Hh eq_refl). reflexivity.
    + exists []. split; [cbn; rewrite app_nil_r; reflexivity|reflexivity].
Qed.

Ltac consistent_step :=
  match goal with
  | |- holds _ _ _glfmUpdateKeyboardVisibility =>
      apply _glfmUpdateKeyboardVisibility_consistent
  | |- holds _ _ _ => holds_basic
  | |- holds _ _ _ => apply keyboard_view_holds; solve [framed_auto]
  end.

Lemma step_keyboard_consistent st :
  holds hidden_keyboard_has_no_frame keyboard_callback_consistent (step st).
Proof.
  destruct st; cbn [step]; unfold _glfmOnAppCmd, main_loop_frame, main_loop_destroy;
    repeat consistent_step.
Qed.

(** X18. A hidden keyboard has no frame.  In every run that starts with the
    stored frame zero or the keyboard stored as visible, the stored frame
    is the zero rectangle whenever the keyboard is stored as hidden, and
    every keyboard callback that reports it hidden passes a frame of
    zeros. *)
Theorem hidden_keyboard_frame_is_zero steps s :
  (keyboardVisible (plat s) = false -> keyboardFrame (plat s) = zeroRect) ->
  let s' := exec (run steps) s in
  (keyboardVisible (plat s') = false -> keyboardFrame (plat s') = zeroRect) /\
  forallb keyboard_callback_consistent (events_since s s') = true.
Proof.
  intros H s'. subst s'.
  destruct (holds_run hidden_keyboard_has_no_frame keyboard_callback_consistent steps
              (fun st _ => step_keyboard_consistent st) s H) as (H' & l & Hl & Hp).
  split; [exact H'|]. rewrite (events_since_app _ _ _ Hl). exact Hp.
Qed.

Lemma hidden_keyboard_frame_is_zero_witness :
  (keyboardVisible
     (plat (exec (run [StepContentRect (mkRect 0 0 1000 2000)]) sys_keyboard_shown)) = false ->
   keyboardFrame
     (plat (exec (run [StepContentRect (mkRect 0 0 1000 2000)]) sys_keyboard_shown)) =
     zeroRect) /\
  forallb keyboard_callback_consistent
    (events_since sys_keyboard_shown
       (exec (run [StepContentRect (mkRect 0 0 1000 2000)]) sys_keyboard_shown)) = true.
Proof.
  apply (hidden_keyboard_frame_is_zero [StepContentRect (mkRect 0 0 1000 2000)]
           sys_keyboard_shown).
  reflexivity.
Defined.

(** ** Losing focus *)

Lemma sensors_only_sensor_events b :
  framed focus_view keep_none is_sensor_event (_glfmSetAllRequestedSensorsEnabled b).
Proof. framed_auto. Qed.

Lemma last_frame_focus_neutral : focus_neutral last_frame.
Proof. unfold focus_neutral, last_frame. framed_auto. Qed.

(** X19. A lost-focus command that finds the animating flag set draws one more
    frame, with a refresh asked for, before it clears the flag and makes
    the focus callback; what follows the callback are sensor calls only.
    When the flag is not set the command does nothing. *)
Theorem lost_focus_draws_last_frame s :
  let s' := exec (_glfmOnAppCmd APP_CMD_LOST_FOCUS) s in
  if animating (plat s)
  then animating (plat s') = false /\
       exists l_sensors,
         events_since s s' =
           events_since s (exec last_frame s) ++
           (if focusFunc (display (plat s)) then [CbFocus false] else []) ++
           l_sensors /\
         forallb is_sensor_event l_sensors = true
  else s' = s.
Proof.
  intros s'. subst s'.
  change (_glfmOnAppCmd APP_CMD_LOST_FOCUS)
    with (pd <- get ;;
          when (animating pd)
            (modify (set_refreshRequested true) ;;
             _glfmDrawFrame ;;
             _glfmSetAnimating false)).
  rewrite (exec_bind get _ s).
  change (eval get s) with (plat s). change (exec get s) with s.
  destruct (animating (plat s)) eqn:Ha; [|reflexivity].
  cbn [when].
  rewrite (exec_bind (modify (set_refreshRequested true)) _ s).
  rewrite (exec_bind _glfmDrawFrame).
  assert (E : exec last_frame s =
              exec _glfmDrawFrame (exec (modify (set_refreshRequested true)) s))
    by (unfold last_frame; rewrite exec_bind; reflexivity).
  rewrite <- E. clear E.
  destruct (last_frame_focus_neutral s) as (Hv & _ & l1 & Hl1 & _).
  unfold focus_view in Hv. injection Hv as Hv1 Hv2 Hv3.
  set (s1 := exec last_frame s) in *. clearbody s1.
  rewrite (events_since_app _ _ _ Hl1).
  split; [apply _glfmSetAnimating_result|].
  unfold _glfmSetAnimating. rewrite (exec_bind get _ s1).
  change (eval get s1) with (plat s1). change (exec get s1) with s1.
  rewrite Hv1, Ha. cbn [Bool.eqb negb when andb].
  rewrite andb_false_r, Hv3.
  rewrite !exec_bind.
  match goal with
  | |- context [exec (_glfmSetAllRequestedSensorsEnabled false) ?s0] =>
      destruct (sensors_only_sensor_events false s0) as (_ & _ & l2 & Hl2 & Hp2);
      set (s2 := s0) in *
  end.
  exists l2. split; [|exact Hp2].
  apply events_since_app. rewrite Hl2. subst s2.
  destruct (focusFunc (display (plat s))); cbn; rewrite Hl1, <- ?app_assoc;
    reflexivity.
Qed.
